(** * QAagentic reporter SDK: the step tracker and the reporter orchestration

    A shallow embedding of [packages/javascript/src/core/step.ts] and
    [packages/javascript/src/core/reporter.ts], with the types of
    [core/types.ts] and [core/config.ts] they use; of [core/attachments.ts],
    [core/status.ts] and [core/severity.ts]; of the global configuration of
    [core/config.ts]; and of the parts of the Jest and Playwright adapters
    that build test results and hand them to the reporter.

    - JavaScript objects that are shared by reference (the [Step] instances
      held by the module-level stack and by their parents' [children] arrays)
      live in an explicit heap.
    - Everything the code awaits in sequence is modelled by state passing; a
      thrown exception or a rejected promise is the [Throw] completion; a
      thrown value is an [Error] object or a primitive value.
    - The services of the JavaScript host ([new Date()], [uuidv4()],
      [Date.prototype.toISOString]) are fields of the record [Host.t]: every
      theorem holds for every host.
    - Counters and millisecond durations are whole numbers; [passRate] is a
      binary64 float computed with the operations of the code.
    - The sinks are the interface [BaseReporter]; [JUnitReporter] and
      [APIReporter] are embedded, the latter with the requests it sends.  The
      constructor of [QAgenticReporter], which picks the sinks from the
      configuration, and the console output of the sinks are not modelled.
    - [StepTracker.calls] and [QAgenticReporter.invoked] are ghost logs of
      the calls made; the code does not keep them.
    - The nested objects of the global configuration, which
      [{ ...defaultConfig }] shares between [defaultConfig] and
      [globalConfig], live in a heap of their own ([ConfigStore]); the process
      environment and the parsed YAML file are arguments of [configure]. *)

From Stdlib Require Import ZArith String Ascii List Floats.
From Stdlib Require Import DecimalString DecimalNat.
From stdpp Require Import base decidable option list strings gmap.

Local Open Scope Z_scope.

(** ** The JavaScript host *)

Module Host.

(** [clock n] is what the [n]-th evaluation of [new Date()] returns (epoch
    milliseconds) and [ids n] what the [n]-th call of [uuidv4()] returns. *)
Record t := Make {
  clock : nat -> Z;
  ticks : nat;
  ids : nat -> string;
  drawn : nat;
  toISOString : Z -> string
}.

Definition newDate (h : t) : Z * t :=
  (clock h (ticks h),
   Make (clock h) (S (ticks h)) (ids h) (drawn h) (toISOString h)).

Definition uuidv4 (h : t) : string * t :=
  (ids h (drawn h),
   Make (clock h) (ticks h) (ids h) (S (drawn h)) (toISOString h)).

End Host.

(** A JavaScript [Error]: [message] and the optional [stack]. *)
Record Error := mkError { message : string; stack : option string }.

(** A primitive JavaScript value. *)
Inductive Primitive :=
| JsUndefined
| JsNull
| JsBoolean (b : bool)
| JsNumber (x : float)
| JsString (s : string).

(** What [throw] may be given, and what a promise may reject with: any
    value.  An object that is thrown is an [Error] object. *)
Inductive Thrown :=
| Raised (e : Error)
| Bare (v : Primitive).

Coercion Raised : Error >-> Thrown.

(** [if (value)]: [undefined], [null], [false], [0], [NaN] and the empty
    string are falsy; every object is truthy. *)
Definition is_truthy (value : Thrown) : bool :=
  match value with
  | Raised _ => true
  | Bare JsUndefined => false
  | Bare JsNull => false
  | Bare (JsBoolean b) => b
  | Bare (JsNumber x) => negb (PrimFloat.eqb x 0 || PrimFloat.is_nan x)
  | Bare (JsString s) => negb (String.eqb s EmptyString)
  end.

(** [value.message] and [value.stack], read as [end] reads them: a
    primitive has neither. *)
Definition message_of (value : Thrown) : option string :=
  match value with
  | Raised e => Some (message e)
  | Bare _ => None
  end.

Definition stack_of (value : Thrown) : option string :=
  match value with
  | Raised e => stack e
  | Bare _ => None
  end.

(** How a call completes: it returns a value or it throws. *)
Inductive Completion (T : Type) : Type :=
| Normal (v : T)
| Throw (e : Thrown).
Arguments Normal {T} v.
Arguments Throw {T} e.

(** [enum Status] of [core/status.ts]. *)
Inductive Status := PASSED | FAILED | BROKEN | SKIPPED | PENDING | RUNNING | UNKNOWN.

#[global] Instance Status_eq_dec : EqDecision Status.
Proof. solve_decision. Defined.

Definition Status_value (s : Status) : string :=
match s with
| PASSED => "passed" | FAILED => "failed" | BROKEN => "broken"
| SKIPPED => "skipped" | PENDING => "pending" | RUNNING => "running"
| UNKNOWN => "unknown"
end.

(** [interface Attachment] of [core/types.ts]. *)
Record Attachment := mkAttachment {
att_id : string;
att_name : string;
att_type : string;
att_extension : option string;
att_content : string;
att_size : Z;
att_timestamp : string
}.

(** ** step.ts *)

Module StepTracker.

(** A reference to a [Step] instance: its index in the heap. *)
Abbreviation ref := nat (only parsing).

(** The fields of [class Step]; [children] holds references. *)
Record Step := mkStep {
  id : string;
  name : string;
  description : option string;
  status : Status;
  startTime : option Z;
  endTime : option Z;
  durationMs : Z;
  error : option string;
  errorTrace : option string;
  attachments : list Attachment;
  children : list ref;
  parameters : gmap string string
}.

(** The method calls made on steps, in order.  This log is ghost state: the
    code does not keep it; it lets a theorem count calls. *)
Inductive Call :=
| CallStart (s : ref)
| CallEnd (s : ref) (err : option Thrown).

(** [currentSteps] is the module-level array; its last element is the
    current step. *)
Record World := mkWorld {
  heap : list Step;
  currentSteps : list ref;
  host : Host.t;
  calls : list Call
}.

Definition set_heap (f : list Step -> list Step) (w : World) : World :=
  mkWorld (f (heap w)) (currentSteps w) (host w) (calls w).
Definition set_currentSteps (f : list ref -> list ref) (w : World) : World :=
  mkWorld (heap w) (f (currentSteps w)) (host w) (calls w).
Definition set_host (h : Host.t) (w : World) : World :=
  mkWorld (heap w) (currentSteps w) h (calls w).
Definition log_call (c : Call) (w : World) : World :=
  mkWorld (heap w) (currentSteps w) (host w) (calls w ++ [c]).

(** Field updates of a step object. *)
Definition started (d : Z) (o : Step) : Step :=
  mkStep (id o) (name o) (description o) RUNNING (Some d) (endTime o)
    (durationMs o) (error o) (errorTrace o) (attachments o) (children o)
    (parameters o).

Definition stopped (d : Z) (o : Step) : Step :=
  mkStep (id o) (name o) (description o) (status o) (startTime o) (Some d)
    (match startTime o with Some st => d - st | None => durationMs o end)
    (error o) (errorTrace o) (attachments o) (children o) (parameters o).

Definition push_child (c : ref) (o : Step) : Step :=
  mkStep (id o) (name o) (description o) (status o) (startTime o) (endTime o)
    (durationMs o) (error o) (errorTrace o) (attachments o)
    (children o ++ [c]) (parameters o).

(** The argument of [end] when [if (error)] holds: the call was given a
    value and the value is truthy. *)
Definition given (err : option Thrown) : option Thrown :=
  match err with
  | Some e => if is_truthy e then Some e else None
  | None => None
  end.

(** [if (error) { ... } else { this.status = Status.PASSED; }] of [end]. *)
Definition settled (err : option Thrown) (o : Step) : Step :=
  match given err with
  | Some e =>
      mkStep (id o) (name o) (description o) FAILED (startTime o) (endTime o)
        (durationMs o) (message_of e) (stack_of e) (attachments o)
        (children o) (parameters o)
  | None =>
      mkStep (id o) (name o) (description o) PASSED (startTime o) (endTime o)
        (durationMs o) (error o) (errorTrace o) (attachments o)
        (children o) (parameters o)
  end.

Definition getCurrentSteps (w : World) : list ref := currentSteps w.

Definition getCurrentStep (w : World) : option ref := last (currentSteps w).

Definition clearSteps (w : World) : World := set_currentSteps (fun _ => []) w.

(** [Array.prototype.indexOf]: the first index holding [x], or [-1]. *)
Fixpoint indexOf (l : list ref) (x : ref) : Z :=
  match l with
  | [] => -1
  | y :: l' =>
      if decide (y = x) then 0
      else let i := indexOf l' x in if i =? -1 then -1 else i + 1
  end.

(** [arr.splice(index, 1)] for an index in range. *)
Definition splice1 (index : Z) (l : list ref) : list ref :=
  delete (Z.to_nat index) l.

(** [new Step(name, description, parameters)]. *)
Definition Step_new (nm : string) (descr : option string)
    (params : option (gmap string string)) (w : World) : ref * World :=
  let '(i, h) := Host.uuidv4 (host w) in
  let o := mkStep i nm descr PENDING None None 0 None None [] []
             (default ∅ params) in
  (length (heap w), set_host h (set_heap (fun hp => hp ++ [o]) w)).

(** [Step.prototype.start]. *)
Definition Step_start (this : ref) (w : World) : World :=
  let w := log_call (CallStart this) w in
  let '(d, h) := Host.newDate (host w) in
  let w := set_host h w in
  let w := set_heap (alter (started d) this) w in
  set_currentSteps (fun st => st ++ [this]) w.

(** [Step.prototype.end]. *)
Definition Step_end (this : ref) (err : option Thrown) (w : World) : World :=
  let w := log_call (CallEnd this err) w in
  let '(d, h) := Host.newDate (host w) in
  let w := set_host h w in
  let w := set_heap (alter (stopped d) this) w in
  let index := indexOf (currentSteps w) this in
  let w := if index >? -1 then set_currentSteps (splice1 index) w else w in
  let w := match getCurrentStep w with
           | Some parent => set_heap (alter (push_child this) parent) w
           | None => w
           end in
  set_heap (alter (settled err) this) w.

(** A promise, seen from the code that chains on it: running it from the
    world in which it settles gives its settlement and the world after. *)
Inductive Settled (T : Type) : Type :=
| Fulfilled (v : T)
| Rejected (e : Thrown).
Arguments Fulfilled {T} v.
Arguments Rejected {T} e.

Definition Promise (T : Type) : Type := World -> Settled T * World.

(** What a callback may return: a plain value, or a [Promise] instance. *)
Inductive Returned (T : Type) : Type :=
| Plain (v : T)
| Async (p : Promise T).
Arguments Plain {T} v.
Arguments Async {T} p.

Definition Callback (T : Type) : Type :=
  World -> Completion (Returned T) * World.

(** [p.then(onFulfilled)] and [p.catch(onRejected)] for handlers that
    return a plain value or throw. *)
Definition then_ {T U : Type} (p : Promise T)
    (onFulfilled : T -> World -> Completion U * World) : Promise U :=
  fun w =>
    match p w with
    | (Fulfilled v, w') =>
        match onFulfilled v w' with
        | (Normal u, w'') => (Fulfilled u, w'')
        | (Throw e, w'') => (Rejected e, w'')
        end
    | (Rejected e, w') => (Rejected e, w')
    end.

Definition catch_ {T : Type} (p : Promise T)
    (onRejected : Thrown -> World -> Completion T * World) : Promise T :=
  fun w =>
    match p w with
    | (Fulfilled v, w') => (Fulfilled v, w')
    | (Rejected e, w') =>
        match onRejected e w' with
        | (Normal u, w'') => (Fulfilled u, w'')
        | (Throw e', w'') => (Rejected e', w'')
        end
    end.

(** [step(name, fn)] and [step(name, description, fn)]: both overloads reach
    the body with a callback, [description] being [undefined] for the
    first. *)
Definition step {T : Type} (nm : string) (descr : option string)
    (callback : Callback T) (w : World) : Completion (Returned T) * World :=
  let '(s, w) := Step_new nm descr None w in
  let w := Step_start s w in
  match callback w with
  | (Normal (Async result), w) =>
      (Normal (Async
         (catch_
            (then_ result (fun value w => (Normal value, Step_end s None w)))
            (fun error w => (Throw error, Step_end s (Some error) w)))),
       w)
  | (Normal (Plain result), w) => (Normal (Plain result), Step_end s None w)
  | (Throw error, w) => (Throw error, Step_end s (Some error) w)
  end.

(** [createStep(name, description)]. *)
Definition createStep (nm : string) (descr : option string) (w : World)
  : ref * World :=
  Step_new nm descr None w.

End StepTracker.

(** ** types.ts *)

(** [interface StepResult]: a tree of step results. *)
Module StepResult.
#[warnings="-register-all"]
Inductive t := Make {
  id : string;
  name : string;
  status : Status;
  startTime : option Z;
  endTime : option Z;
  durationMs : Z;
  error : option string;
  errorTrace : option string;
  attachments : list Attachment;
  children : list t;
  parameters : gmap string string
}.
End StepResult.

(** [interface TestLink]. *)
Inductive LinkType := LINK | ISSUE | TMS.
Record TestLink := mkTestLink {
  link_url : string;
  link_name : string;
  link_type : LinkType
}.

(** [interface TestResult]. *)
Module TestResult.
Record t := Make {
  id : string;
  name : string;
  fullName : string;
  description : option string;
  status : Status;
  startTime : option Z;
  endTime : option Z;
  durationMs : Z;
  errorMessage : option string;
  errorType : option string;
  stackTrace : option string;
  labels : gmap string string;
  links : list TestLink;
  parameters : gmap string string;
  steps : list StepResult.t;
  attachments : list Attachment;
  filePath : option string;
  lineNumber : option Z;
  retryCount : Z;
  isRetry : bool;
  isFlaky : bool;
  flakyReason : option string
}.
End TestResult.

(** [interface TestRunResult].  The counters are JavaScript numbers that only
    ever hold natural numbers; [passRate] is a binary64 float, as in the
    code. *)
Module TestRunResult.
Record t := Make {
  id : string;
  name : string;
  projectName : string;
  environment : string;
  startTime : option Z;
  endTime : option Z;
  durationMs : Z;
  tests : list TestResult.t;
  total : nat;
  passed : nat;
  failed : nat;
  broken : nat;
  skipped : nat;
  passRate : float;
  labels : gmap string string;
  parameters : gmap string string;
  ciBuildId : option string;
  ciBuildUrl : option string;
  branch : option string;
  commitHash : option string
}.

(** [Partial<TestRunResult>], the fields [startRun] reads. *)
Record partial := MakePartial {
  opt_id : option string;
  opt_name : option string;
  opt_projectName : option string;
  opt_environment : option string;
  opt_labels : option (gmap string string);
  opt_parameters : option (gmap string string);
  opt_ciBuildId : option string;
  opt_ciBuildUrl : option string;
  opt_branch : option string;
  opt_commitHash : option string
}.
End TestRunResult.

(** ** config.ts: the configuration object the reporters read *)

Module Config.
Inductive Format := json | html | junit.

#[global] Instance Format_eq_dec : EqDecision Format.
Proof. solve_decision. Defined.

Record APIConfig := MakeAPI {
  api_enabled : bool;
  api_url : string;
  api_key : option string;
  api_timeout : Z;
  api_retryCount : Z;
  api_batchSize : Z
}.

Record LocalConfig := MakeLocal {
  local_enabled : bool;
  local_outputDir : string;
  local_formats : list Format;
  local_cleanOnStart : bool
}.

Record t := Make {
  projectName : string;
  environment : string;
  api : APIConfig;
  local : LocalConfig;
  consoleOutput : bool;
  labels_custom : gmap string string
}.
End Config.

(** ** reporter.ts *)

Module Reporter.

(** JavaScript's [a || b] on an optional string: [undefined] and the empty
    string are falsy. *)
Definition truthy (o : option string) : option string :=
  match o with
  | Some s => if decide (s = EmptyString) then None else Some s
  | None => None
  end.

Definition or_else (o : option string) (d : string) : string :=
  default d (truthy o).

(** *** The sink interface *)

(** [interface BaseReporter]: three callbacks.  A sink acts on a world [W]
    (its own fields, the console, the file system, the network); a callback
    that throws, or whose promise rejects, completes with [Throw]. *)
Record BaseReporter (W : Type) := MakeReporter {
  sink_startRun : TestRunResult.t -> W -> Completion unit * W;
  sink_endRun : TestRunResult.t -> W -> Completion unit * W;
  sink_reportTest : TestResult.t -> W -> Completion unit * W
}.
Arguments MakeReporter {W} _ _ _.
Arguments sink_startRun {W} _ _ _.
Arguments sink_endRun {W} _ _ _.
Arguments sink_reportTest {W} _ _ _.

(** *** JUnitReporter *)

Definition quot : ascii := "034"%char.
Definition dq : string := String quot EmptyString.
Definition nl : string := String "010"%char EmptyString.

(** [str.replace(/c/g, by)] for a one-character pattern. *)
Fixpoint replaceAll (c : ascii) (by_ : string) (str : string) : string :=
  match str with
  | EmptyString => EmptyString
  | String a rest =>
      if Ascii.eqb a c then by_ +:+ replaceAll c by_ rest
      else String a (replaceAll c by_ rest)
  end.

(** The [escape] closure of [generateXml]. *)
Definition escape (str : string) : string :=
  replaceAll quot "&quot;"
    (replaceAll ">" "&gt;"
       (replaceAll "<" "&lt;"
          (replaceAll "&" "&amp;" str))).

(** [`${n}`] for a counter. *)
Definition Number_toString (n : nat) : string :=
  NilEmpty.string_of_uint (Nat.to_uint n).

(** [(ms / 1000).toFixed(3)] for a whole number of milliseconds. *)
Definition toFixed3 (ms : Z) : string :=
  let a := Z.abs ms in
  let r := Z.to_nat (a mod 1000) in
  (if ms <? 0 then "-" else EmptyString)
  +:+ Number_toString (Z.to_nat (a / 1000)) +:+ "."
  +:+ (if (r <? 10)%nat then "00" else if (r <? 100)%nat then "0"
       else EmptyString)
  +:+ Number_toString r.

(** One iteration of the loop of [generateXml] over [run.tests]. *)
Definition testcase (xml : string) (test : TestResult.t) : string :=
  let xml := xml +:+ "  <testcase name=" +:+ dq
               +:+ escape (TestResult.name test) +:+ dq +:+ " " in
  let xml := xml +:+ "classname=" +:+ dq
               +:+ escape (TestResult.fullName test) +:+ dq +:+ " " in
  let xml := xml +:+ "time=" +:+ dq
               +:+ toFixed3 (TestResult.durationMs test) +:+ dq in
  let stack xml :=
    match truthy (TestResult.stackTrace test) with
    | Some st => xml +:+ escape st
    | None => xml
    end in
  match TestResult.status test with
  | PASSED => xml +:+ "/>" +:+ nl
  | FAILED =>
      let xml := xml +:+ ">" +:+ nl in
      let xml := xml +:+ "    <failure message=" +:+ dq
                   +:+ escape (or_else (TestResult.errorMessage test)
                                 "Test failed") +:+ dq +:+ " " in
      let xml := xml +:+ "type=" +:+ dq
                   +:+ escape (or_else (TestResult.errorType test)
                                 "AssertionError") +:+ dq +:+ ">" in
      let xml := stack xml in
      let xml := xml +:+ "</failure>" +:+ nl in
      xml +:+ "  </testcase>" +:+ nl
  | BROKEN =>
      let xml := xml +:+ ">" +:+ nl in
      let xml := xml +:+ "    <error message=" +:+ dq
                   +:+ escape (or_else (TestResult.errorMessage test)
                                 "Test error") +:+ dq +:+ " " in
      let xml := xml +:+ "type=" +:+ dq
                   +:+ escape (or_else (TestResult.errorType test) "Error")
                   +:+ dq +:+ ">" in
      let xml := stack xml in
      let xml := xml +:+ "</error>" +:+ nl in
      xml +:+ "  </testcase>" +:+ nl
  | SKIPPED =>
      let xml := xml +:+ ">" +:+ nl in
      let xml := xml +:+ "    <skipped"
                   +:+ match truthy (TestResult.errorMessage test) with
                       | Some m => " message=" +:+ dq +:+ escape m +:+ dq
                       | None => EmptyString
                       end +:+ "/>" +:+ nl in
      xml +:+ "  </testcase>" +:+ nl
  | _ => xml +:+ "/>" +:+ nl
  end.

(** [JUnitReporter.generateXml]. *)
Definition generateXml (h : Host.t) (run : TestRunResult.t) : string :=
  let xml := "<?xml version=" +:+ dq +:+ "1.0" +:+ dq +:+ " encoding=" +:+ dq
               +:+ "UTF-8" +:+ dq +:+ "?>" +:+ nl in
  let xml := xml +:+ "<testsuite name=" +:+ dq
               +:+ escape (TestRunResult.projectName run) +:+ dq +:+ " " in
  let xml := xml +:+ "tests=" +:+ dq
               +:+ Number_toString (TestRunResult.total run) +:+ dq +:+ " " in
  let xml := xml +:+ "failures=" +:+ dq
               +:+ Number_toString (TestRunResult.failed run) +:+ dq +:+ " " in
  let xml := xml +:+ "errors=" +:+ dq
               +:+ Number_toString (TestRunResult.broken run) +:+ dq +:+ " " in
  let xml := xml +:+ "skipped=" +:+ dq
               +:+ Number_toString (TestRunResult.skipped run) +:+ dq +:+ " " in
  let xml := xml +:+ "time=" +:+ dq
               +:+ toFixed3 (TestRunResult.durationMs run) +:+ dq +:+ " " in
  let xml := xml +:+ "timestamp=" +:+ dq
               +:+ match TestRunResult.startTime run with
                   | Some d => or_else (Some (Host.toISOString h d)) EmptyString
                   | None => EmptyString
                   end +:+ dq +:+ ">" +:+ nl in
  let xml := fold_left testcase (TestRunResult.tests run) xml in
  xml +:+ "</testsuite>" +:+ nl.

(** *** Paths and the file system *)

(** [String.prototype.split('/')]. *)
Fixpoint split_slash (s : string) : list string :=
  match s with
  | EmptyString => [EmptyString]
  | String c rest =>
      if Ascii.eqb c "/" then EmptyString :: split_slash rest
      else match split_slash rest with
           | x :: xs => String c x :: xs
           | [] => [String c EmptyString]
           end
  end.

(** [segments.join('/')]. *)
Fixpoint join_slash (segments : list string) : string :=
  match segments with
  | [] => EmptyString
  | seg :: rest =>
      match rest with
      | [] => seg
      | _ :: _ => seg +:+ "/" +:+ join_slash rest
      end
  end.

(** [normalizeString] of Node's [path] module (POSIX), on the segments of a
    path: empty segments and [.] are dropped, and [..] removes the segment
    before it, or is kept when there is none to remove and the path is
    relative.  [res] holds the segments kept so far, the last one first. *)
Fixpoint normalizeSegments (allowAboveRoot : bool) (segments res : list string)
  : list string :=
  match segments with
  | [] => rev res
  | seg :: rest =>
      if String.eqb seg EmptyString || String.eqb seg "."
      then normalizeSegments allowAboveRoot rest res
      else if String.eqb seg ".."
      then match res with
           | kept :: res' =>
               if String.eqb kept ".."
               then normalizeSegments allowAboveRoot rest (seg :: res)
               else normalizeSegments allowAboveRoot rest res'
           | [] =>
               if allowAboveRoot
               then normalizeSegments allowAboveRoot rest [seg]
               else normalizeSegments allowAboveRoot rest []
           end
      else normalizeSegments allowAboveRoot rest (seg :: res)
  end.

Definition isAbsolute (path : string) : bool :=
  match path with
  | String c _ => Ascii.eqb c "/"
  | EmptyString => false
  end.

Fixpoint trailingSeparator (path : string) : bool :=
  match path with
  | EmptyString => false
  | String c EmptyString => Ascii.eqb c "/"
  | String _ rest => trailingSeparator rest
  end.

(** A path as the file system resolves it: whether it starts at the root,
    and its segments; a relative path starts at the working directory. *)
Definition locate (path : string) : bool * list string :=
  (isAbsolute path,
   normalizeSegments (negb (isAbsolute path)) (split_slash path) []).

(** The name under which the file system holds a located path: [/] for the
    root and [.] for the working directory. *)
Definition render (loc : bool * list string) : string :=
  match loc with
  | (true, segments) => "/" +:+ join_slash segments
  | (false, []) => "."
  | (false, segments) => join_slash segments
  end.

(** [path.normalize(path)]. *)
Definition normalize (path : string) : string :=
  match path with
  | EmptyString => "."
  | _ =>
      match locate path with
      | (true, []) => "/"
      | (false, []) => if trailingSeparator path then "./" else "."
      | loc =>
          render loc +:+ (if trailingSeparator path then "/" else EmptyString)
      end
  end.

(** [path.join(dir, file)]: the arguments that are not empty, joined by [/]
    and normalized. *)
Definition path_join (dir file : string) : string :=
  match dir, file with
  | EmptyString, EmptyString => "."
  | EmptyString, _ => normalize file
  | _, EmptyString => normalize dir
  | _, _ => normalize (dir +:+ "/" +:+ file)
  end.

(** The directory that holds a located path. *)
Definition parent (loc : bool * list string) : bool * list string :=
  match loc with
  | (true, []) => (true, [])
  | (false, []) => (false, [".."%string])
  | (abs, segments) =>
      if bool_decide (last segments = Some ".."%string)
      then (abs, segments ++ [".."%string])
      else (abs, removelast segments)
  end.

(** The directories on the way to a located path, the path included,
    outermost first. *)
Definition ancestors (loc : bool * list string) : list string :=
  map (fun n => render (fst loc, take n (snd loc)))
    (seq 1 (length (snd loc))).

(** The file system as the reporters use it.  [files] and [dirs] are keyed
    by the rendered, resolved path; the root, the working directory and the
    directories above it ([..], [../..], ...) always exist; on a file system
    that [refuses_writes], creating a file or a directory fails with
    [EACCES]. *)
Record FileSystem := mkFS {
  files : gmap string string;
  dirs : gset string;
  refuses_writes : bool
}.

Definition is_directory (name : string) (fs : FileSystem) : bool :=
  String.eqb name "." || String.eqb name "/"
  || forallb (String.eqb "..") (split_slash name)
  || bool_decide (name ∈ dirs fs).

Definition is_file (name : string) (fs : FileSystem) : bool :=
  bool_decide (is_Some (files fs !! name)).

(** [fs.existsSync(path)]. *)
Definition existsSync (path : string) (fs : FileSystem) : bool :=
  match path with
  | EmptyString => false
  | _ =>
      is_directory (render (locate path)) fs
      || (is_file (render (locate path)) fs && negb (trailingSeparator path))
  end.

(** [fs.mkdirSync(path, { recursive: true })]. *)
Definition mkdirSync (path : string) (fs : FileSystem)
  : Completion unit * FileSystem :=
  match path with
  | EmptyString =>
      (Throw (mkError "ENOENT: no such file or directory" None), fs)
  | _ =>
      let wanted := ancestors (locate path) in
      if existsb (fun name => is_file name fs) wanted
      then (Throw (mkError (if is_file (render (locate path)) fs
                            then "EEXIST: file already exists"
                            else "ENOTDIR: not a directory") None), fs)
      else if forallb (fun name => is_directory name fs) wanted
      then (Normal tt, fs)
      else if refuses_writes fs
      then (Throw (mkError "EACCES: permission denied" None), fs)
      else (Normal tt,
            mkFS (files fs) (list_to_set wanted ∪ dirs fs)
              (refuses_writes fs))
  end.

(** [fs.writeFileSync(path, data)]. *)
Definition writeFileSync (path data : string) (fs : FileSystem)
  : Completion unit * FileSystem :=
  match path with
  | EmptyString =>
      (Throw (mkError "ENOENT: no such file or directory" None), fs)
  | _ =>
      let name := render (locate path) in
      let holder := render (parent (locate path)) in
      if negb (is_directory holder fs)
      then (Throw (mkError (if is_file holder fs
                            then "ENOTDIR: not a directory"
                            else "ENOENT: no such file or directory") None),
            fs)
      else if is_directory name fs || trailingSeparator path
      then (Throw (mkError "EISDIR: illegal operation on a directory" None),
            fs)
      else if refuses_writes fs
      then (Throw (mkError "EACCES: permission denied" None), fs)
      else (Normal tt,
            mkFS (<[name := data]> (files fs)) (dirs fs) (refuses_writes fs))
  end.

Module JUnitReporter.

Definition outputDir (config : Config.t) : string :=
  Config.local_outputDir (Config.local config).

Definition startRun (config : Config.t) (_run : TestRunResult.t)
    (fs : FileSystem) : Completion unit * FileSystem :=
  if negb (existsSync (outputDir config) fs)
  then mkdirSync (outputDir config) fs
  else (Normal tt, fs).

Definition endRun (config : Config.t) (h : Host.t) (run : TestRunResult.t)
    (fs : FileSystem) : Completion unit * FileSystem :=
  if negb (Config.local_enabled (Config.local config))
     || negb (bool_decide (Config.junit ∈
                             Config.local_formats (Config.local config)))
  then (Normal tt, fs)
  else
    let xml := generateXml h run in
    let junitFile := path_join (outputDir config) "junit.xml" in
    writeFileSync junitFile xml fs.

Definition reportTest (_test : TestResult.t) (fs : FileSystem)
  : Completion unit * FileSystem :=
  (Normal tt, fs).

Definition sink (config : Config.t) (h : Host.t) : BaseReporter FileSystem :=
  MakeReporter (startRun config) (endRun config h) reportTest.

End JUnitReporter.

(** *** APIReporter *)

Module APIReporter.

(** One element of the array posted by [flushBatch]. *)
Record ResultItem := MakeItem {
  item_id : string;
  item_name : string;
  item_full_name : string;
  item_status : Status;
  item_duration_ms : Z;
  item_start_time : option string;
  item_end_time : option string;
  item_file_path : option string;
  item_error_message : option string;
  item_stack_trace : option string;
  item_error_type : option string;
  item_attachments : list Attachment
}.

(** The three request bodies. *)
Inductive Body :=
| RunRegistration (id name project_name environment : string)
    (start_time : option string) (labels : gmap string string)
    (ci_build_id branch commit_hash : option string)
| Results (items : list ResultItem)
| Finalize (end_time : option string) (duration_ms : Z)
    (total passed failed broken skipped : nat) (status : string).

Inductive Method := POST | PATCH.

Record Request := MakeRequest {
  method : Method;
  url : string;
  body : Body;
  headers : list (string * string);
  timeout : Z
}.

(** The fields of the reporter ([batch], [currentRun]) and the network:
    [requests] are the requests sent so far, and the [n]-th request fails
    (axios rejects: time-out, 4xx, 5xx, no connection) when [fails n]. *)
Record t := Make {
  batch : list TestResult.t;
  currentRun : option TestRunResult.t;
  requests : list Request;
  fails : nat -> bool
}.

Definition set_batch (b : list TestResult.t) (st : t) : t :=
  Make b (currentRun st) (requests st) (fails st).
Definition set_currentRun (r : option TestRunResult.t) (st : t) : t :=
  Make (batch st) r (requests st) (fails st).

(** [await axios.post(...)] and [await axios.patch(...)]. *)
Definition axios (r : Request) (st : t) : Completion unit * t :=
  let st' := Make (batch st) (currentRun st) (requests st ++ [r]) (fails st) in
  if fails st (length (requests st))
  then (Throw (mkError "Request failed" None), st')
  else (Normal tt, st').

Definition api_headers (config : Config.t) : list (string * string) :=
  [("Content-Type", "application/json");
   ("X-API-Key", or_else (Config.api_key (Config.api config)) EmptyString);
   ("X-Project", Config.projectName config)]%string.

Definition results_headers (config : Config.t) : list (string * string) :=
  [("Content-Type", "application/json");
   ("X-API-Key", or_else (Config.api_key (Config.api config)) EmptyString)]%string.

Definition startRun (config : Config.t) (h : Host.t) (run : TestRunResult.t)
    (st : t) : Completion unit * t :=
  if negb (Config.api_enabled (Config.api config)) then (Normal tt, st)
  else
    let st := set_currentRun (Some run) st in
    let st := set_batch [] st in
    let url := Config.api_url (Config.api config) +:+ "/api/v1/runs" in
    let response :=
      axios (MakeRequest POST url
               (RunRegistration (TestRunResult.id run) (TestRunResult.name run)
                  (TestRunResult.projectName run)
                  (TestRunResult.environment run)
                  (Host.toISOString h <$> TestRunResult.startTime run)
                  (TestRunResult.labels run) (TestRunResult.ciBuildId run)
                  (TestRunResult.branch run) (TestRunResult.commitHash run))
               (api_headers config)
               (Config.api_timeout (Config.api config))) st in
    match response with
    | (Normal _, st) => (Normal tt, st)
    | (Throw _error, st) => (Normal tt, st)
    end.

Definition item_of (h : Host.t) (t : TestResult.t) : ResultItem :=
  MakeItem (TestResult.id t) (TestResult.name t) (TestResult.fullName t)
    (TestResult.status t) (TestResult.durationMs t)
    (Host.toISOString h <$> TestResult.startTime t)
    (Host.toISOString h <$> TestResult.endTime t)
    (TestResult.filePath t) (TestResult.errorMessage t)
    (TestResult.stackTrace t) (TestResult.errorType t)
    (TestResult.attachments t).

(** [flushBatch]: [try { post } catch { warn } finally { this.batch = [] }]. *)
Definition flushBatch (config : Config.t) (h : Host.t) (st : t)
  : Completion unit * t :=
  match batch st, currentRun st with
  | [], _ => (Normal tt, st)
  | _ :: _, None => (Normal tt, st)
  | _ :: _, Some run =>
      let response :=
        axios (MakeRequest POST
                 (Config.api_url (Config.api config) +:+ "/api/v1/runs/"
                  +:+ TestRunResult.id run +:+ "/results")
                 (Results (map (item_of h) (batch st)))
                 (results_headers config)
                 (Config.api_timeout (Config.api config))) st in
      match response with
      | (Normal _, st) => (Normal tt, set_batch [] st)
      | (Throw _error, st) => (Normal tt, set_batch [] st)
      end
  end.

Definition reportTest (config : Config.t) (h : Host.t) (test : TestResult.t)
    (st : t) : Completion unit * t :=
  if negb (Config.api_enabled (Config.api config)) then (Normal tt, st)
  else
    let st := set_batch (batch st ++ [test]) st in
    if Z.of_nat (length (batch st)) >=? Config.api_batchSize (Config.api config)
    then flushBatch config h st
    else (Normal tt, st).

(** [endRun]; the pause after the flush ([setTimeout], 1500 ms) changes no
    state and is left out. *)
Definition endRun (config : Config.t) (h : Host.t) (run : TestRunResult.t)
    (st : t) : Completion unit * t :=
  if negb (Config.api_enabled (Config.api config)) then (Normal tt, st)
  else
    let flushed :=
      if (0 <? length (batch st))%nat then flushBatch config h st
      else (Normal tt, st) in
    match flushed with
    | (Throw _error, st) => (Normal tt, st)
    | (Normal _, st) =>
        let patchData :=
          Finalize (Host.toISOString h <$> TestRunResult.endTime run)
            (TestRunResult.durationMs run) (TestRunResult.total run)
            (TestRunResult.passed run) (TestRunResult.failed run)
            (TestRunResult.broken run) (TestRunResult.skipped run)
            "completed" in
        let response :=
          axios (MakeRequest PATCH
                   (Config.api_url (Config.api config) +:+ "/api/v1/runs/"
                    +:+ TestRunResult.id run)
                   patchData (api_headers config)
                   (Config.api_timeout (Config.api config))) st in
        match response with
        | (Normal _, st) => (Normal tt, st)
        | (Throw _error, st) => (Normal tt, st)
        end
    end.

Definition sink (config : Config.t) (h : Host.t) : BaseReporter t :=
  MakeReporter (startRun config h) (endRun config h) (reportTest config h).

End APIReporter.

(** *** QAgenticReporter *)

Module QAgenticReporter.

(** What the orchestrator itself writes to the console. *)
Inductive ConsoleEntry :=
| console_log (msg : string) (data : list (string * nat))
| console_warn (msg : string).

(** A callback of the sink interface with its argument. *)
Inductive Event :=
| StartRun (run : TestRunResult.t)
| EndRun (run : TestRunResult.t)
| ReportTest (test : TestResult.t).

(** The fields [config], [reporters] and [currentRun]; the world of the
    sinks, the host and the console; and [invoked], the callbacks invoked so
    far as (index of the sink in [reporters], event) pairs.  [invoked] is
    ghost state: the code does not keep it. *)
Record t (W : Type) := Make {
  config : Config.t;
  reporters : list (BaseReporter W);
  currentRun : option TestRunResult.t;
  world : W;
  host : Host.t;
  console : list ConsoleEntry;
  invoked : list (nat * Event)
}.
Arguments Make {W} _ _ _ _ _ _ _.
Arguments config {W} _.
Arguments reporters {W} _.
Arguments currentRun {W} _.
Arguments world {W} _.
Arguments host {W} _.
Arguments console {W} _.
Arguments invoked {W} _.

Section Methods.
Context {W : Type}.

Definition set_currentRun (r : option TestRunResult.t) (o : t W) : t W :=
  Make (config o) (reporters o) r (world o) (host o) (console o) (invoked o).
Definition set_host (h : Host.t) (o : t W) : t W :=
  Make (config o) (reporters o) (currentRun o) (world o) h (console o)
    (invoked o).
Definition set_sinks (w : W) (log : list (nat * Event)) (o : t W) : t W :=
  Make (config o) (reporters o) (currentRun o) w (host o) (console o) log.
Definition print (e : ConsoleEntry) (o : t W) : t W :=
  Make (config o) (reporters o) (currentRun o) (world o) (host o)
    (console o ++ [e]) (invoked o).

(** [for (const reporter of this.reporters) { await reporter.m(arg); }]:
    the sinks are called in order, each awaited before the next, and the loop
    has no [try]: the first callback that throws ends it.  [i] is the index
    of the head of [rs] in [this.reporters]. *)
Fixpoint fan_out (call : BaseReporter W -> W -> Completion unit * W)
    (ev : Event) (i : nat) (rs : list (BaseReporter W)) (w : W)
    (log : list (nat * Event)) : Completion unit * W * list (nat * Event) :=
  match rs with
  | [] => (Normal tt, w, log)
  | reporter :: rs' =>
      match call reporter w with
      | (Normal _, w') => fan_out call ev (S i) rs' w' (log ++ [(i, ev)])
      | (Throw e, w') => (Throw e, w', log ++ [(i, ev)])
      end
  end.

Definition for_reporters (call : BaseReporter W -> W -> Completion unit * W)
    (ev : Event) (o : t W) : Completion unit * t W :=
  let '(c, w, log) := fan_out call ev 0 (reporters o) (world o) (invoked o) in
  (c, set_sinks w log o).

(** [string.replace(/[:.]/g, '')]. *)
Fixpoint strip_colons_dots (s : string) : string :=
  match s with
  | EmptyString => EmptyString
  | String a rest =>
      if Ascii.eqb a ":" || Ascii.eqb a "." then strip_colons_dots rest
      else String a (strip_colons_dots rest)
  end.

(** The object literal that [startRun] assigns to [this.currentRun], its
    fields evaluated in order: [uuidv4()] only when [options.id] is falsy,
    [new Date()] for the default name only when [options.name] is falsy, then
    [new Date()] for [startTime]. *)
Definition new_run (options : TestRunResult.partial) (o : t W)
  : TestRunResult.t * Host.t :=
  let '(id, h) :=
    match truthy (TestRunResult.opt_id options) with
    | Some id => (id, host o)
    | None => Host.uuidv4 (host o)
    end in
  let '(name, h) :=
    match truthy (TestRunResult.opt_name options) with
    | Some name => (name, h)
    | None =>
        let '(d, h) := Host.newDate h in
        ("run_" +:+ strip_colons_dots (Host.toISOString h d), h)
    end in
  let '(startTime, h) := Host.newDate h in
  (TestRunResult.Make id name
     (or_else (TestRunResult.opt_projectName options)
        (Config.projectName (config o)))
     (or_else (TestRunResult.opt_environment options)
        (Config.environment (config o)))
     (Some startTime) None 0 [] 0 0 0 0 0 0%float
     (default ∅ (TestRunResult.opt_labels options)
      ∪ Config.labels_custom (config o))
     (default ∅ (TestRunResult.opt_parameters options))
     (TestRunResult.opt_ciBuildId options)
     (TestRunResult.opt_ciBuildUrl options)
     (TestRunResult.opt_branch options)
     (TestRunResult.opt_commitHash options),
   h).

(** [startRun(options)]. *)
Definition startRun (options : TestRunResult.partial) (o : t W)
  : Completion TestRunResult.t * t W :=
  let '(run, h) := new_run options o in
  let o := set_host h (set_currentRun (Some run) o) in
  match for_reporters (fun reporter => sink_startRun reporter run)
          (StartRun run) o with
  | (Normal _, o) => (Normal run, o)
  | (Throw e, o) => (Throw e, o)
  end.

(** A JavaScript number holding a counter, as a float. *)
Definition Number (n : nat) : float :=
  PrimFloat.of_uint63 (Uint63.of_Z (Z.of_nat n)).

(** The three assignments at the head of [endRun]. *)
Definition seal (endTime : Z) (run : TestRunResult.t) : TestRunResult.t :=
  TestRunResult.Make (TestRunResult.id run) (TestRunResult.name run)
    (TestRunResult.projectName run) (TestRunResult.environment run)
    (TestRunResult.startTime run) (Some endTime)
    (endTime - default 0 (TestRunResult.startTime run))
    (TestRunResult.tests run) (TestRunResult.total run)
    (TestRunResult.passed run) (TestRunResult.failed run)
    (TestRunResult.broken run) (TestRunResult.skipped run)
    (if (0 <? TestRunResult.total run)%nat
     then (Number (TestRunResult.passed run)
           / Number (TestRunResult.total run) * 100)%float
     else 0%float)
    (TestRunResult.labels run) (TestRunResult.parameters run)
    (TestRunResult.ciBuildId run) (TestRunResult.ciBuildUrl run)
    (TestRunResult.branch run) (TestRunResult.commitHash run).

(** [endRun()]; [None] is [null]. *)
Definition endRun (o : t W) : Completion (option TestRunResult.t) * t W :=
  match currentRun o with
  | None => (Normal None, o)
  | Some run =>
      let '(endTime, h) := Host.newDate (host o) in
      let run := seal endTime run in
      let o := set_host h (set_currentRun (Some run) o) in
      match for_reporters (fun reporter => sink_endRun reporter run)
              (EndRun run) o with
      | (Normal _, o) => (Normal (Some run), set_currentRun None o)
      | (Throw e, o) => (Throw e, o)
      end
  end.

(** [tests.push(test); total++; switch (test.status) { ... }]: the [switch]
    has the four cases below and no [default]. *)
Definition tally (test : TestResult.t) (run : TestRunResult.t)
  : TestRunResult.t :=
  let tests := TestRunResult.tests run ++ [test] in
  let total := S (TestRunResult.total run) in
  let '(passed, failed, broken, skipped) :=
    match TestResult.status test with
    | PASSED =>
        (S (TestRunResult.passed run), TestRunResult.failed run,
         TestRunResult.broken run, TestRunResult.skipped run)
    | FAILED =>
        (TestRunResult.passed run, S (TestRunResult.failed run),
         TestRunResult.broken run, TestRunResult.skipped run)
    | BROKEN =>
        (TestRunResult.passed run, TestRunResult.failed run,
         S (TestRunResult.broken run), TestRunResult.skipped run)
    | SKIPPED =>
        (TestRunResult.passed run, TestRunResult.failed run,
         TestRunResult.broken run, S (TestRunResult.skipped run))
    | _ =>
        (TestRunResult.passed run, TestRunResult.failed run,
         TestRunResult.broken run, TestRunResult.skipped run)
    end in
  TestRunResult.Make (TestRunResult.id run) (TestRunResult.name run)
    (TestRunResult.projectName run) (TestRunResult.environment run)
    (TestRunResult.startTime run) (TestRunResult.endTime run)
    (TestRunResult.durationMs run) tests total passed failed broken skipped
    (TestRunResult.passRate run)
    (TestRunResult.labels run) (TestRunResult.parameters run)
    (TestRunResult.ciBuildId run) (TestRunResult.ciBuildUrl run)
    (TestRunResult.branch run) (TestRunResult.commitHash run).

(** [reportTest(test)]. *)
Definition reportTest (test : TestResult.t) (o : t W)
  : Completion unit * t W :=
  match currentRun o with
  | None =>
      (Normal tt,
       print (console_warn "[QAgenticReporter] No active run to report test") o)
  | Some run =>
      let run := tally test run in
      let o := set_currentRun (Some run) o in
      let o := print (console_log "[QAgenticReporter] Test counts:"
                        [("total", TestRunResult.total run);
                         ("passed", TestRunResult.passed run);
                         ("failed", TestRunResult.failed run);
                         ("broken", TestRunResult.broken run);
                         ("skipped", TestRunResult.skipped run)]%string) o in
      for_reporters (fun reporter => sink_reportTest reporter test)
        (ReportTest test) o
  end.

Definition getCurrentRun (o : t W) : option TestRunResult.t := currentRun o.

End Methods.

End QAgenticReporter.

End Reporter.

(** ** Reading a JUnit report back *)

(** The reader's side of the round trip of the counters: a parser for XML
    documents.  It is not code of the repository; it stands for the
    consumer of [junit.xml].  It follows XML 1.0 on the documents it
    accepts, and accepts only part of XML: an optional XML declaration, one
    document element, elements with double-quoted attributes, character
    data and the five predefined entities; no comments, processing
    instructions, CDATA sections, document type or character references,
    names in ASCII only, and no [>] in character data.  It rejects every
    character that the production [Char] excludes, a [<] in an attribute
    value, a repeated attribute, an end tag that does not match, and
    anything after the document element but white space.  A character is a
    code point below 256. *)
Module XmlReader.

(** An element: its name, its attributes in document order, their values
    decoded and normalized, and its child elements. *)
#[warnings="-register-all"]
Inductive Element := mkElement {
  tag : string;
  attributes : list (string * string);
  children : list Element
}.

Inductive Mode :=
| Start
| Misc
| Open0
| Open
| Target (t : string)
| TagName (n : string)
| InTag
| AttName (k : string)
| AttEq (k : string)
| AttValue (k v : string)
| AttRef (k v r : string)
| AfterValue
| EmptyTag
| DeclEnd
| Content
| Ref (r : string)
| CloseName (n : string)
| CloseEnd (n : string).

(** [decl]: the tag being read is the XML declaration; [name] and [attrs]:
    the tag being read; [stack]: the open elements, the innermost first;
    [root]: the document element, once it is closed. *)
Record State := mkState {
  mode : Mode;
  decl : bool;
  name : string;
  attrs : list (string * string);
  stack : list Element;
  root : option Element
}.

Definition snoc (s : string) (c : ascii) : string :=
  s +:+ String c EmptyString.

Definition eqc (c : ascii) (d : ascii) : bool := Ascii.eqb c d.

(** The productions [S], [Char], [NameStartChar] and [NameChar]. *)
Definition is_space (c : ascii) : bool :=
  eqc c " " || eqc c "009" || eqc c "010" || eqc c "013".

Definition is_char (c : ascii) : bool :=
  is_space c || (32 <=? nat_of_ascii c)%nat.

Definition is_letter (c : ascii) : bool :=
  let n := nat_of_ascii c in
  ((65 <=? n)%nat && (n <=? 90)%nat) || ((97 <=? n)%nat && (n <=? 122)%nat).

Definition is_digit (c : ascii) : bool :=
  let n := nat_of_ascii c in (48 <=? n)%nat && (n <=? 57)%nat.

Definition is_name_start (c : ascii) : bool :=
  is_letter c || eqc c "_" || eqc c ":".

Definition is_name_char (c : ascii) : bool :=
  is_name_start c || is_digit c || eqc c "-" || eqc c ".".

(** The predefined entities. *)
Definition entity (r : string) : option string :=
  if String.eqb r "amp" then Some "&"%string
  else if String.eqb r "lt" then Some "<"%string
  else if String.eqb r "gt" then Some ">"%string
  else if String.eqb r "quot" then Some Reporter.dq
  else if String.eqb r "apos" then Some "'"%string
  else None.

(** Attribute-value normalization: a white space character is read as a
    blank. *)
Definition blank (c : ascii) : ascii := if is_space c then " "%char else c.

Definition has (k : string) (l : list (string * string)) : bool :=
  existsb (fun kv => String.eqb (fst kv) k) l.

(** The pseudo-attributes of an XML declaration this reader accepts. *)
Definition pair_is (kv : string * string) (k v : string) : bool :=
  String.eqb (fst kv) k && String.eqb (snd kv) v.

Definition declared (l : list (string * string)) : bool :=
  match l with
  | [a] => pair_is a "version" "1.0"
  | [a; b] => pair_is a "version" "1.0" && pair_is b "encoding" "UTF-8"
  | _ => false
  end.

(** The element [e] is complete: it is the document element, or the last
    child so far of the element that is open around it. *)
Definition complete (e : Element) (open : list Element)
    (root : option Element) : option State :=
  match open with
  | [] =>
      match root with
      | None => Some (mkState Misc false EmptyString [] [] (Some e))
      | Some _ => None
      end
  | parent :: rest =>
      Some (mkState Content false EmptyString []
              (mkElement (tag parent) (attributes parent)
                 (children parent ++ [e]) :: rest)
              root)
  end.

(** The end of a start tag, and an end tag. *)
Definition open_element (st : State) : option State :=
  Some (mkState Content false EmptyString []
          (mkElement (name st) (attrs st) [] :: stack st) (root st)).

Definition close (n : string) (st : State) : option State :=
  match stack st with
  | top :: rest =>
      if String.eqb (tag top) n then complete top rest (root st) else None
  | [] => None
  end.

Definition go (m : Mode) (st : State) : option State :=
  Some (mkState m (decl st) (name st) (attrs st) (stack st) (root st)).

Definition feed (st : State) (c : ascii) : option State :=
  match mode st with
  | Start =>
      if eqc c "<" then go Open0 st
      else if is_space c then go Misc st
      else None
  | Misc =>
      if eqc c "<" then go Open st
      else if is_space c then go Misc st
      else None
  | Open0 =>
      if eqc c "?" then go (Target EmptyString) st
      else if is_name_start c then go (TagName (String c EmptyString)) st
      else None
  | Open =>
      if eqc c "/" then go (CloseName EmptyString) st
      else if is_name_start c then go (TagName (String c EmptyString)) st
      else None
  | Target t =>
      if is_space c
      then if String.eqb t "xml"
           then Some (mkState InTag true "?xml" [] (stack st) (root st))
           else None
      else if is_name_char c then go (Target (snoc t c)) st
      else None
  | TagName n =>
      if is_name_char c then go (TagName (snoc n c)) st
      else if is_space c
      then Some (mkState InTag false n [] (stack st) (root st))
      else if eqc c ">"
      then open_element (mkState InTag false n [] (stack st) (root st))
      else if eqc c "/"
      then Some (mkState EmptyTag false n [] (stack st) (root st))
      else None
  | InTag =>
      if is_space c then go InTag st
      else if is_name_start c then go (AttName (String c EmptyString)) st
      else if decl st
      then if eqc c "?" then go DeclEnd st else None
      else if eqc c ">" then open_element st
      else if eqc c "/" then go EmptyTag st
      else None
  | AttName k =>
      if is_name_char c then go (AttName (snoc k c)) st
      else if eqc c "=" then go (AttEq k) st
      else None
  | AttEq k =>
      if eqc c Reporter.quot then go (AttValue k EmptyString) st else None
  | AttValue k v =>
      if eqc c Reporter.quot
      then if has k (attrs st) then None
           else Some (mkState AfterValue (decl st) (name st)
                        (attrs st ++ [(k, v)]) (stack st) (root st))
      else if eqc c "<" then None
      else if eqc c "&" then go (AttRef k v EmptyString) st
      else if is_char c then go (AttValue k (snoc v (blank c))) st
      else None
  | AttRef k v r =>
      if eqc c ";"
      then match entity r with
           | Some text => go (AttValue k (v +:+ text)) st
           | None => None
           end
      else if is_letter c then go (AttRef k v (snoc r c)) st
      else None
  | AfterValue =>
      if is_space c then go InTag st
      else if decl st
      then if eqc c "?" then go DeclEnd st else None
      else if eqc c ">" then open_element st
      else if eqc c "/" then go EmptyTag st
      else None
  | EmptyTag =>
      if eqc c ">"
      then complete (mkElement (name st) (attrs st) []) (stack st) (root st)
      else None
  | DeclEnd =>
      if eqc c ">"
      then if declared (attrs st)
           then Some (mkState Misc false EmptyString [] (stack st) (root st))
           else None
      else None
  | Content =>
      if eqc c "<" then go Open st
      else if eqc c "&" then go (Ref EmptyString) st
      else if eqc c ">" then None
      else if is_char c then go Content st
      else None
  | Ref r =>
      if eqc c ";"
      then match entity r with
           | Some _ => go Content st
           | None => None
           end
      else if is_letter c then go (Ref (snoc r c)) st
      else None
  | CloseName n =>
      if is_name_char c then go (CloseName (snoc n c)) st
      else if is_space c then go (CloseEnd n) st
      else if eqc c ">" then close n st
      else None
  | CloseEnd n =>
      if is_space c then go (CloseEnd n) st
      else if eqc c ">" then close n st
      else None
  end.

Fixpoint read (xml : string) (st : State) : option State :=
  match xml with
  | EmptyString => Some st
  | String c rest =>
      match feed st c with
      | Some st' => read rest st'
      | None => None
      end
  end.

Definition initial : State := mkState Start false EmptyString [] [] None.

(** The document element of a document, when the document is accepted. *)
Definition parse (xml : string) : option Element :=
  match read xml initial with
  | Some st =>
      match mode st, stack st with
      | Misc, [] => root st
      | _, _ => None
      end
  | None => None
  end.

Fixpoint assoc (key : string) (l : list (string * string)) : option string :=
  match l with
  | [] => None
  | (k, v) :: l' => if String.eqb k key then Some v else assoc key l'
  end.

(** The attribute [key] of an element, read as a decimal number. *)
Definition counter (key : string) (e : Element) : option nat :=
  match assoc key (attributes e) with
  | Some v => Nat.of_uint <$> NilEmpty.uint_of_string v
  | None => None
  end.

End XmlReader.

(** ** Sample data *)

Module Samples.
Import Reporter.

Definition a_host : Host.t :=
  Host.Make (fun n => 1000 * Z.of_nat n) 0 (fun _ => "run-1") 0
    (fun _ => "2024-01-01T00:00:00.000Z").

Definition a_config : Config.t :=
  Config.Make "P" "local"
    (Config.MakeAPI true "http://localhost:8080" None 30000 3 2)
    (Config.MakeLocal true "./qagentic-results" [Config.json; Config.junit]
       true)
    true ∅.

Definition no_options : TestRunResult.partial :=
  TestRunResult.MakePartial None None None None None None None None None None.

Definition a_test (nm : string) (st : Status) : TestResult.t :=
  TestResult.Make nm nm nm None st None None 5 None None None ∅ [] ∅ [] []
    None None 0 false false None.

Definition a_run : TestRunResult.t :=
  TestRunResult.Make "run-1" "nightly" "P" "local" (Some 0) None 0 [] 0 0 0 0
    0 0%float ∅ ∅ None None None None.

(** An orchestrator without sinks, idle. *)
Definition idle : QAgenticReporter.t unit :=
  QAgenticReporter.Make a_config [] None tt a_host [] [].

(** A sink whose [reportTest] and [endRun] throw, and a sink that counts the
    callbacks it receives. *)
Definition boom : Error := mkError "sink failed" None.

Definition throwing_sink : BaseReporter nat :=
  MakeReporter (fun _ n => (Normal tt, n))
    (fun _ n => (Throw boom, n)) (fun _ n => (Throw boom, n)).

Definition counting_sink : BaseReporter nat :=
  MakeReporter (fun _ n => (Normal tt, S n))
    (fun _ n => (Normal tt, S n)) (fun _ n => (Normal tt, S n)).

Definition fragile : QAgenticReporter.t nat :=
  QAgenticReporter.Make a_config [throwing_sink; counting_sink] None 0%nat
    a_host [] [].

Definition robust : QAgenticReporter.t nat :=
  QAgenticReporter.Make a_config [counting_sink; counting_sink] None 0%nat
    a_host [] [].

(** A sink of one world as a sink of a pair of worlds. *)
Definition on_fst {A B : Type} (r : BaseReporter A) : BaseReporter (A * B) :=
  MakeReporter
    (fun run w => let '(c, a) := sink_startRun r run (fst w) in (c, (a, snd w)))
    (fun run w => let '(c, a) := sink_endRun r run (fst w) in (c, (a, snd w)))
    (fun test w =>
       let '(c, a) := sink_reportTest r test (fst w) in (c, (a, snd w))).

Definition on_snd {A B : Type} (r : BaseReporter B) : BaseReporter (A * B) :=
  MakeReporter
    (fun run w => let '(c, b) := sink_startRun r run (snd w) in (c, (fst w, b)))
    (fun run w => let '(c, b) := sink_endRun r run (snd w) in (c, (fst w, b)))
    (fun test w =>
       let '(c, b) := sink_reportTest r test (snd w) in (c, (fst w, b))).

(** The JUnit sink registered before the remote API sink, as the
    constructor orders them, on a file system whose output directory exists
    but refuses writes. *)
Definition locked_fs : FileSystem :=
  mkFS ∅ {[ "qagentic-results"%string ]} true.

Definition file_then_api : QAgenticReporter.t (FileSystem * APIReporter.t) :=
  QAgenticReporter.Make a_config
    [on_fst (JUnitReporter.sink a_config a_host);
     on_snd (APIReporter.sink a_config a_host)]
    None (locked_fs, APIReporter.Make [] None [] (fun _ => false)) a_host
    [] [].

End Samples.

(** ** step.ts: the other methods of [Step] *)

Module StepMethods.
Import StepTracker.

(** The [data] argument of [attach]: a string or a [Buffer]. *)
Inductive Data :=
| Text (s : string)
| Binary (bytes : list ascii).

(** [data.length]. *)
Definition Data_length (data : Data) : Z :=
  match data with
  | Text s => Z.of_nat (String.length s)
  | Binary bytes => Z.of_nat (length bytes)
  end.

Definition push_attachment (a : Attachment) (o : Step) : Step :=
  mkStep (id o) (name o) (description o) (status o) (startTime o) (endTime o)
    (durationMs o) (error o) (errorTrace o) (attachments o ++ [a])
    (children o) (parameters o).

Definition put_parameter (k v : string) (o : Step) : Step :=
  mkStep (id o) (name o) (description o) (status o) (startTime o) (endTime o)
    (durationMs o) (error o) (errorTrace o) (attachments o) (children o)
    (<[k := v]> (parameters o)).

(** [Step.prototype.attach(data, name, type = 'text/plain')];
    [base64] is [Buffer.prototype.toString('base64')]. *)
Definition Step_attach (base64 : list ascii -> string) (this : ref)
    (data : Data) (nm : string) (type : option string) (w : World) : World :=
  let content := match data with
                 | Text s => s
                 | Binary bytes => base64 bytes
                 end in
  let '(i, h) := Host.uuidv4 (host w) in
  let '(d, h) := Host.newDate h in
  let a := mkAttachment i nm (default "text/plain"%string type) None content
             (Data_length data) (Host.toISOString h d) in
  set_heap (alter (push_attachment a) this) (set_host h w).

(** [Step.prototype.attachScreenshot(path, name = 'Screenshot')]. *)
Definition Step_attachScreenshot (base64 : list ascii -> string) (this : ref)
    (path : string) (nm : option string) (w : World) : World :=
  Step_attach base64 this (Text path) (default "Screenshot"%string nm)
    (Some "image/png"%string) w.

(** [Step.prototype.setParameter(name, value)]. *)
Definition Step_setParameter (this : ref) (k v : string) (w : World) : World :=
  set_heap (alter (put_parameter k v) this) w.

(** [Step.prototype.toResult()].  The method calls itself on every child;
    [fuel] bounds the depth of these calls, and [None] stands for a
    recursion that has not returned within that depth. *)
Fixpoint toResult (fuel : nat) (hp : list Step) (this : ref)
  : option StepResult.t :=
  match fuel with
  | O => None
  | S fuel' =>
      match hp !! this with
      | None => None
      | Some o =>
          match mapM (toResult fuel' hp) (children o) with
          | None => None
          | Some kids =>
              Some (StepResult.Make (id o) (name o) (status o) (startTime o)
                      (endTime o) (durationMs o) (error o) (errorTrace o)
                      (attachments o) kids (parameters o))
          end
      end
  end.

End StepMethods.

(** ** attachments.ts *)

Module Attachments.
Import StepTracker StepMethods.

(** The step tracker's world and the module-level [testAttachments]. *)
Record World := mkWorld {
  steps : StepTracker.World;
  testAttachments : list Attachment
}.

Definition getAttachments (w : World) : list Attachment := testAttachments w.

Definition clearAttachments (w : World) : World := mkWorld (steps w) [].

(** [attach(data, name, type = 'text/plain', extension?)]: returns the id of
    the attachment. *)
Definition attach (base64 : list ascii -> string) (data : Data) (nm : string)
    (type : option string) (extension : option string) (w : World)
  : string * World :=
  let '(attachmentId, h) := Host.uuidv4 (host (steps w)) in
  let content := match data with
                 | Text s => s
                 | Binary bytes => base64 bytes
                 end in
  let size := Data_length data in
  let '(d, h) := Host.newDate h in
  let attachment :=
    mkAttachment attachmentId nm (default "text/plain"%string type) extension
      content size (Host.toISOString h d) in
  let st := set_host h (steps w) in
  match getCurrentStep st with
  | Some currentStep =>
      (attachmentId,
       mkWorld (set_heap (alter (push_attachment attachment) currentStep) st)
         (testAttachments w))
  | None => (attachmentId, mkWorld st (testAttachments w ++ [attachment]))
  end.

(** [attachText(text, name = 'Text')] and [attachHtml(html, name = 'HTML')]. *)
Definition attachText (base64 : list ascii -> string) (text : string)
    (nm : option string) (w : World) : string * World :=
  attach base64 (Text text) (default "Text"%string nm)
    (Some "text/plain"%string) (Some "txt"%string) w.

Definition attachHtml (base64 : list ascii -> string) (html : string)
    (nm : option string) (w : World) : string * World :=
  attach base64 (Text html) (default "HTML"%string nm)
    (Some "text/html"%string) (Some "html"%string) w.

End Attachments.

(** ** status.ts and severity.ts *)

Module Text.

(** [String.prototype.toLowerCase] on ASCII text. *)
Definition lower (c : ascii) : ascii :=
  let n := nat_of_ascii c in
  if (65 <=? n)%nat && (n <=? 90)%nat then ascii_of_nat (n + 32) else c.

Fixpoint toLowerCase (s : string) : string :=
  match s with
  | EmptyString => EmptyString
  | String c rest => String (lower c) (toLowerCase rest)
  end.

(** [switch (v) { case l1: case l2: ... }]: [v] is one of the labels. *)
Definition one_of (v : string) (labels : list string) : bool :=
  existsb (String.eqb v) labels.

End Text.

Module StatusFns.
Import Text.

Definition isSuccessful (status : Status) : bool :=
  bool_decide (status = PASSED).

Definition isFailure (status : Status) : bool :=
  bool_decide (status = FAILED) || bool_decide (status = BROKEN).

Definition parseStatus (value : string) : Status :=
  let normalized := toLowerCase value in
  if one_of normalized ["passed"; "pass"; "success"]%string then PASSED
  else if one_of normalized ["failed"; "fail"; "failure"]%string then FAILED
  else if one_of normalized ["broken"; "error"]%string then BROKEN
  else if one_of normalized ["skipped"; "skip"; "pending"]%string then SKIPPED
  else if one_of normalized ["running"]%string then RUNNING
  else UNKNOWN.

End StatusFns.

Module SeverityFns.
Import Text.

Inductive Severity := BLOCKER | CRITICAL | NORMAL | MINOR | TRIVIAL.

Definition Severity_value (s : Severity) : string :=
  match s with
  | BLOCKER => "blocker" | CRITICAL => "critical" | NORMAL => "normal"
  | MINOR => "minor" | TRIVIAL => "trivial"
  end.

Definition parseSeverity (value : string) : Severity :=
  let normalized := toLowerCase value in
  if one_of normalized ["blocker"]%string then BLOCKER
  else if one_of normalized ["critical"]%string then CRITICAL
  else if one_of normalized ["minor"]%string then MINOR
  else if one_of normalized ["trivial"]%string then TRIVIAL
  else NORMAL.

End SeverityFns.

(** ** config.ts: the global configuration *)

(** [defaultConfig] and [globalConfig] are objects whose fields [api],
    [local], [features] and [labels] hold references to nested objects;
    [{ ...defaultConfig }] copies these references, not the objects.  The
    nested objects live in a heap, one list for each type.  The values read
    from a YAML file are typed as the code uses them. *)
Module ConfigStore.
Import Text Reporter.

Abbreviation ref := nat (only parsing).

Record APIConfig := mkAPI {
  api_enabled : bool;
  api_url : string;
  api_key : option string;
  api_timeout : Z;
  api_retryCount : Z;
  api_batchSize : Z
}.

Record LocalConfig := mkLocal {
  local_enabled : bool;
  local_outputDir : string;
  local_formats : list string;
  local_cleanOnStart : bool
}.

Record FeaturesConfig := mkFeatures {
  aiAnalysis : bool;
  failureClustering : bool;
  flakyDetection : bool;
  screenshots : string;
  videos : string;
  consoleOutput : bool
}.

Record LabelsConfig := mkLabels {
  team : option string;
  component : option string;
  labels_environment : option string;
  custom : gmap string string
}.

Record QAgenticConfig := mkConfig {
  projectName : string;
  environment : string;
  api : ref;
  local : ref;
  features : ref;
  labels : ref
}.

Record Heap := mkHeap {
  apis : list APIConfig;
  locals : list LocalConfig;
  featuress : list FeaturesConfig;
  labelss : list LabelsConfig
}.

(** The module state: the heap and the variable [globalConfig]. *)
Record World := mkWorld {
  heap : Heap;
  globalConfig : QAgenticConfig
}.

(** [const defaultConfig]: its nested objects are the first of each heap. *)
Definition defaultConfig : QAgenticConfig :=
  mkConfig "default" "local" 0 0 0 0.

(** The module after loading: [let globalConfig = { ...defaultConfig }]. *)
Definition loaded : World :=
  mkWorld
    (mkHeap [mkAPI true "http://localhost:8080" None 30000 3 100]
       [mkLocal true "./qagentic-results" ["json"; "html"]%string true]
       [mkFeatures true true true "on_failure" "on_failure" true]
       [mkLabels None None None ∅])
    defaultConfig.

(** A configuration that is being built, with the heap. *)
Definition Building : Type := QAgenticConfig * Heap.

Definition set_projectName (v : string) (s : Building) : Building :=
  let '(c, hp) := s in
  (mkConfig v (environment c) (api c) (local c) (features c) (labels c), hp).

Definition set_environment (v : string) (s : Building) : Building :=
  let '(c, hp) := s in
  (mkConfig (projectName c) v (api c) (local c) (features c) (labels c), hp).

(** [config.api.f = v], and the like: an update of the nested object in
    place. *)
Definition on_api (f : APIConfig -> APIConfig) (s : Building) : Building :=
  let '(c, hp) := s in
  (c, mkHeap (alter f (api c) (apis hp)) (locals hp) (featuress hp)
        (labelss hp)).

Definition on_local (f : LocalConfig -> LocalConfig) (s : Building)
  : Building :=
  let '(c, hp) := s in
  (c, mkHeap (apis hp) (alter f (local c) (locals hp)) (featuress hp)
        (labelss hp)).

Definition on_features (f : FeaturesConfig -> FeaturesConfig) (s : Building)
  : Building :=
  let '(c, hp) := s in
  (c, mkHeap (apis hp) (locals hp) (alter f (features c) (featuress hp))
        (labelss hp)).

Definition on_labels (f : LabelsConfig -> LabelsConfig) (s : Building)
  : Building :=
  let '(c, hp) := s in
  (c, mkHeap (apis hp) (locals hp) (featuress hp)
        (alter f (labels c) (labelss hp))).

Definition with_api_enabled (v : bool) (a : APIConfig) : APIConfig :=
  mkAPI v (api_url a) (api_key a) (api_timeout a) (api_retryCount a)
    (api_batchSize a).
Definition with_api_url (v : string) (a : APIConfig) : APIConfig :=
  mkAPI (api_enabled a) v (api_key a) (api_timeout a) (api_retryCount a)
    (api_batchSize a).
Definition with_api_key (v : string) (a : APIConfig) : APIConfig :=
  mkAPI (api_enabled a) (api_url a) (Some v) (api_timeout a)
    (api_retryCount a) (api_batchSize a).

Definition with_local_enabled (v : bool) (l : LocalConfig) : LocalConfig :=
  mkLocal v (local_outputDir l) (local_formats l) (local_cleanOnStart l).
Definition with_outputDir (v : string) (l : LocalConfig) : LocalConfig :=
  mkLocal (local_enabled l) v (local_formats l) (local_cleanOnStart l).
Definition with_formats (v : list string) (l : LocalConfig) : LocalConfig :=
  mkLocal (local_enabled l) (local_outputDir l) v (local_cleanOnStart l).

Definition with_aiAnalysis (v : bool) (f : FeaturesConfig) : FeaturesConfig :=
  mkFeatures v (failureClustering f) (flakyDetection f) (screenshots f)
    (videos f) (consoleOutput f).
Definition with_failureClustering (v : bool) (f : FeaturesConfig)
  : FeaturesConfig :=
  mkFeatures (aiAnalysis f) v (flakyDetection f) (screenshots f) (videos f)
    (consoleOutput f).
Definition with_flakyDetection (v : bool) (f : FeaturesConfig)
  : FeaturesConfig :=
  mkFeatures (aiAnalysis f) (failureClustering f) v (screenshots f) (videos f)
    (consoleOutput f).
Definition with_screenshots (v : string) (f : FeaturesConfig)
  : FeaturesConfig :=
  mkFeatures (aiAnalysis f) (failureClustering f) (flakyDetection f) v
    (videos f) (consoleOutput f).
Definition with_videos (v : string) (f : FeaturesConfig) : FeaturesConfig :=
  mkFeatures (aiAnalysis f) (failureClustering f) (flakyDetection f)
    (screenshots f) v (consoleOutput f).

Definition with_team (v : string) (l : LabelsConfig) : LabelsConfig :=
  mkLabels (Some v) (component l) (labels_environment l) (custom l).
Definition with_component (v : string) (l : LabelsConfig) : LabelsConfig :=
  mkLabels (team l) (Some v) (labels_environment l) (custom l).
Definition with_custom (f : gmap string string -> gmap string string)
    (l : LabelsConfig) : LabelsConfig :=
  mkLabels (team l) (component l) (labels_environment l) (f (custom l)).

(** [if (x) { ... x ... }] for an optional value. *)
Definition when {A : Type} (x : option A) (f : A -> Building -> Building)
    (s : Building) : Building :=
  match x with
  | Some v => f v s
  | None => s
  end.

(** [String.prototype.split(',')]. *)
Fixpoint split_commas (s : string) : list string :=
  match s with
  | EmptyString => [EmptyString]
  | String c rest =>
      if Ascii.eqb c ","%char then EmptyString :: split_commas rest
      else match split_commas rest with
           | x :: xs => String c x :: xs
           | [] => [String c EmptyString]
           end
  end.

(** [String.prototype.trim] on ASCII text. *)
Definition is_space (c : ascii) : bool :=
  let n := nat_of_ascii c in
  ((9 <=? n)%nat && (n <=? 13)%nat) || (n =? 32)%nat.

Fixpoint trimStart (s : string) : string :=
  match s with
  | EmptyString => EmptyString
  | String c rest => if is_space c then trimStart rest else s
  end.

Fixpoint trimEnd (s : string) : string :=
  match s with
  | EmptyString => EmptyString
  | String c rest =>
      match trimEnd rest with
      | EmptyString => if is_space c then EmptyString
                       else String c EmptyString
      | kept => String c kept
      end
  end.

Definition trim (s : string) : string := trimEnd (trimStart s).

(** [v.toLowerCase() === 'true']. *)
Definition is_true (v : string) : bool :=
  String.eqb (toLowerCase v) "true".

(** [loadFromEnv(config)], [env] being [process.env]. *)
Definition loadFromEnv (env : string -> option string) (s : Building)
  : Building :=
  let s := when (truthy (env "QAGENTIC_PROJECT_NAME"%string))
             set_projectName s in
  let s := when (truthy (env "QAGENTIC_ENVIRONMENT"%string))
             set_environment s in
  let s := when (env "QAGENTIC_API_ENABLED"%string)
             (fun v => on_api (with_api_enabled (is_true v))) s in
  let s := when (truthy (env "QAGENTIC_API_URL"%string))
             (fun v => on_api (with_api_url v)) s in
  let s := when (truthy (env "QAGENTIC_API_KEY"%string))
             (fun v => on_api (with_api_key v)) s in
  let s := when (env "QAGENTIC_LOCAL_ENABLED"%string)
             (fun v => on_local (with_local_enabled (is_true v))) s in
  let s := when (truthy (env "QAGENTIC_OUTPUT_DIR"%string))
             (fun v => on_local (with_outputDir v)) s in
  let s := when (truthy (env "QAGENTIC_OUTPUT_FORMAT"%string))
             (fun v => on_local (with_formats (map trim (split_commas v))))
             s in
  let s := when (env "QAGENTIC_AI_ANALYSIS"%string)
             (fun v => on_features (with_aiAnalysis (is_true v))) s in
  let s := when (truthy (env "QAGENTIC_SCREENSHOTS"%string))
             (fun v => on_features (with_screenshots v)) s in
  let s := when (truthy (env "QAGENTIC_VIDEOS"%string))
             (fun v => on_features (with_videos v)) s in
  let s := when (truthy (env "QAGENTIC_TEAM"%string))
             (fun v => on_labels (with_team v)) s in
  let s := when (truthy (env "QAGENTIC_COMPONENT"%string))
             (fun v => on_labels (with_component v)) s in
  s.

(** What [yaml.parse] returned, as far as [loadFromFile] reads it; a field
    is [None] when the object on the path to it is missing. *)
Record Yaml := mkYaml {
  project_name : option string;
  project_environment : option string;
  reporting_api_enabled : option bool;
  reporting_api_url : option string;
  reporting_api_key : option string;
  reporting_local_enabled : option bool;
  reporting_local_output_dir : option string;
  reporting_local_formats : option (list string);
  features_ai_analysis : option bool;
  features_failure_clustering : option bool;
  features_flaky_detection : option bool;
  features_screenshots : option string;
  features_videos : option string;
  yaml_labels : option (gmap string string)
}.

(** The assignments of [loadFromFile] once the file is parsed. *)
Definition apply_yaml (data : Yaml) (s : Building) : Building :=
  let s := when (truthy (project_name data)) set_projectName s in
  let s := when (truthy (project_environment data)) set_environment s in
  let s := when (reporting_api_enabled data)
             (fun v => on_api (with_api_enabled v)) s in
  let s := when (truthy (reporting_api_url data))
             (fun v => on_api (with_api_url v)) s in
  let s := when (truthy (reporting_api_key data))
             (fun v => on_api (with_api_key v)) s in
  let s := when (reporting_local_enabled data)
             (fun v => on_local (with_local_enabled v)) s in
  let s := when (truthy (reporting_local_output_dir data))
             (fun v => on_local (with_outputDir v)) s in
  let s := when (reporting_local_formats data)
             (fun v => on_local (with_formats v)) s in
  let s := when (features_ai_analysis data)
             (fun v => on_features (with_aiAnalysis v)) s in
  let s := when (features_failure_clustering data)
             (fun v => on_features (with_failureClustering v)) s in
  let s := when (features_flaky_detection data)
             (fun v => on_features (with_flakyDetection v)) s in
  let s := when (truthy (features_screenshots data))
             (fun v => on_features (with_screenshots v)) s in
  let s := when (truthy (features_videos data))
             (fun v => on_features (with_videos v)) s in
  let s := when (yaml_labels data)
             (fun m s =>
                let s := when (truthy (m !! "team"%string))
                           (fun v => on_labels (with_team v)) s in
                let s := when (truthy (m !! "component"%string))
                           (fun v => on_labels (with_component v)) s in
                on_labels (with_custom (fun old => m ∪ old)) s) s in
  s.

(** [autoDiscover()].  [file] is what the first existing search path parsed
    to; it is [None] when no search path exists, and also when reading or
    parsing throws, which [loadFromFile] catches before any assignment. *)
Definition autoDiscover (env : string -> option string) (file : option Yaml)
    (hp : Heap) : Building :=
  let config := defaultConfig in
  let s := when file apply_yaml (config, hp) in
  loadFromEnv env s.

(** The argument of [configure]. *)
Record Options := mkOptions {
  opt_projectName : option string;
  opt_environment : option string;
  opt_apiUrl : option string;
  opt_apiKey : option string;
  opt_outputDir : option string;
  opt_api : option APIConfig;
  opt_local : option LocalConfig;
  opt_features : option FeaturesConfig;
  opt_labels : option LabelsConfig
}.

(** [{ ...a, ...b }] on the nested objects: an optional field that [b]
    does not have keeps the value of [a]. *)
Definition spread_api (a b : APIConfig) : APIConfig :=
  mkAPI (api_enabled b) (api_url b)
    (match api_key b with Some k => Some k | None => api_key a end)
    (api_timeout b) (api_retryCount b) (api_batchSize b).

Definition spread_labels (a b : LabelsConfig) : LabelsConfig :=
  mkLabels
    (match team b with Some v => Some v | None => team a end)
    (match component b with Some v => Some v | None => component a end)
    (match labels_environment b with
     | Some v => Some v
     | None => labels_environment a
     end)
    (custom b).

(** [globalConfig.api = { ...globalConfig.api, ...options.api }], and the
    like: a new object is allocated. *)
Definition merge_api (b : APIConfig) (s : Building) : Building :=
  let '(c, hp) := s in
  match apis hp !! api c with
  | Some a =>
      (mkConfig (projectName c) (environment c) (length (apis hp)) (local c)
         (features c) (labels c),
       mkHeap (apis hp ++ [spread_api a b]) (locals hp) (featuress hp)
         (labelss hp))
  | None => s
  end.

Definition merge_local (b : LocalConfig) (s : Building) : Building :=
  let '(c, hp) := s in
  (mkConfig (projectName c) (environment c) (api c) (length (locals hp))
     (features c) (labels c),
   mkHeap (apis hp) (locals hp ++ [b]) (featuress hp) (labelss hp)).

Definition merge_features (b : FeaturesConfig) (s : Building) : Building :=
  let '(c, hp) := s in
  (mkConfig (projectName c) (environment c) (api c) (local c)
     (length (featuress hp)) (labels c),
   mkHeap (apis hp) (locals hp) (featuress hp ++ [b]) (labelss hp)).

Definition merge_labels (b : LabelsConfig) (s : Building) : Building :=
  let '(c, hp) := s in
  match labelss hp !! labels c with
  | Some a =>
      (mkConfig (projectName c) (environment c) (api c) (local c)
         (features c) (length (labelss hp)),
       mkHeap (apis hp) (locals hp) (featuress hp)
         (labelss hp ++ [spread_labels a b]))
  | None => s
  end.

(** [configure(options)]. *)
Definition configure (options : Options) (env : string -> option string)
    (file : option Yaml) (w : World) : World :=
  let s := autoDiscover env file (heap w) in
  let s := when (truthy (opt_projectName options)) set_projectName s in
  let s := when (truthy (opt_environment options)) set_environment s in
  let s := when (truthy (opt_apiUrl options))
             (fun v => on_api (with_api_url v)) s in
  let s := when (truthy (opt_apiKey options))
             (fun v => on_api (with_api_key v)) s in
  let s := when (truthy (opt_outputDir options))
             (fun v => on_local (with_outputDir v)) s in
  let s := when (opt_api options) merge_api s in
  let s := when (opt_local options) merge_local s in
  let s := when (opt_features options) merge_features s in
  let s := when (opt_labels options) merge_labels s in
  mkWorld (snd s) (fst s).

Definition getConfig (w : World) : QAgenticConfig := globalConfig w.

(** [resetConfig()]: [globalConfig = { ...defaultConfig }]. *)
Definition resetConfig (w : World) : World := mkWorld (heap w) defaultConfig.

(** [getConfig().api], read through the reference. *)
Definition api_of (w : World) : option APIConfig :=
  apis (heap w) !! api (globalConfig w).

Definition local_of (w : World) : option LocalConfig :=
  locals (heap w) !! local (globalConfig w).

End ConfigStore.

(** ** jest/index.ts: the Jest adapter *)

Module JestAdapter.
Import Text Reporter Reporter.QAgenticReporter.

(** An element of [testResults]; [duration] is [number | null]. *)
Record AssertionResult := mkAssertionResult {
  title : string;
  fullName : string;
  status : string;
  duration : option Z;
  ancestorTitles : list string;
  failureMessages : list string;
  numPassingAsserts : Z
}.

(** [interface JestTestResult]. *)
Record JestTestResult := mkJestTestResult {
  testFilePath : string;
  testResults : list AssertionResult;
  perfStats_start : Z;
  perfStats_end : Z
}.

(** [Array.prototype.join]. *)
Fixpoint join (sep : string) (l : list string) : string :=
  match l with
  | [] => EmptyString
  | x :: rest =>
      match rest with
      | [] => x
      | _ :: _ => x +:+ sep +:+ join sep rest
      end
  end.

Definition mapStatus (status : string) : Status :=
  if one_of status ["passed"]%string then PASSED
  else if one_of status ["failed"]%string then FAILED
  else if one_of status ["pending"; "skipped"; "todo"]%string then SKIPPED
  else UNKNOWN.

(** The object that [onTestResult] builds for one [result], [id] being the
    value of [uuidv4()].  [number || 0] is the number itself, and [null || 0]
    is [0].  A label whose value is [undefined] is left out of the map. *)
Definition test_of (testResult : JestTestResult) (result : AssertionResult)
    (id : string) : TestResult.t :=
  let failing := (0 <? length (failureMessages result))%nat in
  TestResult.Make id (title result) (fullName result) None
    (mapStatus (status result))
    (Some (perfStats_start testResult)) (Some (perfStats_end testResult))
    (default 0 (duration result))
    (if failing then head (failureMessages result) else None)
    (if failing then Some "AssertionError"%string else None)
    (if failing then Some (join nl (failureMessages result)) else None)
    (let suite :=
       <["suite"%string := join " > " (ancestorTitles result)]> ∅ in
     match head (ancestorTitles result) with
     | Some feature => <["feature"%string := feature]> suite
     | None => suite
     end)
    [] ∅ [] [] (Some (testFilePath testResult)) None
    (numPassingAsserts result) false false None.

Section Methods.
Context {W : Type}.

(** [for (const result of testResult.testResults) { ...;
    await this.reporter.reportTest(test); }]: no [try] around the call. *)
Fixpoint for_results (testResult : JestTestResult)
    (results : list AssertionResult) (o : t W) : Completion unit * t W :=
  match results with
  | [] => (Normal tt, o)
  | result :: rest =>
      let '(id, h) := Host.uuidv4 (host o) in
      let test := test_of testResult result id in
      match reportTest test (set_host h o) with
      | (Normal _, o) => for_results testResult rest o
      | (Throw e, o) => (Throw e, o)
      end
  end.

(** [onTestResult(_test, testResult, _aggregatedResult)]. *)
Definition onTestResult (testResult : JestTestResult) (o : t W)
  : Completion unit * t W :=
  for_results testResult (testResults testResult) o.

(** [onRunComplete()]. *)
Definition onRunComplete (o : t W)
  : Completion (option TestRunResult.t) * t W :=
  endRun o.

End Methods.

End JestAdapter.

(** ** playwright/index.ts: the Playwright adapter *)

Module PlaywrightAdapter.
Import Text.

(** [interface PlaywrightStep]; [startTime] is a [Date], held as epoch
    milliseconds, and [steps] is optional. *)
#[warnings="-register-all"]
Inductive PlaywrightStep := mkPlaywrightStep {
  title : string;
  startTime : Z;
  duration : Z;
  error : option Error;
  steps : option (list PlaywrightStep)
}.

Definition mapStatus (status : string) : Status :=
  if one_of status ["passed"]%string then PASSED
  else if one_of status ["failed"]%string then FAILED
  else if one_of status ["timedOut"]%string then BROKEN
  else if one_of status ["skipped"]%string then SKIPPED
  else if one_of status ["interrupted"]%string then BROKEN
  else UNKNOWN.

(** The callback of [map] in [mapSteps]: the fields of the object literal
    are evaluated in order, [uuidv4()] before the recursive call. *)
Fixpoint mapStep (step : PlaywrightStep) (h : Host.t) {struct step}
  : StepResult.t * Host.t :=
  match step with
  | mkPlaywrightStep title startTime duration error steps =>
      let '(id, h) := Host.uuidv4 h in
      let '(children, h) :=
        match steps with
        | Some l =>
            (fix mapSteps (l : list PlaywrightStep) (h : Host.t) {struct l}
               : list StepResult.t * Host.t :=
               match l with
               | [] => ([], h)
               | s :: l' =>
                   let '(r, h) := mapStep s h in
                   let '(rs, h) := mapSteps l' h in
                   (r :: rs, h)
               end) l h
        | None => ([], h)
        end in
      (StepResult.Make id title
         (match error with Some _ => FAILED | None => PASSED end)
         (Some startTime) (Some (startTime + duration)) duration
         (option_map message error)
         (match error with Some e => stack e | None => None end)
         [] children ∅,
       h)
  end.

(** [mapSteps(steps)]: [(steps || []).map(...)]. *)
Fixpoint mapSteps (steps : list PlaywrightStep) (h : Host.t)
  : list StepResult.t * Host.t :=
  match steps with
  | [] => ([], h)
  | s :: l' =>
      let '(r, h) := mapStep s h in
      let '(rs, h) := mapSteps l' h in
      (r :: rs, h)
  end.

End PlaywrightAdapter.

(** * Properties of the step tracker *)

Module StepTrackerFacts.
Import StepTracker.

(** ** The stack *)

Lemma indexOf_notin (l : list ref) (x : ref) : x ∉ l -> indexOf l x = -1.
Proof.
  induction l as [|y l IH]; intros Hx; simpl; [done|].
  apply not_elem_of_cons in Hx as [Hne Hl].
  destruct (decide (y = x)) as [->|_]; [done|].
  by rewrite IH.
Qed.

Lemma indexOf_first (l1 l2 : list ref) (x : ref) :
  x ∉ l1 -> indexOf (l1 ++ x :: l2) x = Z.of_nat (length l1).
Proof.
  induction l1 as [|y l1 IH]; intros Hx; simpl.
  - by rewrite decide_True.
  - apply not_elem_of_cons in Hx as [Hne Hl].
    rewrite decide_False by done. rewrite (IH Hl).
    destruct (Z.eqb_spec (Z.of_nat (length l1)) (-1)); lia.
Qed.

(** What [end] leaves of the stack: the first occurrence of the step is
    spliced out, and a stack that does not hold the step is left as it is. *)
Definition without (s : ref) (l : list ref) : list ref :=
  if indexOf l s >? -1 then splice1 (indexOf l s) l else l.

Lemma without_first (s : ref) (l1 l2 : list ref) :
  s ∉ l1 -> without s (l1 ++ s :: l2) = l1 ++ l2.
Proof.
  intros Hs. unfold without, splice1. rewrite (indexOf_first _ _ _ Hs).
  destruct (Z.gtb_spec (Z.of_nat (length l1)) (-1)); [|lia].
  rewrite Nat2Z.id. apply delete_middle.
Qed.

Lemma without_notin (s : ref) (l : list ref) : s ∉ l -> without s l = l.
Proof. intros Hs. unfold without. by rewrite (indexOf_notin _ _ Hs). Qed.

Lemma currentSteps_end (w : World) (s : ref) (err : option Thrown) :
  currentSteps (Step_end s err w) = without s (currentSteps w).
Proof.
  unfold Step_end, without, getCurrentStep; simpl.
  destruct (indexOf (currentSteps w) s >? -1); simpl;
    match goal with |- context [last ?l] => destruct (last l) end; done.
Qed.

Lemma calls_end (w : World) (s : ref) (err : option Thrown) :
  calls (Step_end s err w) = calls w ++ [CallEnd s err].
Proof.
  unfold Step_end, getCurrentStep; simpl.
  destruct (indexOf (currentSteps w) s >? -1); simpl;
    match goal with |- context [last ?l] => destruct (last l) end; done.
Qed.

(** The heap after [end], as three in-place updates. *)
Definition attach_to (parent : option ref) (s : ref) (hp : list Step)
  : list Step :=
  match parent with
  | Some p => alter (push_child s) p hp
  | None => hp
  end.

Lemma heap_end (w : World) (s : ref) (err : option Thrown) :
  heap (Step_end s err w) =
  alter (settled err) s
    (attach_to (last (without s (currentSteps w))) s
       (alter (stopped (Host.clock (host w) (Host.ticks (host w)))) s
          (heap w))).
Proof.
  unfold Step_end, without, getCurrentStep, attach_to; simpl.
  destruct (indexOf (currentSteps w) s >? -1); simpl;
    match goal with |- context [last ?l] => destruct (last l) end; done.
Qed.

Lemma children_settled err o : children (settled err o) = children o.
Proof. unfold settled. by destruct (given err). Qed.

Lemma children_stopped d o : children (stopped d o) = children o.
Proof. done. Qed.

Lemma name_settled err o : name (settled err o) = name o.
Proof. unfold settled. by destruct (given err). Qed.

(** The children of every allocated step after [end]: the step on top of the
    stack once [s] is out gains [s] as its last child, and no other step's
    children change. *)
Lemma children_end (w : World) (s : ref) (err : option Thrown) (q : ref)
    (o : Step) :
  heap w !! q = Some o ->
  exists o', heap (Step_end s err w) !! q = Some o' /\
    name o' = name o /\
    children o' =
      if decide (getCurrentStep (Step_end s err w) = Some q)
      then children o ++ [s] else children o.
Proof.
  intros Hq. rewrite heap_end. unfold getCurrentStep.
  rewrite currentSteps_end.
  set (top := last (without s (currentSteps w))).
  set (d := Host.clock _ _).
  assert (Hs1 : exists o1, alter (stopped d) s (heap w) !! q = Some o1 /\
             name o1 = name o /\ children o1 = children o).
  { rewrite list_lookup_alter. destruct (decide (s = q)) as [->|_].
    - rewrite Hq. simpl. eauto.
    - eauto. }
  destruct Hs1 as (o1 & H1 & Hn1 & Hc1).
  assert (Hs2 : exists o2,
             attach_to top s (alter (stopped d) s (heap w)) !! q = Some o2 /\
             name o2 = name o /\
             children o2 = if decide (top = Some q) then children o ++ [s]
                           else children o).
  { destruct top as [p|]; simpl.
    - rewrite list_lookup_alter. destruct (decide (p = q)) as [->|Hne].
      + rewrite H1. simpl. eexists; split; [done|]. simpl.
        split; [done|]. rewrite Hc1.
        by destruct (decide (Some q = Some q)).
      + eexists; split; [done|]. split; [done|].
        destruct (decide (Some p = Some q)); [congruence|done].
    - eexists; split; [done|]. split; [done|].
      by destruct (decide (None = Some q)). }
  destruct Hs2 as (o2 & H2 & Hn2 & Hc2).
  rewrite list_lookup_alter. destruct (decide (s = q)) as [->|_].
  - rewrite H2. simpl. eexists; split; [done|].
    by rewrite name_settled, children_settled.
  - eauto.
Qed.

(** ** [new Step] and [start] *)

Lemma Step_new_spec nm descr params (w : World) :
  exists o, Step_new nm descr params w =
              (length (heap w),
               mkWorld (heap w ++ [o]) (currentSteps w)
                 (snd (Host.uuidv4 (host w))) (calls w)) /\
            name o = nm /\ children o = [].
Proof. unfold Step_new; simpl. eexists; split; [done|]. done. Qed.

Lemma currentSteps_start (s : ref) (w : World) :
  currentSteps (Step_start s w) = currentSteps w ++ [s].
Proof. done. Qed.

Lemma heap_start (s : ref) (w : World) :
  heap (Step_start s w) =
  alter (started (Host.clock (host w) (Host.ticks (host w)))) s (heap w).
Proof. done. Qed.

Lemma lookup_start (s q : ref) (w : World) (o : Step) :
  heap w !! q = Some o ->
  exists o', heap (Step_start s w) !! q = Some o' /\
    name o' = name o /\ children o' = children o.
Proof.
  intros Hq. rewrite heap_start, list_lookup_alter.
  destruct (decide (s = q)) as [->|_]; [rewrite Hq; simpl|]; eauto.
Qed.

(** ** The claims about [end] *)

(** C5.  [end()] takes the step out of the module-level stack (its first
    occurrence; the top of the stack under LIFO use), and the step that is
    then on top of the stack receives the ended step as its last child,
    while no other step's children change.  Scenario: on a cleared stack,
    [start("A")], [start("B")], [end()] of B, [end()] of A leave A with
    exactly one child, the step named "B". *)
Theorem end_pops_and_attaches_child (w : World) (s : ref)
    (err : option Thrown) :
  let w' := Step_end s err w in
  (forall l1 l2, currentSteps w = l1 ++ s :: l2 -> s ∉ l1 ->
     currentSteps w' = l1 ++ l2) /\
  (forall rest, currentSteps w = rest ++ [s] -> s ∉ rest ->
     currentSteps w' = rest) /\
  (forall p o, getCurrentStep w' = Some p -> heap w !! p = Some o ->
     exists o', heap w' !! p = Some o' /\ children o' = children o ++ [s]) /\
  (forall q o, getCurrentStep w' <> Some q -> heap w !! q = Some o ->
     exists o', heap w' !! q = Some o' /\ children o' = children o) /\
  (forall w0,
     let '(a, w1) := Step_new "A" None None (clearSteps w0) in
     let w1 := Step_start a w1 in
     let '(b, w2) := Step_new "B" None None w1 in
     let w2 := Step_start b w2 in
     let w3 := Step_end b None w2 in
     let w4 := Step_end a None w3 in
     currentSteps w3 = [a] /\ currentSteps w4 = [] /\
     exists oa ob, heap w4 !! a = Some oa /\ heap w4 !! b = Some ob /\
       name oa = "A"%string /\ name ob = "B"%string /\ children oa = [b]).
Proof.
  intros w'. split; [|split; [|split; [|split]]].
  - intros l1 l2 Hst Hs. unfold w'. rewrite currentSteps_end, Hst.
    by apply without_first.
  - intros rest Hst Hs. unfold w'. rewrite currentSteps_end, Hst.
    rewrite (without_first s rest [] Hs). apply app_nil_r.
  - intros p o Htop Hp.
    destruct (children_end w s err p o Hp) as (o' & Ho' & _ & Hc).
    exists o'. split; [done|]. fold w' in Hc.
    by destruct (decide (getCurrentStep w' = Some p)).
  - intros q o Htop Hq.
    destruct (children_end w s err q o Hq) as (o' & Ho' & _ & Hc).
    exists o'. split; [done|]. fold w' in Hc.
    by destruct (decide (getCurrentStep w' = Some q)).
  - intros w0.
    destruct (Step_new_spec "A" None None (clearSteps w0))
      as (oa0 & -> & Hna & Hca).
    cbv beta iota zeta.
    set (a := length (heap (clearSteps w0))).
    set (wa := mkWorld _ _ _ _).
    assert (Ha0 : heap wa !! a = Some oa0).
    { unfold wa, a; simpl. by rewrite lookup_app_r, Nat.sub_diag. }
    destruct (lookup_start a a wa oa0 Ha0) as (oa1 & Ha1 & Hna1 & Hca1).
    destruct (Step_new_spec "B" None None (Step_start a wa))
      as (ob0 & -> & Hnb & Hcb).
    cbv beta iota zeta.
    set (b := length (heap (Step_start a wa))).
    set (wb := mkWorld _ _ _ _).
    assert (Hab : a <> b).
    { unfold b. rewrite heap_start, length_alter. unfold wa; simpl.
      rewrite length_app; simpl. unfold a; simpl. lia. }
    assert (Hb0 : heap wb !! b = Some ob0).
    { unfold wb, b; simpl. by rewrite lookup_app_r, Nat.sub_diag. }
    assert (Ha2 : heap wb !! a = Some oa1).
    { unfold wb; simpl. apply lookup_app_l_Some. exact Ha1. }
    assert (Hst : currentSteps (Step_start b wb) = [a; b]) by done.
    destruct (lookup_start b a wb oa1 Ha2) as (oa3 & Ha3 & Hna3 & Hca3).
    destruct (lookup_start b b wb ob0 Hb0) as (ob3 & Hb3 & Hnb3 & Hcb3).
    set (w2 := Step_start b wb) in *.
    assert (Hst3 : currentSteps (Step_end b None w2) = [a]).
    { rewrite currentSteps_end, Hst.
      apply (without_first b [a] []).
      intros Hin%list_elem_of_singleton. congruence. }
    destruct (children_end w2 b None a oa3 Ha3) as (oa4 & Ha4 & Hna4 & Hca4).
    destruct (children_end w2 b None b ob3 Hb3) as (ob4 & Hb4 & Hnb4 & _).
    unfold getCurrentStep in Hca4. rewrite Hst3 in Hca4. simpl in Hca4.
    destruct (decide (Some a = Some a)) as [_|]; [|done].
    set (w3 := Step_end b None w2) in *.
    assert (Hst4 : currentSteps (Step_end a None w3) = []).
    { rewrite currentSteps_end, Hst3.
      apply (without_first a [] []). apply not_elem_of_nil. }
    destruct (children_end w3 a None a oa4 Ha4) as (oa5 & Ha5 & Hna5 & Hca5).
    destruct (children_end w3 a None b ob4 Hb4) as (ob5 & Hb5 & Hnb5 & _).
    unfold getCurrentStep in Hca5. rewrite Hst4 in Hca5. simpl in Hca5.
    destruct (decide (None = Some a)) as [|_]; [done|].
    split; [done|]. split; [done|].
    exists oa5, ob5. split; [done|]. split; [done|].
    split; [congruence|]. split; [congruence|].
    rewrite Hca5, Hca4, Hca3, Hca1, Hca. done.
Qed.

(** The stack [[0; 1]] with step 1 on top: ending step 1 pops it and makes
    it the last child of step 0. *)
Definition two_steps : World :=
  let h := Host.Make (fun n => Z.of_nat n) 0 (fun _ => "id"%string) 0
             (fun _ => "2024-01-01T00:00:00.000Z"%string) in
  let '(a, w) := Step_new "A" None None (mkWorld [] [] h []) in
  let w := Step_start a w in
  let '(b, w) := Step_new "B" None None w in
  Step_start b w.

Lemma end_pops_and_attaches_child_witness :
  currentSteps (Step_end 1%nat None two_steps) = [0%nat] /\
  (exists o', heap (Step_end 1%nat None two_steps) !! 0%nat = Some o' /\
              children o' = [] ++ [1%nat]).
Proof.
  destruct (end_pops_and_attaches_child two_steps 1%nat None)
    as (_ & Hpop & Hattach & _).
  split.
  - apply (Hpop [0%nat]); [reflexivity|].
    intros Hin%list_elem_of_singleton. discriminate Hin.
  - destruct (Hattach 0%nat
                (mkStep "id" "A" None RUNNING (Some 0) None 0 None None [] []
                   ∅)) as (o' & Ho' & Hc); [reflexivity|reflexivity|].
    exists o'. split; [exact Ho'|exact Hc].
Defined.

Lemma last_without (s : ref) (l : list ref) :
  last l <> Some s -> last (without s l) = last l.
Proof.
  intros Htop. destruct (decide (s ∈ l)) as [Hin|Hnot].
  - apply list_elem_of_split_l in Hin as (l1 & l2 & -> & Hl1).
    rewrite (without_first _ _ _ Hl1).
    rewrite last_app_cons, last_cons in *. rewrite last_app.
    destruct (last l2); done.
  - by rewrite without_notin.
Qed.

(** C9.  Calling [end()] on a step that is not on top of the stack returns
    normally ([Step_end] is a total function that yields the next world, it
    has no throwing path): the step is taken out of the stack at the first
    place where it is found (and a stack that does not hold it is left as
    it is), the top of the stack stays, and the rest of [end()] completes:
    end time, duration, status and error fields are set on the step, and
    the step is appended to the children of the step on top. *)
Theorem end_not_on_top_is_tolerated (w : World) (s : ref)
    (err : option Thrown) (o : Step) :
  heap w !! s = Some o ->
  getCurrentStep w <> Some s ->
  let d := Host.clock (host w) (Host.ticks (host w)) in
  let w' := Step_end s err w in
  (forall l1 l2, currentSteps w = l1 ++ s :: l2 -> s ∉ l1 ->
     currentSteps w' = l1 ++ l2) /\
  (s ∉ currentSteps w -> currentSteps w' = currentSteps w) /\
  getCurrentStep w' = getCurrentStep w /\
  (exists o', heap w' !! s = Some o' /\
     endTime o' = Some d /\
     durationMs o' = match startTime o with
                     | Some st => d - st
                     | None => durationMs o
                     end /\
     status o' = match given err with Some _ => FAILED | None => PASSED end /\
     error o' = match given err with
                | Some e => message_of e
                | None => error o
                end /\
     errorTrace o' = match given err with
                     | Some e => stack_of e
                     | None => errorTrace o
                     end /\
     children o' = children o) /\
  (forall p po, getCurrentStep w = Some p -> heap w !! p = Some po ->
     exists po', heap w' !! p = Some po' /\
                 children po' = children po ++ [s]).
Proof.
  intros Hs Htop d w'.
  assert (Htop' : getCurrentStep w' = getCurrentStep w).
  { unfold w', getCurrentStep. rewrite currentSteps_end.
    by apply last_without. }
  split; [|split; [|split; [done|split]]].
  - intros l1 l2 Hst Hl1. unfold w'. rewrite currentSteps_end, Hst.
    by apply without_first.
  - intros Hnot. unfold w'. rewrite currentSteps_end.
    by apply without_notin.
  - unfold w'. rewrite heap_end. fold d.
    rewrite list_lookup_alter_eq.
    assert (Hmid : attach_to (last (without s (currentSteps w))) s
                     (alter (stopped d) s (heap w)) !! s
                   = Some (stopped d o)).
    { rewrite last_without by done. unfold getCurrentStep in Htop.
      destruct (last (currentSteps w)) as [p|]; simpl.
      - rewrite list_lookup_alter_ne by congruence.
        by rewrite list_lookup_alter_eq, Hs.
      - by rewrite list_lookup_alter_eq, Hs. }
    rewrite Hmid. simpl. eexists; split; [done|].
    unfold settled. destruct (given err); simpl; done.
  - intros p po Hp Hpo.
    destruct (children_end w s err p po Hpo) as (po' & Hpo' & _ & Hc).
    exists po'. split; [done|]. fold w' in Hc.
    destruct (decide (getCurrentStep w' = Some p)); [done|congruence].
Qed.

(** The stack [[0; 1]]: ending step 0 while step 1 is on top. *)
Lemma end_not_on_top_is_tolerated_witness :
  currentSteps (Step_end 0%nat None two_steps) = [1%nat] /\
  (exists po', heap (Step_end 0%nat None two_steps) !! 1%nat = Some po' /\
               children po' = [] ++ [0%nat]).
Proof.
  destruct (end_not_on_top_is_tolerated two_steps 0%nat None
              (mkStep "id" "A" None RUNNING (Some 0) None 0 None None [] [] ∅))
    as (Hrm & _ & _ & _ & Hattach); [reflexivity|discriminate|].
  split.
  - apply (Hrm [] [1%nat]); [reflexivity|apply not_elem_of_nil].
  - apply (Hattach 1%nat
             (mkStep "id" "B" None RUNNING (Some 1) None 0 None None [] [] ∅));
      reflexivity.
Defined.

(** ** The [step] wrapper *)

(** The arguments of the [end] calls made on [s], in order. *)
Definition ends_of (s : ref) (log : list Call) : list (option Thrown) :=
  omap (fun c => match c with
                 | CallEnd s' err => if decide (s' = s) then Some err else None
                 | CallStart _ => None
                 end) log.

Lemma ends_of_snoc_end (s : ref) (log : list Call) (err : option Thrown) :
  ends_of s (log ++ [CallEnd s err]) = ends_of s log ++ [err].
Proof.
  unfold ends_of. rewrite omap_app. simpl. by rewrite decide_True.
Qed.

(** C4.  Whatever the callback does, the wrapper calls [end] on its step
    once, after the callback has exited: on a plain return [end()], on a
    thrown error [end(error)] followed by a re-throw of the same error, and
    for a returned promise not before the promise settles, then [end()] on
    fulfilment and [end(error)] on rejection, the wrapper's promise being
    fulfilled with the same value or rejected with the same error.  A
    callback that leaves the step alone therefore sees it ended exactly
    once. *)
Theorem step_ends_once_and_rethrows {T : Type} (nm : string)
    (descr : option string) (fn : Callback T) (w : World) :
  let s := length (heap w) in
  let w1 := Step_start s (snd (Step_new nm descr None w)) in
  match fn w1 with
  | (Normal (Plain v), w2) =>
      step nm descr fn w = (Normal (Plain v), Step_end s None w2) /\
      calls (Step_end s None w2) = calls w2 ++ [CallEnd s None] /\
      ends_of s (calls (Step_end s None w2))
        = ends_of s (calls w2) ++ [None]
  | (Throw e, w2) =>
      step nm descr fn w = (Throw e, Step_end s (Some e) w2) /\
      calls (Step_end s (Some e) w2) = calls w2 ++ [CallEnd s (Some e)] /\
      ends_of s (calls (Step_end s (Some e) w2))
        = ends_of s (calls w2) ++ [Some e]
  | (Normal (Async p), w2) =>
      exists q, step nm descr fn w = (Normal (Async q), w2) /\
        forall wl,
          match p wl with
          | (Fulfilled v, wl') =>
              q wl = (Fulfilled v, Step_end s None wl') /\
              calls (snd (q wl)) = calls wl' ++ [CallEnd s None] /\
              ends_of s (calls (snd (q wl)))
                = ends_of s (calls wl') ++ [None]
          | (Rejected e, wl') =>
              q wl = (Rejected e, Step_end s (Some e) wl') /\
              calls (snd (q wl)) = calls wl' ++ [CallEnd s (Some e)] /\
              ends_of s (calls (snd (q wl)))
                = ends_of s (calls wl') ++ [Some e]
          end
  end.
Proof.
  intros s w1. unfold step.
  destruct (Step_new_spec nm descr None w) as (o & Heq & _).
  unfold w1, s. rewrite Heq. cbv beta iota zeta. cbn [snd].
  match goal with |- context [fn ?x] => destruct (fn x) as [[[v|p]|e] w2] end.
  - rewrite calls_end, ends_of_snoc_end. done.
  - eexists. split; [reflexivity|]. intros wl.
    unfold catch_, then_. destruct (p wl) as [[v|e] wl']; cbn [snd];
      rewrite calls_end, ends_of_snoc_end; done.
  - rewrite calls_end, ends_of_snoc_end. done.
Qed.

(** The wrapper at work: a callback that throws, and a callback whose
    promise rejects later. *)
Example step_callback_throws :
  let e : Thrown := mkError "boom" None in
  let '(c, w) := step (T := unit) "S" None (fun w => (Throw e, w))
                   (clearSteps two_steps) in
  c = Throw e /\ currentSteps w = [] /\
  status <$> heap w !! 2%nat = Some FAILED /\
  ends_of 2%nat (calls w) = [Some e].
Proof. repeat split; reflexivity. Qed.

Example step_promise_rejects :
  let e : Thrown := mkError "boom" None in
  match step (T := unit) "S" None
          (fun w => (Normal (Async (fun w' => (Rejected e, w'))), w))
          (clearSteps two_steps) with
  | (Normal (Async q), w) =>
      currentSteps w = [2%nat] /\ ends_of 2%nat (calls w) = [] /\
      fst (q w) = Rejected e /\ currentSteps (snd (q w)) = [] /\
      status <$> heap (snd (q w)) !! 2%nat = Some FAILED /\
      ends_of 2%nat (calls (snd (q w))) = [Some e]
  | _ => False
  end.
Proof. repeat split; reflexivity. Qed.

End StepTrackerFacts.

(** * Properties of the orchestrator *)

Module OrchestratorFacts.
Import Reporter Reporter.QAgenticReporter.

Section Any_sinks.
Context {W : Type}.
Implicit Types (o : t W) (run : TestRunResult.t) (test : TestResult.t).

(** ** The fan-out loop *)

(** The entries the loop adds for the sinks [i], [i+1], ..., [i+n-1]. *)
Definition entries (ev : Event) (i n : nat) : list (nat * Event) :=
  map (fun k => (k, ev)) (seq i n).

Lemma entries_S ev i n : entries ev i (S n) = (i, ev) :: entries ev (S i) n.
Proof. done. Qed.

(** The loop calls the sinks in order.  It either goes through all of them,
    or stops at the first one that throws, with that error: the sinks before
    it have been called, the sinks after it have not. *)
Lemma fan_out_spec (call : BaseReporter W -> W -> Completion unit * W)
    (ev : Event) (rs : list (BaseReporter W)) :
  forall (i : nat) (w : W) (log : list (nat * Event)),
  match fan_out call ev i rs w log with
  | (Normal _, _, log') => log' = log ++ entries ev i (length rs)
  | (Throw e, w', log') =>
      exists (k : nat) (r : BaseReporter W) (wk : W),
        rs !! k = Some r /\ call r wk = (Throw e, w') /\
        log' = log ++ entries ev i (S k)
  end.
Proof.
  induction rs as [|r rs IH]; intros i w log; simpl.
  - by rewrite app_nil_r.
  - destruct (call r w) as [[[]|e] w'] eqn:Hcall.
    + specialize (IH (S i) w' (log ++ [(i, ev)])).
      destruct (fan_out call ev (S i) rs w' (log ++ [(i, ev)]))
        as [[[[]|e] w''] log'].
      * rewrite IH, <- app_assoc. done.
      * destruct IH as (k & r' & wk & Hk & Hthrow & ->).
        exists (S k), r', wk. split; [done|]. split; [done|].
        rewrite <- app_assoc. done.
    + exists 0%nat, r, w. done.
Qed.

(** Sinks none of whose callbacks [call] throws are all called. *)
Lemma fan_out_normal (call : BaseReporter W -> W -> Completion unit * W)
    (ev : Event) (rs : list (BaseReporter W)) :
  (forall r w, r ∈ rs -> fst (call r w) = Normal tt) ->
  forall (i : nat) (w : W) (log : list (nat * Event)),
    exists w', fan_out call ev i rs w log
               = (Normal tt, w', log ++ entries ev i (length rs)).
Proof.
  induction rs as [|r rs IH]; intros Hok i w log; simpl.
  - exists w. by rewrite app_nil_r.
  - pose proof (Hok r w (list_elem_of_here _ _)) as Hr.
    destruct (call r w) as [[[]|e] w']; [|discriminate Hr].
    destruct (IH (fun r' w0 Hin => Hok r' w0 (list_elem_of_further _ _ _ Hin))
                (S i) w' (log ++ [(i, ev)])) as (w'' & ->).
    exists w''. by rewrite <- app_assoc.
Qed.

Lemma for_reporters_frame call ev o :
  let o' := snd (for_reporters call ev o) in
  config o' = config o /\ reporters o' = reporters o /\
  currentRun o' = currentRun o /\ host o' = host o /\
  console o' = console o.
Proof.
  unfold for_reporters.
  destruct (fan_out call ev 0 (reporters o) (world o) (invoked o))
    as [[c w] log]. done.
Qed.

(** ** Counters *)

Definition count (s : Status) (ts : list TestResult.t) : nat :=
  length (filter (fun t => TestResult.status t = s) ts).

(** The tests whose status is none of the four that have a bucket. *)
Definition count_other (ts : list TestResult.t) : nat :=
  length (filter (fun t => TestResult.status t ∈ [PENDING; RUNNING; UNKNOWN])
            ts).

(** The counters of [run] are a recount of [ts]. *)
Definition recount (ts : list TestResult.t) run : Prop :=
  TestRunResult.tests run = ts /\
  TestRunResult.total run = length ts /\
  TestRunResult.passed run = count PASSED ts /\
  TestRunResult.failed run = count FAILED ts /\
  TestRunResult.broken run = count BROKEN ts /\
  TestRunResult.skipped run = count SKIPPED ts /\
  TestRunResult.total run =
    (TestRunResult.passed run + TestRunResult.failed run
     + TestRunResult.broken run + TestRunResult.skipped run
     + count_other ts)%nat.

Lemma count_snoc s ts test :
  count s (ts ++ [test])
  = (count s ts + if decide (TestResult.status test = s) then 1 else 0)%nat.
Proof.
  unfold count. rewrite filter_app, length_app. f_equal.
  rewrite filter_cons, filter_nil.
  by destruct (decide (TestResult.status test = s)).
Qed.

Lemma count_other_snoc ts test :
  count_other (ts ++ [test])
  = (count_other ts
     + if decide (TestResult.status test ∈ [PENDING; RUNNING; UNKNOWN])
       then 1 else 0)%nat.
Proof.
  unfold count_other. rewrite filter_app, length_app. f_equal.
  rewrite filter_cons, filter_nil.
  by destruct (decide (TestResult.status test ∈ [PENDING; RUNNING; UNKNOWN])).
Qed.

Lemma tests_tally test run d :
  TestRunResult.tests (seal d (tally test run))
  = TestRunResult.tests run ++ [test].
Proof. unfold tally. by destruct (TestResult.status test). Qed.

Lemma tally_recount ts run test :
  recount ts run -> recount (ts ++ [test]) (tally test run).
Proof.
  intros (Ht & Hn & Hp & Hf & Hb & Hs & Hsum).
  unfold recount. rewrite !count_snoc, count_other_snoc, length_app.
  unfold tally.
  destruct (TestResult.status test) eqn:Hst; simpl;
    rewrite Ht, ?Hn, ?Hp, ?Hf, ?Hb, ?Hs;
    repeat (destruct (decide _) as [Heq|Hne];
            [try discriminate Heq; try (by inversion Heq; set_solver)
            |try (exfalso; apply Hne; set_solver)]);
    repeat split; simpl; lia.
Qed.


(** ** The run slot *)

(** [reportTest] for each test of [ts], in order, whatever each call
    completes with. *)
Definition report_all (ts : list TestResult.t) o : t W :=
  fold_left (fun o test => snd (reportTest test o)) ts o.

Lemma new_run_recount options o : recount [] (fst (new_run options o)).
Proof.
  unfold new_run.
  destruct (truthy (TestRunResult.opt_id options));
    destruct (truthy (TestRunResult.opt_name options)); done.
Qed.

Lemma startRun_frame options o :
  let o' := snd (startRun options o) in
  config o' = config o /\ reporters o' = reporters o /\
  currentRun o' = Some (fst (new_run options o)) /\
  host o' = snd (new_run options o) /\ console o' = console o.
Proof.
  unfold startRun. destruct (new_run options o) as [run h].
  match goal with |- context [for_reporters ?c ?e ?x] =>
    pose proof (for_reporters_frame c e x) as Hf;
    destruct (for_reporters c e x) as [[[]|e'] o''] end;
    simpl in *; tauto.
Qed.

Lemma reportTest_frame test o run :
  currentRun o = Some run ->
  let o' := snd (reportTest test o) in
  config o' = config o /\ reporters o' = reporters o /\
  currentRun o' = Some (tally test run) /\ host o' = host o.
Proof.
  intros Hrun. unfold reportTest. rewrite Hrun.
  match goal with |- context [for_reporters ?c ?e ?x] =>
    pose proof (for_reporters_frame c e x) as Hf end.
  simpl in *. tauto.
Qed.

Lemma report_all_frame ts : forall o run ts0,
  currentRun o = Some run -> recount ts0 run ->
  let o' := report_all ts o in
  config o' = config o /\ reporters o' = reporters o /\ host o' = host o /\
  exists run', currentRun o' = Some run' /\ recount (ts0 ++ ts) run'.
Proof.
  induction ts as [|test ts IH]; intros o run ts0 Hrun Hrec; simpl.
  - rewrite app_nil_r. eauto 10.
  - destruct (reportTest_frame test o run Hrun) as (Hc & Hr & Hcur & Hh).
    destruct (IH (snd (reportTest test o)) (tally test run) (ts0 ++ [test])
                Hcur (tally_recount _ _ _ Hrec)) as (Hc' & Hr' & Hh' & Hex).
    rewrite <- app_assoc in Hex. simpl in Hex.
    split; [congruence|]. split; [congruence|]. split; [congruence|]. done.
Qed.

(** C2, as amended.  After [startRun] and any sequence of [reportTest] calls
    (whatever the sinks do), the run holds the reported tests in order,
    [total] is their number, every bucket is the number of reported tests
    with that status, and [total] is the sum of the four buckets plus the
    number of reported tests whose status is pending, running or unknown. *)
Theorem counters_recount_reported_tests
    (options : TestRunResult.partial) (ts : list TestResult.t) o :
  exists run,
    currentRun (report_all ts (snd (startRun options o))) = Some run /\
    TestRunResult.tests run = ts /\
    TestRunResult.total run = length ts /\
    TestRunResult.passed run = count PASSED ts /\
    TestRunResult.failed run = count FAILED ts /\
    TestRunResult.broken run = count BROKEN ts /\
    TestRunResult.skipped run = count SKIPPED ts /\
    TestRunResult.total run =
      (TestRunResult.passed run + TestRunResult.failed run
       + TestRunResult.broken run + TestRunResult.skipped run
       + count_other ts)%nat.
Proof.
  destruct (startRun_frame options o) as (_ & _ & Hcur & _).
  destruct (report_all_frame ts _ _ [] Hcur (new_run_recount options o))
    as (_ & _ & _ & run & Hrun & Hrec).
  exists run. split; [done|]. exact Hrec.
Qed.

(** C6.  [endRun] on an active run computes [passRate] from the counters:
    0 when [total] is 0, and otherwise the float [passed / total * 100]; the
    counters are not touched, and the run with this [passRate] is the one
    that is returned (or, when a sink throws, the one left in the slot).
    Scenario: [startRun], three passed tests and one failed test, [endRun]
    with sinks whose [endRun] returns: the result has total 4, passed 3,
    failed 1 and passRate 75. *)
Theorem endRun_computes_passRate o :
  (forall run, currentRun o = Some run ->
     let sealed := seal (Host.clock (host o) (Host.ticks (host o))) run in
     TestRunResult.passRate sealed =
       (if decide (TestRunResult.total run = 0%nat) then 0%float
        else (Number (TestRunResult.passed run)
              / Number (TestRunResult.total run) * 100)%float) /\
     TestRunResult.total sealed = TestRunResult.total run /\
     TestRunResult.passed sealed = TestRunResult.passed run /\
     (fst (endRun o) = Normal (Some sealed) \/
      exists e, fst (endRun o) = Throw e /\
                currentRun (snd (endRun o)) = Some sealed)) /\
  (forall options t1 t2 t3 t4,
     TestResult.status t1 = PASSED -> TestResult.status t2 = PASSED ->
     TestResult.status t3 = PASSED -> TestResult.status t4 = FAILED ->
     (forall r run w, r ∈ reporters o -> fst (sink_endRun r run w) = Normal tt) ->
     exists run,
       fst (endRun (report_all [t1; t2; t3; t4] (snd (startRun options o))))
         = Normal (Some run) /\
       TestRunResult.total run = 4%nat /\
       TestRunResult.passed run = 3%nat /\
       TestRunResult.failed run = 1%nat /\
       TestRunResult.passRate run = 75%float).
Proof.
  assert (Hgen : forall o' run, currentRun o' = Some run ->
            let sealed := seal (Host.clock (host o') (Host.ticks (host o'))) run in
            (fst (endRun o') = Normal (Some sealed) \/
             exists e, fst (endRun o') = Throw e /\
                       currentRun (snd (endRun o')) = Some sealed)).
  { intros o' run Hrun sealed. unfold endRun. rewrite Hrun. simpl. fold sealed.
    match goal with |- context [for_reporters ?c ?e ?x] =>
      pose proof (for_reporters_frame c e x) as Hf;
      destruct (for_reporters c e x) as [[[]|e'] o''] end; simpl in *.
    - by left.
    - right. exists e'. split; [done|]. tauto. }
  split.
  - intros run Hrun sealed. split; [|split; [done|split; [done|]]].
    + unfold sealed, seal; simpl.
      destruct (TestRunResult.total run); done.
    + by apply Hgen.
  - intros options t1 t2 t3 t4 H1 H2 H3 H4 Hok.
    destruct (startRun_frame options o) as (_ & Hrs & Hcur & _).
    destruct (report_all_frame [t1; t2; t3; t4] _ _ [] Hcur
                (new_run_recount options o))
      as (_ & Hrs' & _ & run & Hrun & Hrec).
    set (o4 := report_all _ _) in *.
    destruct Hrec as (_ & Hn & Hp & Hf & _). cbn [app] in Hn, Hp, Hf.
    assert (Hcp : count PASSED [t1; t2; t3; t4] = 3%nat).
    { unfold count. rewrite !filter_cons, filter_nil, H1, H2, H3, H4. done. }
    assert (Hcf : count FAILED [t1; t2; t3; t4] = 1%nat).
    { unfold count. rewrite !filter_cons, filter_nil, H1, H2, H3, H4. done. }
    exists (seal (Host.clock (host o4) (Host.ticks (host o4))) run).
    split.
    + unfold endRun. rewrite Hrun. simpl.
      unfold for_reporters. simpl.
      match goal with |- context [fan_out ?c ?e ?i ?rs ?w ?l] =>
        assert (Hok' : forall r w0, r ∈ rs -> fst (c r w0) = Normal tt);
        [|destruct (fan_out_normal c e rs Hok' i w l) as (w' & ->)] end;
        [|done].
      intros r w Hin. apply Hok. rewrite Hrs', Hrs in Hin. exact Hin.
    + unfold seal; simpl. rewrite Hn, Hp, Hf, Hcp, Hcf. done.
Qed.


(** ** Calls without an active run *)

(** The call made the orchestrator write a warning to the console. *)
Definition warned o o' : Prop :=
  exists msg, console o' = console o ++ [console_warn msg].

(** C8, as amended.  With no active run, [endRun] returns [null] and changes
    nothing at all: no sink is invoked and nothing is written to the console;
    [reportTest] returns, writes one warning to the console and changes
    nothing else: no sink is invoked and the slot stays empty.  Neither call
    throws. *)
Theorem calls_without_active_run_are_no_ops o test :
  currentRun o = None ->
  endRun o = (Normal None, o) /\
  reportTest test o
    = (Normal tt,
       print (console_warn "[QAgenticReporter] No active run to report test")
         o) /\
  warned o (snd (reportTest test o)) /\
  invoked (snd (reportTest test o)) = invoked o /\
  world (snd (reportTest test o)) = world o /\
  currentRun (snd (reportTest test o)) = None.
Proof.
  intros Hidle. unfold endRun, reportTest, warned. rewrite Hidle. simpl.
  split; [done|]. split; [done|]. split; [eauto|]. done.
Qed.

(** ** [startRun] during a run *)

(** C10.  [startRun] on an orchestrator whose slot holds a run [old] behaves
    exactly as on the same orchestrator with an empty slot: the outcome and
    the state after the call do not depend on [old].  The slot then holds the
    newly created run, with no test and all counters 0; the console is as
    before (nothing is logged about the overwrite); and the only callbacks
    the sinks receive are [startRun] callbacks for the new run, so no sink
    receives [endRun] for [old], and [old] is neither sealed nor returned. *)
Theorem startRun_overwrites_active_run o (old : TestRunResult.t)
    (options : TestRunResult.partial) :
  let active := set_currentRun (Some old) o in
  let fresh := fst (new_run options active) in
  startRun options active = startRun options (set_currentRun None o) /\
  currentRun (snd (startRun options active)) = Some fresh /\
  TestRunResult.tests fresh = [] /\
  TestRunResult.total fresh = 0%nat /\
  console (snd (startRun options active)) = console o /\
  (exists n, (n <= length (reporters o))%nat /\
     invoked (snd (startRun options active))
     = invoked o ++ entries (StartRun fresh) 0 n) /\
  (fst (startRun options active) = Normal fresh \/
   exists e, fst (startRun options active) = Throw e).
Proof.
  intros active fresh.
  destruct (startRun_frame options active) as (_ & _ & Hcur & _ & Hcon).
  destruct (new_run_recount options active) as (Ht & Hn & _).
  split; [done|]. split; [done|]. split; [done|]. split; [done|].
  split; [done|]. unfold startRun. fold fresh.
  destruct (new_run options active) as [run h] eqn:Hnew. simpl in fresh.
  unfold for_reporters; simpl.
  match goal with |- context [fan_out ?c ?e ?i ?rs ?w ?l] =>
    pose proof (fan_out_spec c e rs i w l) as Hspec;
    destruct (fan_out c e i rs w l) as [[[[]|e'] w'] log'] end; simpl.
  - split; [|by left]. exists (length (reporters o)). done.
  - destruct Hspec as (k & r & wk & Hk & _ & ->).
    split; [|right; eauto]. exists (S k). split; [|done].
    apply lookup_lt_Some in Hk. lia.
Qed.

(** ** A sink that throws *)

(** The world of the sinks after the callbacks [call] of the sinks [rs] ran
    in order from [w], and what it means that they all returned. *)
Fixpoint through (call : BaseReporter W -> W -> Completion unit * W)
    (rs : list (BaseReporter W)) (w : W) : W :=
  match rs with
  | [] => w
  | r :: rs' => through call rs' (snd (call r w))
  end.

Fixpoint all_return (call : BaseReporter W -> W -> Completion unit * W)
    (rs : list (BaseReporter W)) (w : W) : Prop :=
  match rs with
  | [] => True
  | r :: rs' => fst (call r w) = Normal tt /\ all_return call rs' (snd (call r w))
  end.

(** The loop when the sinks [pre] return and the sink after them throws:
    the loop ends there, with that error. *)
Lemma fan_out_throw (call : BaseReporter W -> W -> Completion unit * W)
    (ev : Event) (pre post : list (BaseReporter W)) (r : BaseReporter W)
    (e : Thrown) :
  forall (i : nat) (w : W) (log : list (nat * Event)),
    all_return call pre w ->
    fst (call r (through call pre w)) = Throw e ->
    fan_out call ev i (pre ++ r :: post) w log
    = (Throw e, snd (call r (through call pre w)),
       log ++ entries ev i (S (length pre))).
Proof.
  induction pre as [|r0 pre IH]; intros i w log Hret Hthrow; simpl in *.
  - destruct (call r w) as [[[]|e'] w']; simpl in *; [discriminate|].
    by inversion Hthrow.
  - destruct Hret as [Hr0 Hret].
    destruct (call r0 w) as [[[]|e'] w'] eqn:Hcall; simpl in *;
      [|discriminate].
    rewrite (IH (S i) w' (log ++ [(i, ev)]) Hret Hthrow).
    by rewrite <- app_assoc.
Qed.

Lemma for_reporters_throw (call : BaseReporter W -> W -> Completion unit * W)
    (ev : Event) o (pre post : list (BaseReporter W)) (r : BaseReporter W)
    (e : Thrown) :
  reporters o = pre ++ r :: post ->
  all_return call pre (world o) ->
  fst (call r (through call pre (world o))) = Throw e ->
  for_reporters call ev o
  = (Throw e,
     set_sinks (snd (call r (through call pre (world o))))
       (invoked o ++ entries ev 0 (S (length pre))) o).
Proof.
  intros Hrs Hret Hthrow. unfold for_reporters.
  by rewrite Hrs, (fan_out_throw call ev pre post r e 0 _ _ Hret Hthrow).
Qed.

(** C1, as amended.  The three fan-out loops have no [try]: they call the
    sinks in registration order and stop at the first callback that throws.
    When the sinks registered before a sink return and that sink's callback
    throws, the orchestrator's method throws the same error, the sinks
    registered before it and the sink itself have received the callback,
    and the sinks registered after it have not: the callbacks invoked are
    those of the sinks up to it, and the world of the sinks is the one that
    sink left.  What the method did before its loop stays done: after a
    throw in [reportTest] the test is counted and the run is still active,
    so a later [endRun] whose sinks return completes and returns the sealed
    run with that test; after a throw in [endRun] the sealed run stays in
    the slot; after a throw in [startRun] the new run is in the slot. *)
Theorem sink_error_ends_fan_out o (pre post : list (BaseReporter W))
    (r : BaseReporter W) (e : Thrown) :
  reporters o = pre ++ r :: post ->
  (forall test run,
     let call := fun s => sink_reportTest s test in
     currentRun o = Some run ->
     all_return call pre (world o) ->
     fst (call r (through call pre (world o))) = Throw e ->
     let o' := snd (reportTest test o) in
     fst (reportTest test o) = Throw e /\
     invoked o' = invoked o ++ entries (ReportTest test) 0 (S (length pre)) /\
     world o' = snd (call r (through call pre (world o))) /\
     currentRun o' = Some (tally test run) /\
     ((forall s run' w, s ∈ reporters o ->
         fst (sink_endRun s run' w) = Normal tt) ->
      exists sealed,
        fst (endRun o') = Normal (Some sealed) /\
        TestRunResult.tests sealed = TestRunResult.tests run ++ [test])) /\
  (forall run,
     let sealed := seal (Host.clock (host o) (Host.ticks (host o))) run in
     let call := fun s => sink_endRun s sealed in
     currentRun o = Some run ->
     all_return call pre (world o) ->
     fst (call r (through call pre (world o))) = Throw e ->
     let o' := snd (endRun o) in
     fst (endRun o) = Throw e /\
     invoked o' = invoked o ++ entries (EndRun sealed) 0 (S (length pre)) /\
     world o' = snd (call r (through call pre (world o))) /\
     currentRun o' = Some sealed) /\
  (forall options,
     let fresh := fst (new_run options o) in
     let call := fun s => sink_startRun s fresh in
     all_return call pre (world o) ->
     fst (call r (through call pre (world o))) = Throw e ->
     let o' := snd (startRun options o) in
     fst (startRun options o) = Throw e /\
     invoked o' = invoked o ++ entries (StartRun fresh) 0 (S (length pre)) /\
     world o' = snd (call r (through call pre (world o))) /\
     currentRun o' = Some fresh).
Proof.
  intros Hrs. split; [|split].
  - intros test run call Hrun Hret Hthrow o'.
    unfold o', reportTest. rewrite Hrun. cbv zeta.
    match goal with |- context [for_reporters ?c ?ev ?x] =>
      rewrite (for_reporters_throw c ev x pre post r e Hrs Hret Hthrow) end.
    cbn [fst snd]. split; [done|]. split; [done|]. split; [done|].
    split; [done|].
    intros Hok. unfold endRun. cbn [currentRun set_sinks print set_currentRun].
    unfold for_reporters; simpl.
    match goal with |- context [fan_out ?c ?e ?i ?rs ?w ?l] =>
      assert (Hok' : forall r w0, r ∈ rs -> fst (c r w0) = Normal tt);
      [|destruct (fan_out_normal c e rs Hok' i w l) as (w' & ->)] end.
    { intros s w Hin. by apply Hok. }
    eexists. split; [reflexivity|]. apply tests_tally.
  - intros run sealed call Hrun Hret Hthrow o'. unfold o', endRun.
    rewrite Hrun. cbn [Host.newDate]. fold sealed. cbv zeta.
    match goal with |- context [for_reporters ?c ?ev ?x] =>
      rewrite (for_reporters_throw c ev x pre post r e Hrs Hret Hthrow) end.
    done.
  - intros options fresh call Hret Hthrow o'. unfold o', startRun.
    unfold fresh, call in *. destruct (new_run options o) as [run h].
    cbn [fst snd] in *.
    match goal with |- context [for_reporters ?c ?ev ?x] =>
      rewrite (for_reporters_throw c ev x pre post r e Hrs Hret Hthrow) end.
    done.
Qed.

End Any_sinks.

(** ** The claims at sample inputs *)

Import Samples.

(** The specification's reading of the fan-out: every registered sink
    receives the event. *)
Definition reaches_every_sink {W : Type} (ev : Event) (o o' : t W) : Prop :=
  forall k, (k < length (reporters o))%nat ->
    (k, ev) ∈ drop (length (invoked o)) (invoked o').

(** C1 fails on the code: with a sink whose [reportTest] throws registered
    before a second sink, [reportTest] throws the sink's error and the second
    sink does not receive the test.  Likewise with the repository's own
    sinks: when the JUnit sink cannot write its file, [endRun] throws, the
    remote API sink registered after it never receives [endRun], and the
    buffered test is neither posted nor the run finalized. *)
Lemma throwing_sink_starves_later_sinks :
  (let active := snd (startRun no_options fragile) in
   let test := a_test "t" PASSED in
   fst (reportTest test active) = Throw boom /\
   world (snd (reportTest test active)) = world active /\
   ~ reaches_every_sink (ReportTest test) active
       (snd (reportTest test active))) /\
  (let active := snd (startRun no_options file_then_api) in
   let test := a_test "t" PASSED in
   let reported := snd (reportTest test active) in
   fst (endRun reported) = Throw (mkError "EACCES: permission denied" None) /\
   APIReporter.batch (snd (world (snd (endRun reported)))) = [test] /\
   length (APIReporter.requests (snd (world (snd (endRun reported))))) = 1%nat /\
   currentRun (snd (endRun reported)) <> None).
Proof.
  split.
  - intros active test. split; [reflexivity|]. split; [reflexivity|].
    intros Hall. specialize (Hall 1%nat). cbn in Hall.
    assert (Hin : (1%nat, ReportTest test) ∈ [(0%nat, ReportTest test)]).
    { apply Hall. lia. }
    apply list_elem_of_singleton in Hin. discriminate Hin.
  - intros active test reported.
    split; [vm_compute; reflexivity|]. split; [vm_compute; reflexivity|].
    split; [vm_compute; reflexivity|]. vm_compute. discriminate.
Qed.

Lemma sink_error_ends_fan_out_witness :
  let active := snd (startRun no_options fragile) in
  let test := a_test "t" PASSED in
  fst (reportTest test active) = Throw boom /\
  invoked (snd (reportTest test active))
  = invoked active ++ [(0%nat, ReportTest test)].
Proof.
  intros active test.
  destruct (sink_error_ends_fan_out active [] [counting_sink] throwing_sink
              boom eq_refl) as (Hreport & _ & _).
  destruct (Hreport test (fst (new_run no_options fragile)) eq_refl I eq_refl)
    as (Hthrow & Hinv & _).
  split; [exact Hthrow|exact Hinv].
Defined.

(** C2 fails on the code: one reported test with status unknown makes
    [total] 1 while the four buckets stay 0. *)
Lemma unknown_status_breaks_counter_sum :
  exists run,
    currentRun (report_all [a_test "t" UNKNOWN] (snd (startRun no_options idle)))
      = Some run /\
    TestRunResult.total run = 1%nat /\
    TestRunResult.total run <>
      (TestRunResult.passed run + TestRunResult.failed run
       + TestRunResult.broken run + TestRunResult.skipped run)%nat.
Proof. eexists. split; [reflexivity|]. split; [reflexivity|]. discriminate. Qed.

Lemma endRun_computes_passRate_witness :
  exists run,
    fst (endRun (report_all
                   [a_test "a" PASSED; a_test "b" PASSED; a_test "c" PASSED;
                    a_test "d" FAILED]
                   (snd (startRun no_options robust))))
      = Normal (Some run) /\
    TestRunResult.total run = 4%nat /\
    TestRunResult.passed run = 3%nat /\
    TestRunResult.failed run = 1%nat /\
    TestRunResult.passRate run = 75%float.
Proof.
  apply (proj2 (endRun_computes_passRate robust)); try reflexivity.
  intros r run w Hin. apply elem_of_cons in Hin as [->|Hin];
    [reflexivity|].
  apply list_elem_of_singleton in Hin as ->. reflexivity.
Defined.

(** C8 fails on the code: [endRun] without an active run writes no
    warning. *)
Lemma idle_endRun_logs_nothing :
  fst (endRun idle) = Normal None /\ ~ warned idle (snd (endRun idle)).
Proof.
  split; [reflexivity|]. intros [msg Hmsg]. discriminate Hmsg.
Qed.

Lemma calls_without_active_run_are_no_ops_witness :
  endRun idle = (Normal None, idle) /\
  invoked (snd (reportTest (a_test "t" PASSED) idle)) = invoked idle.
Proof.
  destruct (calls_without_active_run_are_no_ops idle (a_test "t" PASSED))
    as (Hend & _ & _ & Hinv & _); [reflexivity|].
  split; [exact Hend|exact Hinv].
Defined.

End OrchestratorFacts.

(** * Properties of the JUnit report *)

Module JUnitFacts.
Import Reporter XmlReader.

#[local] Arguments String.append !_ _ / : simpl nomatch.

Lemma append_assoc (a b c : string) : (a +:+ b) +:+ c = a +:+ (b +:+ c).
Proof. induction a as [|x a IH]; cbn; [done|]. by f_equal. Qed.

Lemma append_nil_r (a : string) : a +:+ EmptyString = a.
Proof. induction a as [|x a IH]; cbn; [done|]. by f_equal. Qed.

(** ** [escape], character by character *)

(** What [escape] writes for one character. *)
Definition escape_char (c : ascii) : string :=
  if Ascii.eqb c "&" then "&amp;"
  else if Ascii.eqb c "<" then "&lt;"
  else if Ascii.eqb c ">" then "&gt;"
  else if Ascii.eqb c quot then "&quot;"
  else String c EmptyString.

Lemma replaceAll_app (c : ascii) (by_ a b : string) :
  replaceAll c by_ (a +:+ b) = replaceAll c by_ a +:+ replaceAll c by_ b.
Proof.
  induction a as [|x a IH]; simpl; [done|].
  destruct (Ascii.eqb x c); simpl; rewrite IH; [|done].
  by rewrite append_assoc.
Qed.

(** The four passes of [escape] amount to one pass, character by
    character. *)
Lemma escape_cons (c : ascii) (s : string) :
  escape (String c s) = escape_char c +:+ escape s.
Proof.
  change (String c s) with (String c EmptyString +:+ s).
  unfold escape. rewrite !replaceAll_app. f_equal.
  destruct c as [[] [] [] [] [] [] [] []]; reflexivity.
Qed.

(** ** Texts that XML can carry *)

(** Every character of [s] is allowed by the production [Char]. *)
Fixpoint xml_text (s : string) : bool :=
  match s with
  | EmptyString => true
  | String c rest => is_char c && xml_text rest
  end.

(** A text that [generateXml] writes into an attribute value as it is: no
    control character, no double quote, no [<] and no [&]. *)
Definition plain_char (c : ascii) : bool :=
  (32 <=? nat_of_ascii c)%nat && negb (eqc c quot) && negb (eqc c "<")
  && negb (eqc c "&").

Fixpoint plain (s : string) : bool :=
  match s with
  | EmptyString => true
  | String c rest => plain_char c && plain rest
  end.

(** A text as an XML reader returns it from an attribute value. *)
Fixpoint blanked (s : string) : string :=
  match s with
  | EmptyString => EmptyString
  | String c rest => String (blank c) (blanked rest)
  end.

Lemma plain_app (a b : string) : plain (a +:+ b) = plain a && plain b.
Proof.
  induction a as [|x a IH]; simpl; [done|].
  rewrite IH. by rewrite andb_assoc.
Qed.

Lemma plain_digits (d : Decimal.uint) : plain (NilEmpty.string_of_uint d) = true.
Proof. induction d; simpl; done. Qed.

Lemma plain_Number (n : nat) : plain (Number_toString n) = true.
Proof. apply plain_digits. Qed.

Lemma plain_toFixed3 (ms : Z) : plain (toFixed3 ms) = true.
Proof.
  unfold toFixed3. cbv zeta. rewrite !plain_app, !plain_Number.
  destruct (ms <? 0);
    destruct (Z.to_nat (Z.abs ms mod 1000) <? 10)%nat;
    destruct (Z.to_nat (Z.abs ms mod 1000) <? 100)%nat; reflexivity.
Qed.

Lemma xml_text_or_else (o : option string) (d : string) :
  xml_text (default EmptyString o) = true -> xml_text d = true ->
  xml_text (or_else o d) = true.
Proof.
  intros Ho Hd. unfold or_else, truthy.
  destruct o as [x|]; [|done]. by destruct (decide (x = EmptyString)).
Qed.

(** ** The reader on concatenations *)

Lemma read_app (a b : string) (st : State) :
  read (a +:+ b) st = read a st ≫= read b.
Proof.
  revert st. induction a as [|c a IH]; intros st; simpl; [done|].
  destruct (feed st c) as [st'|]; [apply IH|done].
Qed.

(** A text written as it is into an attribute value is read as it is. *)
Lemma blank_plain (c : ascii) : plain_char c = true -> blank c = c.
Proof.
  intros Hc. unfold blank, is_space, eqc.
  destruct (Ascii.eqb_spec c " ") as [->|_]; [done|].
  destruct (Ascii.eqb_spec c "009") as [->|_]; [discriminate Hc|].
  destruct (Ascii.eqb_spec c "010") as [->|_]; [discriminate Hc|].
  destruct (Ascii.eqb_spec c "013") as [->|_]; [discriminate Hc|done].
Qed.

Lemma feed_value_plain (c : ascii) (k acc : string) d n a s r :
  plain_char c = true ->
  feed (mkState (AttValue k acc) d n a s r) c
  = Some (mkState (AttValue k (snoc acc c)) d n a s r).
Proof.
  intros Hc. pose proof (blank_plain c Hc) as Hb.
  unfold plain_char in Hc.
  apply andb_prop in Hc as [Hc Hamp]. apply andb_prop in Hc as [Hc Hlt].
  apply andb_prop in Hc as [Hc Hq].
  apply negb_true_iff in Hamp, Hlt, Hq.
  unfold feed. cbn [mode]. rewrite Hq, Hlt, Hamp.
  unfold is_char. rewrite Hc, orb_true_r. unfold go. cbn. by rewrite Hb.
Qed.

(** A text written as it is into an attribute value. *)
Lemma read_plain (v : string) :
  forall (k acc : string) d n a s r,
    plain v = true ->
    read v (mkState (AttValue k acc) d n a s r)
    = Some (mkState (AttValue k (acc +:+ v)) d n a s r).
Proof.
  induction v as [|c v IH]; intros k acc d n a s r Hv.
  - cbn. by rewrite append_nil_r.
  - cbn [plain] in Hv. apply andb_prop in Hv as [Hc Hv].
    cbn [read]. rewrite (feed_value_plain c k acc d n a s r Hc).
    rewrite (IH _ _ _ _ _ _ _ Hv). unfold snoc. by rewrite append_assoc.
Qed.

(** What an XML reader returns for the escaped form of one character in an
    attribute value. *)
Lemma read_escape_char_value (c : ascii) (k acc : string) d n a s r :
  is_char c = true ->
  read (escape_char c) (mkState (AttValue k acc) d n a s r)
  = Some (mkState (AttValue k (snoc acc (blank c))) d n a s r).
Proof.
  intros Hc. unfold escape_char.
  destruct (Ascii.eqb_spec c "&") as [->|H1]; [reflexivity|].
  destruct (Ascii.eqb_spec c "<") as [->|H2]; [reflexivity|].
  destruct (Ascii.eqb_spec c ">") as [->|H3]; [reflexivity|].
  destruct (Ascii.eqb_spec c quot) as [->|H4]; [reflexivity|].
  cbn [read]. unfold feed. cbn [mode]. unfold eqc.
  rewrite (proj2 (Ascii.eqb_neq _ _) H4), (proj2 (Ascii.eqb_neq _ _) H2),
    (proj2 (Ascii.eqb_neq _ _) H1), Hc.
  reflexivity.
Qed.

Lemma read_escaped_value (v : string) :
  forall (k acc : string) d n a s r,
    xml_text v = true ->
    read (escape v) (mkState (AttValue k acc) d n a s r)
    = Some (mkState (AttValue k (acc +:+ blanked v)) d n a s r).
Proof.
  induction v as [|c v IH]; intros k acc d n a s r Hv.
  - cbn. by rewrite append_nil_r.
  - cbn [xml_text] in Hv. apply andb_prop in Hv as [Hc Hv].
    rewrite escape_cons, read_app, (read_escape_char_value c _ _ _ _ _ _ _ Hc).
    cbn [mbind option_bind]. rewrite (IH _ _ _ _ _ _ _ Hv).
    unfold snoc. cbn [blanked]. by rewrite append_assoc.
Qed.

(** The escaped form of a text, read as character data. *)
Lemma read_escape_char_content (c : ascii) d n a s r :
  is_char c = true ->
  read (escape_char c) (mkState Content d n a s r)
  = Some (mkState Content d n a s r).
Proof.
  intros Hc. unfold escape_char.
  destruct (Ascii.eqb_spec c "&") as [->|H1]; [reflexivity|].
  destruct (Ascii.eqb_spec c "<") as [->|H2]; [reflexivity|].
  destruct (Ascii.eqb_spec c ">") as [->|H3]; [reflexivity|].
  destruct (Ascii.eqb_spec c quot) as [->|H4]; [reflexivity|].
  cbn [read]. unfold feed. cbn [mode]. unfold eqc.
  rewrite (proj2 (Ascii.eqb_neq _ _) H2), (proj2 (Ascii.eqb_neq _ _) H1),
    (proj2 (Ascii.eqb_neq _ _) H3), Hc.
  reflexivity.
Qed.

Lemma read_escaped_content (v : string) :
  forall d n a s r,
    xml_text v = true ->
    read (escape v) (mkState Content d n a s r)
    = Some (mkState Content d n a s r).
Proof.
  induction v as [|c v IH]; intros d n a s r Hv; [done|].
  cbn [xml_text] in Hv. apply andb_prop in Hv as [Hc Hv].
  rewrite escape_cons, read_app, (read_escape_char_content c _ _ _ _ _ Hc).
  cbn [mbind option_bind]. by apply IH.
Qed.

(** ** Attributes and tags *)

(** [text] is read as the attribute value [v]. *)
Definition reads_as_value (text v : string) : Prop :=
  forall k d n a s r,
    read text (mkState (AttValue k EmptyString) d n a s r)
    = Some (mkState (AttValue k v) d n a s r).

Lemma plain_reads (v : string) : plain v = true -> reads_as_value v v.
Proof. intros Hv k d n a s r. by rewrite read_plain. Qed.

Lemma escaped_reads (v : string) :
  xml_text v = true -> reads_as_value (escape v) (blanked v).
Proof. intros Hv k d n a s r. by rewrite read_escaped_value. Qed.

(** An attribute value and the double quote that ends it. *)
Lemma read_quoted (text v rest k : string) d n a s r :
  reads_as_value text v -> has k a = false ->
  read (text +:+ dq +:+ rest) (mkState (AttValue k EmptyString) d n a s r)
  = read rest (mkState AfterValue d n (a ++ [(k, v)]) s r).
Proof.
  intros Hval Hnew. rewrite read_app, Hval. cbn [mbind option_bind].
  unfold dq. change (read (String quot EmptyString +:+ rest) ?st)
    with (feed st quot ≫= read rest).
  unfold feed. cbn [mode attrs]. unfold eqc.
  by rewrite Ascii.eqb_refl, Hnew.
Qed.

(** The elements that the reader returns for a test. *)
Definition add_child (parent e : Element) : Element :=
  mkElement (tag parent) (attributes parent) (children parent ++ [e]).

Definition add_children (parent : Element) (es : list Element) : Element :=
  mkElement (tag parent) (attributes parent) (children parent ++ es).

Definition outcome_element (kind dflt_message dflt_type : string)
    (test : TestResult.t) : Element :=
  mkElement kind
    [("message",
      blanked (or_else (TestResult.errorMessage test) dflt_message));
     ("type", blanked (or_else (TestResult.errorType test) dflt_type))]%string
    [].

Definition testcase_element (test : TestResult.t) : Element :=
  mkElement "testcase"
    [("name", blanked (TestResult.name test));
     ("classname", blanked (TestResult.fullName test));
     ("time", toFixed3 (TestResult.durationMs test))]%string
    match TestResult.status test with
    | FAILED => [outcome_element "failure" "Test failed" "AssertionError" test]
    | BROKEN => [outcome_element "error" "Test error" "Error" test]
    | SKIPPED =>
        [mkElement "skipped"
           match truthy (TestResult.errorMessage test) with
           | Some m => [("message", blanked m)]%string
           | None => []
           end []]
    | _ => []
    end.

(** The texts of a test that [generateXml] may write are XML texts. *)
Definition test_safe (test : TestResult.t) : bool :=
  xml_text (TestResult.name test) && xml_text (TestResult.fullName test)
  && xml_text (default EmptyString (TestResult.errorMessage test))
  && xml_text (default EmptyString (TestResult.errorType test))
  && xml_text (default EmptyString (TestResult.stackTrace test)).

Lemma xml_text_truthy (o : option string) (m : string) :
  xml_text (default EmptyString o) = true -> truthy o = Some m ->
  xml_text m = true.
Proof.
  unfold truthy. destruct o as [x|]; [|done].
  destruct (decide (x = EmptyString)); [done|]. by intros ? [= <-].
Qed.

Ltac quoted v :=
  rewrite (read_quoted _ v);
  [|first [apply escaped_reads; by auto | by apply plain_reads]|reflexivity].

Lemma read_testcase (test : TestResult.t) (rest : string)
    (top : Element) (s : list Element) (r : option Element) :
  test_safe test = true ->
  read (testcase EmptyString test +:+ rest)
    (mkState Content false EmptyString [] (top :: s) r)
  = read rest
      (mkState Content false EmptyString []
         (add_child top (testcase_element test) :: s) r).
Proof.
  unfold test_safe. intros Hsafe.
  apply andb_prop in Hsafe as [Hsafe Hstack].
  apply andb_prop in Hsafe as [Hsafe Htype].
  apply andb_prop in Hsafe as [Hsafe Hmsg].
  apply andb_prop in Hsafe as [Hname Hfull].
  pose proof (plain_toFixed3 (TestResult.durationMs test)) as Htime.
  assert (Hhead : forall tail,
    read ("  <testcase name=" +:+ dq +:+ escape (TestResult.name test) +:+ dq
          +:+ " " +:+ "classname=" +:+ dq
          +:+ escape (TestResult.fullName test) +:+ dq +:+ " " +:+ "time="
          +:+ dq +:+ toFixed3 (TestResult.durationMs test) +:+ dq +:+ tail)
      (mkState Content false EmptyString [] (top :: s) r)
    = read tail
        (mkState AfterValue false "testcase"
           [("name", blanked (TestResult.name test));
            ("classname", blanked (TestResult.fullName test));
            ("time", toFixed3 (TestResult.durationMs test))]%string
           (top :: s) r)).
  { intros tail.
    change (read ("  <testcase name=" +:+ dq +:+ ?x) ?st)
      with (read x (mkState (AttValue "name" EmptyString) false "testcase" []
                      (top :: s) r)).
    quoted (blanked (TestResult.name test)).
    change (read (" " +:+ "classname=" +:+ dq +:+ ?x)
              (mkState AfterValue ?d ?n ?a ?stk ?rt))
      with (read x (mkState (AttValue "classname" EmptyString) d n a stk rt)).
    quoted (blanked (TestResult.fullName test)).
    change (read (" " +:+ "time=" +:+ dq +:+ ?x)
              (mkState AfterValue ?d ?n ?a ?stk ?rt))
      with (read x (mkState (AttValue "time" EmptyString) d n a stk rt)).
    quoted (toFixed3 (TestResult.durationMs test)).
    reflexivity. }
  assert (Hm : forall d, xml_text d = true ->
            xml_text (or_else (TestResult.errorMessage test) d) = true)
    by (intros; by apply xml_text_or_else).
  assert (Ht : forall d, xml_text d = true ->
            xml_text (or_else (TestResult.errorType test) d) = true)
    by (intros; by apply xml_text_or_else).
  assert (Hst : forall st, truthy (TestResult.stackTrace test) = Some st ->
            xml_text st = true)
    by (intros st; by apply xml_text_truthy).
  assert (Hsk : forall m, truthy (TestResult.errorMessage test) = Some m ->
            xml_text m = true)
    by (intros m; by apply xml_text_truthy).
  unfold testcase, testcase_element, outcome_element. cbv zeta.
  destruct (TestResult.status test).
  - rewrite !append_assoc. change (EmptyString +:+ ?x) with x.
    rewrite Hhead. reflexivity.
  - destruct (truthy (TestResult.stackTrace test)) as [st|] eqn:Est;
      rewrite !append_assoc; change (EmptyString +:+ ?x) with x;
      rewrite Hhead;
      change (read (">" +:+ nl +:+ "    <failure message=" +:+ dq +:+ ?x)
                (mkState AfterValue ?d ?n ?a ?stk ?rt))
        with (read x (mkState (AttValue "message" EmptyString) false "failure"
                        [] (mkElement n a [] :: stk) rt));
      quoted (blanked (or_else (TestResult.errorMessage test) "Test failed"));
      change (read (" " +:+ "type=" +:+ dq +:+ ?x)
                (mkState AfterValue ?d ?n ?a ?stk ?rt))
        with (read x (mkState (AttValue "type" EmptyString) d n a stk rt));
      quoted (blanked (or_else (TestResult.errorType test) "AssertionError")).
    + change (read (">" +:+ ?x) (mkState AfterValue ?d ?n ?a ?stk ?rt))
        with (read x (mkState Content false EmptyString []
                        (mkElement n a [] :: stk) rt)).
      rewrite read_app, read_escaped_content by auto. reflexivity.
    + reflexivity.
  - destruct (truthy (TestResult.stackTrace test)) as [st|] eqn:Est;
      rewrite !append_assoc; change (EmptyString +:+ ?x) with x;
      rewrite Hhead;
      change (read (">" +:+ nl +:+ "    <error message=" +:+ dq +:+ ?x)
                (mkState AfterValue ?d ?n ?a ?stk ?rt))
        with (read x (mkState (AttValue "message" EmptyString) false "error"
                        [] (mkElement n a [] :: stk) rt));
      quoted (blanked (or_else (TestResult.errorMessage test) "Test error"));
      change (read (" " +:+ "type=" +:+ dq +:+ ?x)
                (mkState AfterValue ?d ?n ?a ?stk ?rt))
        with (read x (mkState (AttValue "type" EmptyString) d n a stk rt));
      quoted (blanked (or_else (TestResult.errorType test) "Error")).
    + change (read (">" +:+ ?x) (mkState AfterValue ?d ?n ?a ?stk ?rt))
        with (read x (mkState Content false EmptyString []
                        (mkElement n a [] :: stk) rt)).
      rewrite read_app, read_escaped_content by auto. reflexivity.
    + reflexivity.
  - destruct (truthy (TestResult.errorMessage test)) as [m|] eqn:Em;
      rewrite !append_assoc; change (EmptyString +:+ ?x) with x;
      rewrite Hhead.
    + change (read (">" +:+ nl +:+ "    <skipped" +:+ " message=" +:+ dq
                    +:+ ?x)
                (mkState AfterValue ?d ?n ?a ?stk ?rt))
        with (read x (mkState (AttValue "message" EmptyString) false "skipped"
                        [] (mkElement n a [] :: stk) rt)).
      quoted (blanked m). reflexivity.
    + reflexivity.
  - rewrite !append_assoc. change (EmptyString +:+ ?x) with x.
    rewrite Hhead. reflexivity.
  - rewrite !append_assoc. change (EmptyString +:+ ?x) with x.
    rewrite Hhead. reflexivity.
  - rewrite !append_assoc. change (EmptyString +:+ ?x) with x.
    rewrite Hhead. reflexivity.
Qed.

(** ** The document *)

Lemma testcase_prefix (xml : string) (test : TestResult.t) :
  testcase xml test = xml +:+ testcase EmptyString test.
Proof.
  unfold testcase.
  destruct (TestResult.status test);
    destruct (truthy (TestResult.stackTrace test));
    destruct (truthy (TestResult.errorMessage test));
    cbv zeta; rewrite ?append_assoc; reflexivity.
Qed.

Lemma fold_testcase_prefix (ts : list TestResult.t) : forall xml,
  fold_left testcase ts xml = xml +:+ fold_left testcase ts EmptyString.
Proof.
  induction ts as [|test ts IH]; intros xml; simpl.
  - by rewrite append_nil_r.
  - rewrite IH, testcase_prefix, append_assoc.
    rewrite (IH (testcase EmptyString test)). done.
Qed.

Lemma read_testcases (ts : list TestResult.t) :
  forall (rest : string) (top : Element) (s : list Element)
         (r : option Element),
    forallb test_safe ts = true ->
    read (fold_left testcase ts EmptyString +:+ rest)
      (mkState Content false EmptyString [] (top :: s) r)
    = read rest
        (mkState Content false EmptyString []
           (add_children top (map testcase_element ts) :: s) r).
Proof.
  induction ts as [|test ts IH]; intros rest top s r Hsafe.
  - destruct top as [t a c]. unfold add_children. cbn.
    by rewrite app_nil_r.
  - cbn [forallb] in Hsafe. apply andb_prop in Hsafe as [Htest Hsafe].
    cbn [fold_left]. rewrite fold_testcase_prefix, append_assoc.
    rewrite read_testcase by done. rewrite IH by done.
    unfold add_children, add_child. cbn [tag attributes children map].
    by rewrite <- app_assoc.
Qed.

(** The [timestamp] attribute: [run.startTime?.toISOString() || ''] *)
Definition timestamp (h : Host.t) (run : TestRunResult.t) : string :=
  match TestRunResult.startTime run with
  | Some d => or_else (Some (Host.toISOString h d)) EmptyString
  | None => EmptyString
  end.

(** The element that an XML reader returns for the document of a run. *)
Definition testsuite_element (h : Host.t) (run : TestRunResult.t) : Element :=
  mkElement "testsuite"
    [("name", blanked (TestRunResult.projectName run));
     ("tests", Number_toString (TestRunResult.total run));
     ("failures", Number_toString (TestRunResult.failed run));
     ("errors", Number_toString (TestRunResult.broken run));
     ("skipped", Number_toString (TestRunResult.skipped run));
     ("time", toFixed3 (TestRunResult.durationMs run));
     ("timestamp", timestamp h run)]%string
    (map testcase_element (TestRunResult.tests run)).

(** The texts of a run that [generateXml] writes can stand in an XML
    document: the project name and the texts of every test hold only
    characters that XML allows, and the time stamp, which is written as the
    host renders it, has no control character, double quote, [<] or [&]. *)
Definition xml_safe (h : Host.t) (run : TestRunResult.t) : bool :=
  xml_text (TestRunResult.projectName run) && plain (timestamp h run)
  && forallb test_safe (TestRunResult.tests run).

(** The document up to and including the [skipped] attribute of the
    [testsuite] start tag. *)
Definition suite_head (run : TestRunResult.t) : string :=
  "<?xml version=" +:+ dq +:+ "1.0" +:+ dq +:+ " encoding=" +:+ dq
  +:+ "UTF-8" +:+ dq +:+ "?>" +:+ nl
  +:+ "<testsuite name=" +:+ dq
  +:+ escape (TestRunResult.projectName run) +:+ dq +:+ " "
  +:+ "tests=" +:+ dq
  +:+ Number_toString (TestRunResult.total run) +:+ dq +:+ " "
  +:+ "failures=" +:+ dq
  +:+ Number_toString (TestRunResult.failed run) +:+ dq +:+ " "
  +:+ "errors=" +:+ dq
  +:+ Number_toString (TestRunResult.broken run) +:+ dq +:+ " "
  +:+ "skipped=" +:+ dq
  +:+ Number_toString (TestRunResult.skipped run) +:+ dq +:+ " ".

(** The rest of the document. *)
Definition suite_tail (h : Host.t) (run : TestRunResult.t) : string :=
  "time=" +:+ dq +:+ toFixed3 (TestRunResult.durationMs run) +:+ dq +:+ " "
  +:+ "timestamp=" +:+ dq +:+ timestamp h run +:+ dq +:+ ">" +:+ nl
  +:+ fold_left testcase (TestRunResult.tests run) EmptyString
  +:+ "</testsuite>" +:+ nl.

Lemma generateXml_head (h : Host.t) (run : TestRunResult.t) :
  generateXml h run = suite_head run +:+ suite_tail h run.
Proof.
  unfold generateXml, suite_head, suite_tail, timestamp. cbv zeta.
  rewrite fold_testcase_prefix. rewrite !append_assoc. reflexivity.
Qed.

Lemma read_document (h : Host.t) (run : TestRunResult.t) :
  xml_safe h run = true ->
  read (generateXml h run) initial
  = Some (mkState Misc false EmptyString [] []
            (Some (testsuite_element h run))).
Proof.
  unfold xml_safe. intros Hsafe.
  apply andb_prop in Hsafe as [Hsafe Htests].
  apply andb_prop in Hsafe as [Hname Hstamp].
  rewrite generateXml_head. unfold suite_head, suite_tail.
  rewrite !append_assoc.
  change (read ("<?xml version=" +:+ dq +:+ "1.0" +:+ dq +:+ " encoding="
                +:+ dq +:+ "UTF-8" +:+ dq +:+ "?>" +:+ nl
                +:+ "<testsuite name=" +:+ dq +:+ ?x) initial)
    with (read x (mkState (AttValue "name" EmptyString) false "testsuite" []
                    [] None)).
  quoted (blanked (TestRunResult.projectName run)).
  change (read (" " +:+ "tests=" +:+ dq +:+ ?x)
            (mkState AfterValue ?d ?n ?a ?stk ?rt))
    with (read x (mkState (AttValue "tests" EmptyString) d n a stk rt)).
  pose proof (plain_Number (TestRunResult.total run)).
  pose proof (plain_Number (TestRunResult.failed run)).
  pose proof (plain_Number (TestRunResult.broken run)).
  pose proof (plain_Number (TestRunResult.skipped run)).
  pose proof (plain_toFixed3 (TestRunResult.durationMs run)).
  quoted (Number_toString (TestRunResult.total run)).
  change (read (" " +:+ "failures=" +:+ dq +:+ ?x)
            (mkState AfterValue ?d ?n ?a ?stk ?rt))
    with (read x (mkState (AttValue "failures" EmptyString) d n a stk rt)).
  quoted (Number_toString (TestRunResult.failed run)).
  change (read (" " +:+ "errors=" +:+ dq +:+ ?x)
            (mkState AfterValue ?d ?n ?a ?stk ?rt))
    with (read x (mkState (AttValue "errors" EmptyString) d n a stk rt)).
  quoted (Number_toString (TestRunResult.broken run)).
  change (read (" " +:+ "skipped=" +:+ dq +:+ ?x)
            (mkState AfterValue ?d ?n ?a ?stk ?rt))
    with (read x (mkState (AttValue "skipped" EmptyString) d n a stk rt)).
  quoted (Number_toString (TestRunResult.skipped run)).
  change (read (" " +:+ "time=" +:+ dq +:+ ?x)
            (mkState AfterValue ?d ?n ?a ?stk ?rt))
    with (read x (mkState (AttValue "time" EmptyString) d n a stk rt)).
  quoted (toFixed3 (TestRunResult.durationMs run)).
  change (read (" " +:+ "timestamp=" +:+ dq +:+ ?x)
            (mkState AfterValue ?d ?n ?a ?stk ?rt))
    with (read x (mkState (AttValue "timestamp" EmptyString) d n a stk rt)).
  quoted (timestamp h run).
  change (read (">" +:+ nl +:+ ?x) (mkState AfterValue ?d ?n ?a ?stk ?rt))
    with (read x (mkState Content d EmptyString []
                    (mkElement n a [] :: stk) rt)).
  rewrite read_testcases by done.
  reflexivity.
Qed.

(** ** The file that holds the document *)

Lemma split_slash_cons (s : string) : exists x xs, split_slash s = x :: xs.
Proof.
  induction s as [|c s (x & xs & IH)]; cbn [split_slash]; [by eauto|].
  destruct (Ascii.eqb c "/"); [by eauto|]. rewrite IH. by eauto.
Qed.

Lemma split_slash_join (a b : string) :
  split_slash (a +:+ "/" +:+ b) = split_slash a ++ split_slash b.
Proof.
  induction a as [|c a IH]; [reflexivity|].
  change (String c a +:+ "/" +:+ b) with (String c (a +:+ "/" +:+ b)).
  cbn [split_slash]. rewrite IH.
  destruct (Ascii.eqb c "/"); [reflexivity|].
  by destruct (split_slash_cons a) as (x & xs & ->).
Qed.

Lemma normalizeSegments_file (above : bool) (segments : list string) :
  forall res,
    normalizeSegments above (segments ++ ["junit.xml"]) res
    = normalizeSegments above segments res ++ ["junit.xml"].
Proof.
  induction segments as [|seg segments IH]; intros res; [reflexivity|].
  cbn [app normalizeSegments].
  destruct (String.eqb seg EmptyString || String.eqb seg "."); [apply IH|].
  destruct (String.eqb seg ".."); [|apply IH].
  destruct res as [|top res]; [destruct above; apply IH|].
  destruct (String.eqb top ".."); [|apply IH].
  destruct above; apply IH.
Qed.

Lemma join_slash_file (segments : list string) :
  exists dir, join_slash (segments ++ ["junit.xml"]) = dir +:+ "junit.xml".
Proof.
  induction segments as [|seg segments (dir & IH)]; [by exists EmptyString|].
  cbn [app join_slash]. rewrite IH.
  destruct segments; exists (seg +:+ "/" +:+ dir); cbn [app];
    by rewrite !append_assoc.
Qed.

Lemma file_not_directory (dir : string) :
  trailingSeparator (dir +:+ "junit.xml") = false
  /\ dir +:+ "junit.xml" <> EmptyString.
Proof.
  induction dir as [|c dir [IH Hne]]; [done|]. split; [|done].
  change (String c dir +:+ "junit.xml") with (String c (dir +:+ "junit.xml")).
  cbn [trailingSeparator]. by destruct (dir +:+ "junit.xml").
Qed.

(** [path.join(dir, 'junit.xml')] names a file called [junit.xml]. *)
Lemma path_join_file (dir : string) :
  exists holder, path_join dir "junit.xml" = holder +:+ "junit.xml".
Proof.
  destruct dir as [|c dir]; [by exists EmptyString|].
  unfold path_join, normalize.
  destruct (file_not_directory (String c dir +:+ "/")) as [Htrail Hne].
  rewrite append_assoc in Htrail, Hne. rewrite Htrail.
  destruct (String c dir +:+ "/" +:+ "junit.xml") eqn:Epath; [done|].
  rewrite <- Epath. unfold locate. rewrite split_slash_join.
  change (split_slash "junit.xml") with ["junit.xml"%string].
  rewrite normalizeSegments_file.
  destruct (join_slash_file
              (normalizeSegments (negb (isAbsolute (String c dir +:+ "/"
                                                    +:+ "junit.xml")))
                 (split_slash (String c dir)) [])) as (holder & Hjoin).
  destruct (isAbsolute _);
    destruct (normalizeSegments _ _ _ ++ _) as [|seg segs] eqn:Esegs;
    try (by destruct (normalizeSegments _ _ _)).
  - exists ("/" +:+ holder). unfold render.
    by rewrite Hjoin, append_nil_r, append_assoc.
  - exists holder. unfold render. by rewrite Hjoin, append_nil_r.
Qed.

(** What [JUnitReporter.endRun] does when local output is enabled with the
    junit format: either the directory that holds the file exists, the
    file's name is not that of a directory and the file system accepts the
    write, and the file then holds the document; or the call throws and the
    file system is as it was. *)
Lemma junit_endRun_outcome (config : Config.t) (h : Host.t)
    (run : TestRunResult.t) (fs : FileSystem) :
  let junitFile := path_join (JUnitReporter.outputDir config) "junit.xml" in
  let name := render (locate junitFile) in
  let holder := render (parent (locate junitFile)) in
  Config.local_enabled (Config.local config) = true ->
  Config.junit ∈ Config.local_formats (Config.local config) ->
  (is_directory holder fs = true /\ is_directory name fs = false
   /\ refuses_writes fs = false
   /\ JUnitReporter.endRun config h run fs
      = (Normal tt,
         mkFS (<[name := generateXml h run]> (files fs)) (dirs fs) false))
  \/ ((is_directory holder fs = false \/ is_directory name fs = true
       \/ refuses_writes fs = true)
      /\ exists e, JUnitReporter.endRun config h run fs = (Throw e, fs)).
Proof.
  intros junitFile name holder Hen Hfmt. subst name holder.
  unfold JUnitReporter.endRun.
  rewrite Hen, (bool_decide_eq_true_2 _ Hfmt). cbn [negb orb]. cbv zeta.
  fold junitFile.
  destruct (path_join_file (JUnitReporter.outputDir config))
    as (dir & Hfile).
  destruct (file_not_directory dir) as [Htrail Hne].
  fold junitFile in Hfile. rewrite <- Hfile in Htrail, Hne. clear Hfile.
  clearbody junitFile. unfold writeFileSync.
  destruct junitFile as [|c rest] eqn:Efile; [done|].
  rewrite <- Efile in *. cbv zeta. rewrite Htrail, orb_false_r.
  destruct (is_directory (render (parent (locate junitFile))) fs);
    cbn [negb]; [|right; split; [by left|by eauto]].
  destruct (is_directory (render (locate junitFile)) fs);
    [right; split; [by right; left|by eauto]|].
  destruct (refuses_writes fs);
    [right; split; [by right; right|by eauto]|].
  by left.
Qed.

(** Reading the decimal rendering of a counter gives the counter. *)
Lemma parse_Number (n : nat) :
  Nat.of_uint <$> NilEmpty.uint_of_string (Number_toString n) = Some n.
Proof.
  unfold Number_toString. rewrite NilEmpty.usu. simpl.
  by rewrite DecimalNat.Unsigned.of_to.
Qed.

(** C7, as amended.  The text that [generateXml] builds for a run starts
    with the XML declaration and the [testsuite] start tag, whose [tests],
    [failures], [errors] and [skipped] attributes are the decimal renderings
    of the run's [total], [failed], [broken] and [skipped], whatever the run
    and the host.  When the texts of the run can stand in an XML document
    ([xml_safe]: the project name and the names, messages, types and stack
    traces of the tests hold only characters that XML allows, and the
    host's time stamp needs no escaping), the text is a well-formed
    document: the XML reader returns the [testsuite] element with one
    [testcase] child per test, in order, and its four counters are those of
    the run.  [JUnitReporter.endRun], when local output is enabled with the
    junit format, stores exactly this text under the resolved name of
    [path.join(outputDir, 'junit.xml')] when the directory that holds the
    file exists, the name is not a directory's and the file system accepts
    the write; whenever it returns, the file holds the text; and when the
    directory is missing it throws and leaves the file system as it was. *)
Theorem junit_counters_round_trip (h : Host.t) (run : TestRunResult.t) :
  generateXml h run = suite_head run +:+ suite_tail h run /\
  (xml_safe h run = true ->
   exists doc,
     parse (generateXml h run) = Some doc /\
     doc = testsuite_element h run /\
     length (children doc) = length (TestRunResult.tests run) /\
     counter "tests" doc = Some (TestRunResult.total run) /\
     counter "failures" doc = Some (TestRunResult.failed run) /\
     counter "errors" doc = Some (TestRunResult.broken run) /\
     counter "skipped" doc = Some (TestRunResult.skipped run)) /\
  (forall (config : Config.t) (fs : FileSystem),
     let junitFile := path_join (JUnitReporter.outputDir config) "junit.xml" in
     let name := render (locate junitFile) in
     let holder := render (parent (locate junitFile)) in
     Config.local_enabled (Config.local config) = true ->
     Config.junit ∈ Config.local_formats (Config.local config) ->
     (is_directory holder fs = true -> is_directory name fs = false ->
      refuses_writes fs = false ->
      JUnitReporter.endRun config h run fs
      = (Normal tt,
         mkFS (<[name := generateXml h run]> (files fs)) (dirs fs) false)) /\
     (fst (JUnitReporter.endRun config h run fs) = Normal tt ->
      files (snd (JUnitReporter.endRun config h run fs)) !! name
      = Some (generateXml h run)) /\
     (is_directory holder fs = false ->
      exists e, JUnitReporter.endRun config h run fs = (Throw e, fs))).
Proof.
  split; [apply generateXml_head|]. split.
  - intros Hsafe. exists (testsuite_element h run).
    split; [unfold parse; by rewrite (read_document h run Hsafe)|].
    split; [reflexivity|].
    split; [cbn [testsuite_element children]; by rewrite length_map|].
    unfold counter, testsuite_element. cbn [attributes].
    repeat split; apply parse_Number.
  - intros config fs junitFile name holder Hen Hfmt.
    subst name holder junitFile.
    pose proof (junit_endRun_outcome config h run fs Hen Hfmt) as Hout.
    cbv zeta in Hout.
    destruct Hout as [(Hholder & Hname & Hrefuses & Hrun)|(Hwhy & e & Hrun)].
    + split; [done|]. split; [|congruence].
      intros _. rewrite Hrun. cbn [snd files]. apply lookup_insert_eq.
    + split; [|split].
      * intros Hholder Hname Hrefuses.
        destruct Hwhy as [?|[?|?]]; congruence.
      * rewrite Hrun. done.
      * intros _. by exists e.
Qed.

Lemma junit_counters_round_trip_witness :
  let run :=
    TestRunResult.Make "id" "n" "P <&> q" "env" (Some 5) (Some 1239) 1234
      [Samples.a_test "x" FAILED; Samples.a_test "y" SKIPPED]
      2 0 1 0 1 0%float ∅ ∅ None None None None in
  (exists doc,
     parse (generateXml Samples.a_host run) = Some doc /\
     counter "tests" doc = Some 2%nat /\
     counter "failures" doc = Some 1%nat /\
     map tag (children doc) = ["testcase"; "testcase"]%string) /\
  JUnitReporter.endRun Samples.a_config Samples.a_host run
    (mkFS ∅ {[ "qagentic-results"%string ]} false)
  = (Normal tt,
     mkFS {[ "qagentic-results/junit.xml"%string
             := generateXml Samples.a_host run ]}
       {[ "qagentic-results"%string ]} false).
Proof.
  intros run.
  destruct (junit_counters_round_trip Samples.a_host run)
    as (_ & Hparse & Hwrite).
  destruct (Hparse eq_refl)
    as (doc & Hdoc & Helement & _ & Htests & Hfailures & _).
  split.
  - exists doc. repeat split; [exact Hdoc|exact Htests|exact Hfailures|].
    by rewrite Helement.
  - destruct (Hwrite Samples.a_config
                (mkFS ∅ {[ "qagentic-results"%string ]} false))
      as (Hstored & _); [reflexivity| |].
    + apply list_elem_of_further, list_elem_of_here.
    + rewrite Hstored; [|by vm_compute|by vm_compute|reflexivity].
      f_equal.
Defined.

(** C7 as the claim states it fails: a failure message with a terminal
    colour code, as test runners write them, is copied into the document
    with its escape character, which no XML document may hold; the file
    that [endRun] writes is not well-formed and an XML reader returns no
    counters from it. *)
Lemma junit_control_character_breaks_round_trip :
  let test :=
    TestResult.Make "t1" "adds" "adds" None FAILED None None 5
      (Some (String "027" "[31mexpected 2[39m")) None None ∅ [] ∅ [] []
      None None 0 false false None in
  let run :=
    TestRunResult.Make "run-1" "nightly" "P" "local" (Some 0) (Some 1000)
      1000 [test] 1 0 1 0 0 0%float ∅ ∅ None None None None in
  let fs := mkFS ∅ {[ "qagentic-results"%string ]} false in
  let fs' := snd (JUnitReporter.endRun Samples.a_config Samples.a_host run fs) in
  fst (JUnitReporter.endRun Samples.a_config Samples.a_host run fs)
  = Normal tt /\
  files fs' !! "qagentic-results/junit.xml"%string
  = Some (generateXml Samples.a_host run) /\
  parse (generateXml Samples.a_host run) = None /\
  ~ (exists doc, parse (generateXml Samples.a_host run) = Some doc /\
                 counter "tests" doc = Some (TestRunResult.total run)).
Proof.
  intros test run fs fs'.
  assert (Hparse : parse (generateXml Samples.a_host run) = None)
    by (vm_compute; reflexivity).
  split; [by vm_compute|]. split; [by vm_compute|].
  split; [exact Hparse|].
  intros (doc & Hdoc & _). rewrite Hparse in Hdoc. discriminate.
Qed.
End JUnitFacts.

(** * Properties of the remote API sink *)

Module APIReporterFacts.
Import Reporter Reporter.APIReporter.



Definition finalize_request (config : Config.t) (h : Host.t)
    (run : TestRunResult.t) : Request :=
  MakeRequest PATCH
    (Config.api_url (Config.api config) +:+ "/api/v1/runs/"
     +:+ TestRunResult.id run)
    (Finalize (Host.toISOString h <$> TestRunResult.endTime run)
       (TestRunResult.durationMs run) (TestRunResult.total run)
       (TestRunResult.passed run) (TestRunResult.failed run)
       (TestRunResult.broken run) (TestRunResult.skipped run) "completed")
    (api_headers config) (Config.api_timeout (Config.api config)).










End APIReporterFacts.

(** * More on the remote API sink *)

Module APIReporterDelivery.
Import Reporter Reporter.APIReporter APIReporterFacts.



(** [reportTest] for each test of [ts], in order. *)
Definition report_each (config : Config.t) (h : Host.t)
    (ts : list TestResult.t) (st : t) : t :=
  fold_left (fun st test => snd (reportTest config h test st)) ts st.

Lemma flushBatch_returns (config : Config.t) (h : Host.t) (st : t) :
  fst (flushBatch config h st) = Normal tt.
Proof.
  unfold flushBatch, axios. destruct (batch st); [done|].
  destruct (currentRun st); [|done].
  destruct (fails st (length (requests st))); done.
Qed.

(** X1.  No callback of the remote API sink ever throws, whatever the state
    of the sink, the configuration and the outcome of each request: a failed
    registration, flush or finalization is swallowed. *)
Theorem api_sink_never_throws (config : Config.t) (h : Host.t)
    (run : TestRunResult.t) (test : TestResult.t) (st : t) :
  fst (startRun config h run st) = Normal tt /\
  fst (reportTest config h test st) = Normal tt /\
  fst (endRun config h run st) = Normal tt.
Proof.
  split; [|split].
  - unfold startRun, axios.
    destruct (Config.api_enabled (Config.api config)); simpl; [|done].
    destruct (fails st (length (requests st))); done.
  - unfold reportTest.
    destruct (Config.api_enabled (Config.api config)); simpl; [|done].
    destruct (_ >=? _); [apply flushBatch_returns|done].
  - unfold endRun.
    destruct (Config.api_enabled (Config.api config)); simpl; [|done].
    destruct (0 <? length (batch st))%nat.
    + pose proof (flushBatch_returns config h st) as Hf.
      destruct (flushBatch config h st) as [[[]|e] st']; [|discriminate Hf].
      unfold axios. destruct (fails st' (length (requests st'))); done.
    + unfold axios. destruct (fails st (length (requests st))); done.
Qed.










Lemma report_each_unregistered (config : Config.t) (h : Host.t)
    (ts : list TestResult.t) : forall st,
  Config.api_enabled (Config.api config) = true ->
  currentRun st = None ->
  report_each config h ts st = set_batch (batch st ++ ts) st.
Proof.
  induction ts as [|test ts IH]; intros st Hen Hrun; simpl.
  - rewrite app_nil_r. by destruct st.
  - assert (Hone : reportTest config h test st
                   = (Normal tt, set_batch (batch st ++ [test]) st)).
    { unfold reportTest, flushBatch. rewrite Hen. simpl. rewrite Hrun.
      destruct (_ >=? _); [|done]. by destruct (batch st). }
    rewrite Hone. simpl. rewrite IH by done. simpl.
    by rewrite <- app_assoc.
Qed.

(** X4.  An enabled remote API sink that has no registered run (its
    [startRun] was not called, for instance because a sink registered before
    it threw in [startRun]) never sends a test: every [reportTest] only
    lengthens the buffer, however large it gets, and [endRun] sends the
    finalization alone and leaves the buffer as it is. *)
Theorem api_sink_without_run_only_buffers (config : Config.t) (h : Host.t)
    (st : t) (sealed : TestRunResult.t) (ts : list TestResult.t) :
  Config.api_enabled (Config.api config) = true ->
  currentRun st = None ->
  let st2 := report_each config h ts st in
  let st3 := snd (endRun config h sealed st2) in
  batch st2 = batch st ++ ts /\ requests st2 = requests st /\
  batch st3 = batch st ++ ts /\
  requests st3 = requests st ++ [finalize_request config h sealed].
Proof.
  intros Hen Hrun st2 st3.
  assert (H2 : st2 = set_batch (batch st ++ ts) st).
  { unfold st2. by apply report_each_unregistered. }
  split; [by rewrite H2|]. split; [by rewrite H2|].
  unfold st3. rewrite H2. unfold endRun, flushBatch, axios. rewrite Hen.
  simpl. rewrite Hrun.
  destruct (batch st ++ ts); simpl;
    destruct (fails st (length (requests st))); done.
Qed.

Lemma api_sink_without_run_only_buffers_witness :
  let st := Make [] None [] (fun _ => false) in
  let ts := [Samples.a_test "a" PASSED; Samples.a_test "b" FAILED;
             Samples.a_test "c" PASSED] in
  batch (report_each Samples.a_config Samples.a_host ts st) = batch st ++ ts.
Proof.
  intros st ts.
  apply (api_sink_without_run_only_buffers Samples.a_config Samples.a_host st
           Samples.a_run ts); reflexivity.
Defined.

End APIReporterDelivery.

(** * More on the orchestrator *)

Module OrchestratorLifecycle.
Import Reporter Reporter.QAgenticReporter OrchestratorFacts.

Section Any_sinks.
Context {W : Type}.
Implicit Types (o : t W) (run : TestRunResult.t) (test : TestResult.t).

(** Every callback of every registered sink returns. *)
Definition sinks_return o : Prop :=
  forall r, r ∈ reporters o ->
    forall run test (w : W),
      fst (sink_startRun r run w) = Normal tt /\
      fst (sink_endRun r run w) = Normal tt /\
      fst (sink_reportTest r test w) = Normal tt.

Lemma for_reporters_all call ev o :
  (forall r w, r ∈ reporters o -> fst (call r w) = Normal tt) ->
  fst (for_reporters call ev o) = Normal tt /\
  invoked (snd (for_reporters call ev o))
  = invoked o ++ entries ev 0 (length (reporters o)).
Proof.
  intros Hok. unfold for_reporters.
  destruct (fan_out_normal call ev (reporters o) Hok 0%nat (world o)
              (invoked o)) as (w' & ->).
  done.
Qed.

Lemma reportTest_all test o run :
  sinks_return o -> currentRun o = Some run ->
  fst (reportTest test o) = Normal tt /\
  invoked (snd (reportTest test o))
  = invoked o ++ entries (ReportTest test) 0 (length (reporters o)).
Proof.
  intros Hok Hrun. unfold reportTest. rewrite Hrun.
  match goal with |- context [for_reporters ?c ?e ?x] =>
    destruct (for_reporters_all c e x) as (Hn & Hi) end.
  - intros r w Hin. simpl in Hin. by destruct (Hok r Hin run test w) as (_ & _ & ?).
  - split; [done|]. rewrite Hi. done.
Qed.

Lemma report_all_invoked (ts : list TestResult.t) : forall o run,
  sinks_return o -> currentRun o = Some run ->
  invoked (report_all ts o)
  = invoked o
    ++ concat (map (fun test => entries (ReportTest test) 0
                                  (length (reporters o))) ts).
Proof.
  induction ts as [|test ts IH]; intros o run Hok Hrun; simpl.
  - by rewrite app_nil_r.
  - destruct (reportTest_frame test o run Hrun) as (_ & Hrs & Hcur & _).
    destruct (reportTest_all test o run Hok Hrun) as (_ & Hinv).
    rewrite (IH _ (tally test run)); [| |done].
    + rewrite Hinv, Hrs, <- app_assoc. done.
    + intros r Hin. apply Hok. by rewrite <- Hrs.
Qed.

Lemma report_all_keeps_identity (ts : list TestResult.t) : forall o run run',
  currentRun o = Some run -> currentRun (report_all ts o) = Some run' ->
  TestRunResult.startTime run' = TestRunResult.startTime run /\
  TestRunResult.id run' = TestRunResult.id run.
Proof.
  induction ts as [|test ts IH]; intros o run run' Hcur Hcur'; simpl in *.
  - rewrite Hcur in Hcur'. by inversion Hcur'.
  - destruct (reportTest_frame test o run Hcur) as (_ & _ & Hc & _).
    destruct (IH _ _ _ Hc Hcur') as (Hs & Hi). rewrite Hs, Hi.
    unfold tally. by destruct (TestResult.status test).
Qed.

(** X5.  With sinks whose callbacks all return, a whole run goes through:
    [startRun] returns the new run; after [reportTest] for each test of [ts],
    [endRun] returns that run with exactly the tests [ts], in order, its
    start time the clock reading taken by [startRun] (the second one when
    [startRun] also read the clock for a default name), its end time the
    next clock reading and its duration their difference; every sink has
    received [startRun], then each test in the order reported, then
    [endRun], each event going through the sinks in registration order; and
    the orchestrator is idle again: the slot is empty and a further [endRun]
    returns [null] and does nothing. *)
Theorem run_lifecycle_with_returning_sinks
    (options : TestRunResult.partial) (ts : list TestResult.t) o :
  sinks_return o ->
  let fresh := fst (new_run options o) in
  let n := length (reporters o) in
  let o1 := snd (startRun options o) in
  let o2 := report_all ts o1 in
  let o3 := snd (endRun o2) in
  let t := (Host.ticks (host o)
            + match truthy (TestRunResult.opt_name options) with
              | Some _ => 0
              | None => 1
              end)%nat in
  let d_start := Host.clock (host o) t in
  let d_end := Host.clock (host o) (S t) in
  fst (startRun options o) = Normal fresh /\
  (exists sealed,
     fst (endRun o2) = Normal (Some sealed) /\
     TestRunResult.id sealed = TestRunResult.id fresh /\
     TestRunResult.tests sealed = ts /\
     TestRunResult.startTime sealed = Some d_start /\
     TestRunResult.endTime sealed = Some d_end /\
     TestRunResult.durationMs sealed = d_end - d_start /\
     invoked o3
     = invoked o ++ entries (StartRun fresh) 0 n
       ++ concat (map (fun test => entries (ReportTest test) 0 n) ts)
       ++ entries (EndRun sealed) 0 n) /\
  getCurrentRun o3 = None /\
  endRun o3 = (Normal None, o3).
Proof.
  intros Hok fresh n o1 o2 o3 t d_start d_end.
  destruct (startRun_frame options o) as (_ & Hrs1 & Hcur1 & Hh1 & _).
  fold o1 fresh in Hrs1, Hcur1. fold o1 in Hh1.
  assert (Hstart : fst (startRun options o) = Normal fresh /\
                   invoked o1 = invoked o ++ entries (StartRun fresh) 0 n).
  { unfold o1, fresh, startRun. destruct (new_run options o) as [run h].
    simpl.
    match goal with |- context [for_reporters ?c ?e ?x] =>
      destruct (for_reporters_all c e x) as (Hn & Hi);
      [|destruct (for_reporters c e x) as [[[]|e'] o']] end.
    - intros r w Hin. simpl in Hin. by destruct (Hok r Hin run (Samples.a_test EmptyString PASSED) w).
    - simpl in *. done.
    - discriminate Hn. }
  destruct Hstart as (Hstart & Hinv1).
  assert (Hok1 : sinks_return o1).
  { intros r Hin. apply Hok. by rewrite <- Hrs1. }
  destruct (report_all_frame ts o1 fresh [] Hcur1 (new_run_recount options o))
    as (_ & Hrs2 & Hh2 & run2 & Hcur2 & Hrec2).
  fold o2 in Hrs2, Hcur2, Hh2.
  pose proof (report_all_invoked ts o1 fresh Hok1 Hcur1) as Hinv2.
  fold o2 in Hinv2. rewrite Hrs1 in Hinv2. fold n in Hinv2.
  assert (Hst : TestRunResult.startTime fresh = Some d_start /\
                Host.clock (snd (new_run options o)) = Host.clock (host o) /\
                Host.ticks (snd (new_run options o)) = S t).
  { unfold fresh, d_start, t, new_run.
    destruct (truthy (TestRunResult.opt_id options));
      destruct (truthy (TestRunResult.opt_name options)); simpl;
      rewrite ?Nat.add_0_r, ?Nat.add_1_r; done. }
  destruct Hst as (Hst & Hclock & Hticks).
  pose proof (report_all_keeps_identity ts o1 fresh run2 Hcur1 Hcur2)
    as Hkeep.
  destruct Hkeep as (Hst2 & Hid2).
  assert (Hd_end : Host.clock (host o2) (Host.ticks (host o2)) = d_end).
  { by rewrite Hh2, Hh1, Hclock, Hticks. }
  assert (Hend : endRun o2
                 = (Normal (Some (seal d_end run2)),
                    set_currentRun None
                      (snd (for_reporters
                              (fun reporter => sink_endRun reporter (seal d_end run2))
                              (EndRun (seal d_end run2))
                              (set_host (snd (Host.newDate (host o2)))
                                 (set_currentRun (Some (seal d_end run2)) o2)))))).
  { unfold endRun. rewrite Hcur2. simpl. rewrite Hd_end.
    match goal with |- context [for_reporters ?c ?e ?x] =>
      destruct (for_reporters_all c e x) as (Hn & _);
      [|destruct (for_reporters c e x) as [[[]|e'] o']] end.
    - intros r w Hin. simpl in Hin. rewrite Hrs2 in Hin.
      by destruct (Hok1 r Hin (seal d_end run2) (Samples.a_test EmptyString PASSED) w)
        as (_ & ? & _).
    - done.
    - discriminate Hn. }
  split; [done|]. split; [|split].
  - exists (seal d_end run2). rewrite Hend. simpl.
    split; [done|]. split; [done|].
    split; [by destruct Hrec2 as (-> & _)|].
    split; [by rewrite Hst2|]. split; [done|].
    split; [by rewrite Hst2, Hst|].
    unfold o3. rewrite Hend. simpl.
    match goal with |- context [for_reporters ?c ?e ?x] =>
      destruct (for_reporters_all c e x) as (_ & Hi) end.
    { intros r w Hin. simpl in Hin. rewrite Hrs2 in Hin.
      by destruct (Hok1 r Hin (seal d_end run2) (Samples.a_test EmptyString PASSED) w)
        as (_ & ? & _). }
    rewrite Hi. simpl. rewrite Hinv2, Hinv1, Hrs2, Hrs1. fold n.
    by rewrite <- !app_assoc.
  - unfold o3. rewrite Hend. done.
  - unfold o3. rewrite Hend. unfold endRun. done.
Qed.

(** X6.  [endRun] cannot be resumed.  When a sink threw in [endRun], the run
    is still in the slot, and calling [endRun] again seals it anew, with an
    end time read again from the clock, and goes through the sinks from the
    first one: the first sink, which had received [endRun] in the failed
    attempt, receives it a second time. *)
Theorem endRun_retry_starts_over o run (e : Thrown) :
  currentRun o = Some run ->
  fst (endRun o) = Throw e ->
  let o1 := snd (endRun o) in
  let d1 := Host.clock (host o) (Host.ticks (host o)) in
  let d2 := Host.clock (host o) (S (Host.ticks (host o))) in
  let sealed1 := seal d1 run in
  let sealed2 := seal d2 sealed1 in
  (0%nat, EndRun sealed1) ∈ invoked o1 /\
  TestRunResult.endTime sealed2 = Some d2 /\
  exists n, (1 <= n)%nat /\
    invoked (snd (endRun o1)) = invoked o1 ++ entries (EndRun sealed2) 0 n.
Proof.
  intros Hrun Hthrow o1 d1 d2 sealed1 sealed2.
  assert (H1 : currentRun o1 = Some sealed1 /\
               host o1 = snd (Host.newDate (host o)) /\
               reporters o1 = reporters o /\
               exists k, (k < length (reporters o))%nat /\
                 invoked o1 = invoked o ++ entries (EndRun sealed1) 0 (S k)).
  { unfold o1. revert Hthrow. unfold endRun. rewrite Hrun. simpl.
    fold d1. fold sealed1.
    match goal with |- context [for_reporters ?c ?ev ?x] =>
      pose proof (for_reporters_frame c ev x) as Hf end.
    unfold for_reporters in *. simpl in *.
    match goal with |- context [fan_out ?c ?ev ?i ?rs ?w ?l] =>
      pose proof (fan_out_spec c ev rs i w l) as Hspec;
      destruct (fan_out c ev i rs w l) as [[[[]|e'] w'] log'] end; simpl in *;
      [discriminate|].
    intros _. destruct Hspec as (k & r & wk & Hk & _ & ->).
    split; [done|]. split; [done|]. split; [done|].
    exists k. split; [|done]. by apply lookup_lt_Some in Hk. }
  destruct H1 as (Hcur1 & Hh1 & Hrs1 & k & Hk & Hinv1).
  split; [|split; [done|]].
  - rewrite Hinv1, entries_S. apply elem_of_app. right.
    apply list_elem_of_here.
  - unfold endRun. rewrite Hcur1, Hh1. simpl. fold d2. fold sealed2.
    unfold for_reporters. simpl.
    match goal with |- context [fan_out ?c ?ev ?i ?rs ?w ?l] =>
      pose proof (fan_out_spec c ev rs i w l) as Hspec;
      destruct (fan_out c ev i rs w l) as [[[[]|e'] w'] log'] end; simpl.
    + exists (length (reporters o1)). split; [rewrite Hrs1; lia|done].
    + destruct Hspec as (k' & r & wk & _ & _ & ->).
      exists (S k'). split; [lia|done].
Qed.

(** A character occurs in a string. *)
Fixpoint occurs (c : ascii) (s : string) : bool :=
  match s with
  | EmptyString => false
  | String a rest => Ascii.eqb a c || occurs c rest
  end.

Lemma strip_colons_dots_clean (s : string) :
  occurs ":" (strip_colons_dots s) = false /\
  occurs "." (strip_colons_dots s) = false.
Proof.
  induction s as [|a s [IH1 IH2]]; simpl; [done|].
  destruct (Ascii.eqb a ":") eqn:H1; simpl; [done|].
  destruct (Ascii.eqb a ".") eqn:H2; simpl; [done|].
  by rewrite H1, H2, IH1, IH2.
Qed.

(** X7.  The run that [startRun] creates: its labels are the per-call labels
    over the configured ones (a key present in both takes the per-call
    value); an absent or empty project name or environment is replaced by
    the configured one, and any other value is kept; a name that is passed
    and not empty is kept, and when no name, or an empty one, is passed, the
    name is [run_] followed by the ISO form of the clock reading at the
    call, from which every colon and dot is removed.  This run is the one
    in the slot after [startRun]. *)
Theorem startRun_fills_defaults (options : TestRunResult.partial) o :
  let run := fst (new_run options o) in
  currentRun (snd (startRun options o)) = Some run /\
  (forall k,
     TestRunResult.labels run !! k
     = match default ∅ (TestRunResult.opt_labels options) !! k with
       | Some v => Some v
       | None => Config.labels_custom (config o) !! k
       end) /\
  (forall p, TestRunResult.opt_projectName options = Some p ->
     TestRunResult.projectName run
     = if decide (p = EmptyString) then Config.projectName (config o) else p) /\
  (TestRunResult.opt_projectName options = None ->
   TestRunResult.projectName run = Config.projectName (config o)) /\
  (forall p, TestRunResult.opt_environment options = Some p ->
     TestRunResult.environment run
     = if decide (p = EmptyString) then Config.environment (config o) else p) /\
  (TestRunResult.opt_environment options = None ->
   TestRunResult.environment run = Config.environment (config o)) /\
  (forall nm, truthy (TestRunResult.opt_name options) = Some nm ->
     TestRunResult.name run = nm) /\
  (truthy (TestRunResult.opt_name options) = None ->
   let stamp :=
     strip_colons_dots
       (Host.toISOString (host o)
          (Host.clock (host o) (Host.ticks (host o)))) in
   TestRunResult.name run = "run_" +:+ stamp /\
   occurs ":" stamp = false /\ occurs "." stamp = false).
Proof.
  intros run.
  split; [by destruct (startRun_frame options o) as (_ & _ & ? & _)|].
  unfold run, new_run.
  destruct (truthy (TestRunResult.opt_id options)) as [i|];
    destruct (truthy (TestRunResult.opt_name options)) as [nm|] eqn:Hname;
    simpl;
    (split; [intros k; rewrite lookup_union;
             destruct (default ∅ (TestRunResult.opt_labels options) !! k);
             destruct (Config.labels_custom (config o) !! k); done|]);
    (split; [intros p ->; unfold or_else; simpl; by destruct (decide _)|]);
    (split; [intros ->; done|]);
    (split; [intros p ->; unfold or_else; simpl; by destruct (decide _)|]);
    (split; [intros ->; done|]);
    (split; [intros nm' Hn; by inversion Hn|]);
    intros Hn; try discriminate Hn;
    (split; [reflexivity|]); apply strip_colons_dots_clean.
Qed.

End Any_sinks.

(** The JUnit sink cannot write: two attempts at [endRun] both throw. *)
Lemma endRun_retry_starts_over_witness :
  let active := snd (startRun Samples.no_options Samples.file_then_api) in
  exists run, currentRun active = Some run /\
    (0%nat, EndRun (seal (Host.clock (host active) (Host.ticks (host active)))
                      run))
    ∈ invoked (snd (endRun active)).
Proof.
  intros active. eexists. split; [reflexivity|].
  apply (endRun_retry_starts_over active _
           (mkError "EACCES: permission denied" None)).
  - reflexivity.
  - vm_compute. reflexivity.
Defined.

Lemma startRun_fills_defaults_witness :
  let run :=
    fst (new_run (TestRunResult.MakePartial None None (Some EmptyString) None
                    None None None None None None) Samples.idle) in
  TestRunResult.projectName run = "P"%string /\
  TestRunResult.name run = "run_2024-01-01T000000000Z"%string.
Proof.
  destruct (startRun_fills_defaults
              (TestRunResult.MakePartial None None (Some EmptyString) None
                 None None None None None None) Samples.idle)
    as (_ & _ & Hproject & _ & _ & _ & _ & Hname).
  split.
  - apply (Hproject EmptyString). reflexivity.
  - apply Hname. reflexivity.
Defined.

Lemma run_lifecycle_with_returning_sinks_witness :
  exists sealed,
    fst (endRun (report_all [Samples.a_test "a" PASSED]
                   (snd (startRun Samples.no_options Samples.robust))))
    = Normal (Some sealed) /\
    TestRunResult.startTime sealed = Some 1000 /\
    TestRunResult.endTime sealed = Some 2000 /\
    TestRunResult.durationMs sealed = 1000.
Proof.
  destruct (run_lifecycle_with_returning_sinks Samples.no_options
              [Samples.a_test "a" PASSED] Samples.robust)
    as (_ & (sealed & Hend & _ & _ & Hs & He & Hd & _) & _).
  - intros r Hin run test w.
    apply elem_of_cons in Hin as [->|Hin]; [done|].
    apply list_elem_of_singleton in Hin as ->. done.
  - exists sealed. split; [exact Hend|].
    split; [exact Hs|]. split; [exact He|exact Hd].
Defined.

End OrchestratorLifecycle.

(** * More on the JUnit sink *)

Module JUnitEscaping.
Import Reporter JUnitFacts OrchestratorLifecycle.

#[local] Arguments String.append !_ _ / : simpl nomatch.

(** The reader's decoding of the four entities that [escape] writes. *)
Fixpoint unescape (s : string) : string :=
  match s with
  | EmptyString => EmptyString
  | String "&" (String "a" (String "m" (String "p" (String ";" rest)))) =>
      String "&" (unescape rest)
  | String "&" (String "l" (String "t" (String ";" rest))) =>
      String "<" (unescape rest)
  | String "&" (String "g" (String "t" (String ";" rest))) =>
      String ">" (unescape rest)
  | String "&" (String "q" (String "u" (String "o" (String "t"
      (String ";" rest))))) =>
      String quot (unescape rest)
  | String c rest => String c (unescape rest)
  end.

Lemma unescape_escape_char (c : ascii) (s : string) :
  unescape (escape_char c +:+ s) = String c (unescape s).
Proof.
  unfold escape_char.
  destruct (Ascii.eqb_spec c "&") as [->|H1]; [done|].
  destruct (Ascii.eqb_spec c "<") as [->|H2]; [done|].
  destruct (Ascii.eqb_spec c ">") as [->|H3]; [done|].
  destruct (Ascii.eqb_spec c quot) as [->|H4]; [done|].
  simpl. destruct c as [[] [] [] [] [] [] [] []]; try reflexivity.
  by destruct H1.
Qed.

Lemma occurs_app (c : ascii) (a b : string) :
  occurs c (a +:+ b) = occurs c a || occurs c b.
Proof.
  induction a as [|x a IH]; simpl; [done|]. by rewrite IH, orb_assoc.
Qed.

Lemma escape_char_clean (c : ascii) :
  occurs "<" (escape_char c) = false /\
  occurs ">" (escape_char c) = false /\
  occurs quot (escape_char c) = false.
Proof.
  unfold escape_char.
  destruct (Ascii.eqb c "&") eqn:H1; [done|].
  destruct (Ascii.eqb c "<") eqn:H2; [done|].
  destruct (Ascii.eqb c ">") eqn:H3; [done|].
  destruct (Ascii.eqb c quot) eqn:H4; [done|].
  simpl. by rewrite H2, H3, H4.
Qed.

(** X8.  [escape] loses nothing and leaves no markup character behind: the
    escaped text contains no [<], no [>] and no double quote, and decoding
    its four entities gives the original text back, so two different texts
    are never escaped to the same text. *)
Theorem escape_round_trip (s : string) :
  unescape (escape s) = s /\
  occurs "<" (escape s) = false /\
  occurs ">" (escape s) = false /\
  occurs quot (escape s) = false /\
  (forall s', escape s' = escape s -> s' = s).
Proof.
  assert (Hrt : forall x, unescape (escape x) = x).
  { intros x. induction x as [|c x IH]; [done|].
    by rewrite escape_cons, unescape_escape_char, IH. }
  split; [apply Hrt|].
  assert (Hclean : occurs "<" (escape s) = false /\
                   occurs ">" (escape s) = false /\
                   occurs quot (escape s) = false).
  { induction s as [|c s (IH1 & IH2 & IH3)]; [done|].
    rewrite escape_cons, !occurs_app, IH1, IH2, IH3.
    destruct (escape_char_clean c) as (-> & -> & ->). done. }
  destruct Hclean as (H1 & H2 & H3).
  split; [done|]. split; [done|]. split; [done|].
  intros s' Heq. rewrite <- (Hrt s'), Heq. apply Hrt.
Qed.






End JUnitEscaping.

(** * More on the step tracker *)

Module StepMethodsFacts.
Import StepTracker StepMethods StepTrackerFacts.

(** The ended step itself, when it does not become its own parent. *)
Lemma lookup_end_self (w : World) (s : ref) (err : option Thrown) (o : Step) :
  heap w !! s = Some o ->
  last (without s (currentSteps w)) <> Some s ->
  heap (Step_end s err w) !! s
  = Some (settled err
            (stopped (Host.clock (host w) (Host.ticks (host w))) o)).
Proof.
  intros Hs Htop. rewrite heap_end, list_lookup_alter_eq.
  destruct (last (without s (currentSteps w))) as [p|]; simpl.
  - rewrite list_lookup_alter_ne by congruence.
    by rewrite list_lookup_alter_eq, Hs.
  - by rewrite list_lookup_alter_eq, Hs.
Qed.

Lemma without_snoc (s : ref) (l : list ref) :
  s ∉ l -> without s (l ++ [s]) = l.
Proof. intros Hs. rewrite (without_first s l [] Hs). apply app_nil_r. Qed.

Lemma last_not_member (s : ref) (l : list ref) : s ∉ l -> last l <> Some s.
Proof.
  intros Hs Hlast. apply last_Some in Hlast as (l' & ->).
  apply Hs, elem_of_app. right. apply list_elem_of_here.
Qed.

(** X10.  A step that is started and then ended: while it runs it is the
    current step; afterwards the stack is what it was before [start], the
    step carries the two clock readings as start and end time, their
    difference as duration (not negative when the clock did not go back) and
    the status passed, or failed with the error's message; and the step that
    was current before has it as its last child. *)
Theorem start_then_end_restores_stack (w : World) (s : ref)
    (err : option Thrown) (o : Step) :
  heap w !! s = Some o ->
  s ∉ currentSteps w ->
  let t0 := Host.clock (host w) (Host.ticks (host w)) in
  let t1 := Host.clock (host w) (S (Host.ticks (host w))) in
  let w1 := Step_start s w in
  let w2 := Step_end s err w1 in
  getCurrentStep w1 = Some s /\
  currentSteps w2 = currentSteps w /\
  (exists o', heap w2 !! s = Some o' /\
     startTime o' = Some t0 /\ endTime o' = Some t1 /\
     durationMs o' = t1 - t0 /\ (t0 <= t1 -> 0 <= durationMs o') /\
     status o' = match given err with Some _ => FAILED | None => PASSED end /\
     error o' = match given err with
                | Some e => message_of e
                | None => error o
                end) /\
  (forall p po, getCurrentStep w = Some p -> heap w !! p = Some po ->
     exists po', heap w2 !! p = Some po' /\ children po' = children po ++ [s]).
Proof.
  intros Hs Hnot t0 t1 w1 w2.
  assert (Hst1 : currentSteps w1 = currentSteps w ++ [s]) by done.
  assert (Hst2 : currentSteps w2 = currentSteps w).
  { unfold w2. rewrite currentSteps_end, Hst1. by apply without_snoc. }
  assert (Hs1 : heap w1 !! s = Some (started t0 o)).
  { unfold w1. by rewrite heap_start, list_lookup_alter_eq, Hs. }
  split; [unfold getCurrentStep; rewrite Hst1; apply last_snoc|].
  split; [done|]. split.
  - unfold w2. rewrite (lookup_end_self w1 s err _ Hs1).
    + eexists. split; [reflexivity|].
      unfold settled. destruct (given err); simpl; repeat split; lia.
    + rewrite Hst1, without_snoc by done. by apply last_not_member.
  - intros p po Hp Hpo.
    assert (Hps : p <> s).
    { intros ->. by apply (last_not_member s (currentSteps w)). }
    assert (Hp1 : heap w1 !! p = Some po).
    { unfold w1. rewrite heap_start, list_lookup_alter_ne by congruence. done. }
    destruct (children_end w1 s err p po Hp1) as (po' & Hpo' & _ & Hc).
    exists po'. split; [done|]. fold w2 in Hc.
    unfold getCurrentStep in Hc, Hp. rewrite Hst2, Hp in Hc.
    by destruct (decide (Some p = Some p)).
Qed.

(** Steps 0 and 1 of [two_steps], restarted on a cleared stack. *)
Lemma start_then_end_restores_stack_witness :
  currentSteps (Step_end 1%nat None (Step_start 1%nat (clearSteps two_steps)))
  = currentSteps (clearSteps two_steps).
Proof.
  apply (start_then_end_restores_stack (clearSteps two_steps) 1%nat None
           (mkStep "id" "B" None RUNNING (Some 1) None 0 None None [] [] ∅)).
  - reflexivity.
  - apply not_elem_of_nil.
Defined.

(** X11.  The [step] wrapper around a callback that returns a plain value or
    throws, and that leaves the stack as it found it: the wrapper completes
    as the callback did and leaves the stack as it found it too; its step
    ends up failed when the callback threw a truthy value, and passed when
    the callback returned or threw a falsy value ([undefined], [null],
    [false], [0], [NaN] or the empty string), since [end] tests
    [if (error)]; and the step that was current when the wrapper was called
    has the wrapper's step as its last child. *)
Theorem step_is_stack_neutral {T : Type} (nm : string)
    (descr : option string) (fn : Callback T) (w : World)
    (c : Completion (Returned T)) (w2 : World) (o2 : Step) :
  Forall (fun r => (r < length (heap w))%nat) (currentSteps w) ->
  let s := length (heap w) in
  let w1 := Step_start s (snd (Step_new nm descr None w)) in
  fn w1 = (c, w2) ->
  (forall p, c <> Normal (Async p)) ->
  currentSteps w2 = currentSteps w1 ->
  heap w2 !! s = Some o2 ->
  let w3 := snd (step nm descr fn w) in
  fst (step nm descr fn w) = c /\
  currentSteps w3 = currentSteps w /\
  (exists o3, heap w3 !! s = Some o3 /\
     status o3 = match c with
                 | Throw e => if is_truthy e then FAILED else PASSED
                 | Normal _ => PASSED
                 end) /\
  (forall p po, getCurrentStep w = Some p -> heap w2 !! p = Some po ->
     exists po', heap w3 !! p = Some po' /\ children po' = children po ++ [s]).
Proof.
  intros Hwf s w1 Hfn Hsync Hbal Hs2 w3.
  assert (Hnot : s ∉ currentSteps w).
  { intros Hin. rewrite Forall_forall in Hwf. specialize (Hwf s Hin).
    unfold s in Hwf. lia. }
  assert (Hst1 : currentSteps w1 = currentSteps w ++ [s]).
  { unfold w1. rewrite currentSteps_start.
    destruct (Step_new_spec nm descr None w) as (o & -> & _). done. }
  assert (Hstep : exists err,
            step nm descr fn w = (c, Step_end s err w2) /\
            match c with Throw e => err = Some e | Normal _ => err = None end).
  { unfold step.
    destruct (Step_new_spec nm descr None w) as (o & Heq & _).
    unfold w1, s in Hfn. rewrite Heq in *. cbv beta iota zeta.
    cbn [snd] in Hfn. rewrite Hfn.
    destruct c as [[v|p]|e].
    - exists None. done.
    - by destruct (Hsync p).
    - exists (Some e). done. }
  destruct Hstep as (err & Hstep & Herr).
  unfold w3. rewrite Hstep. cbn [fst snd].
  assert (Hst3 : currentSteps (Step_end s err w2) = currentSteps w).
  { rewrite currentSteps_end, Hbal, Hst1. by apply without_snoc. }
  split; [done|]. split; [done|]. split.
  - rewrite (lookup_end_self w2 s err o2 Hs2).
    + eexists. split; [reflexivity|]. unfold settled.
      destruct c as [[v|p]|e]; subst err; simpl; [done|done|].
      by destruct (is_truthy e).
    + rewrite Hbal, Hst1, without_snoc by done. by apply last_not_member.
  - intros p po Hp Hpo.
    destruct (children_end w2 s err p po Hpo) as (po' & Hpo' & _ & Hc).
    exists po'. split; [done|].
    unfold getCurrentStep in Hc, Hp. rewrite Hst3, Hp in Hc.
    by destruct (decide (Some p = Some p)).
Qed.

Lemma step_is_stack_neutral_witness :
  currentSteps (snd (step (T := unit) "S" None
                       (fun w => (Normal (Plain tt), w)) two_steps))
  = currentSteps two_steps.
Proof.
  apply (step_is_stack_neutral "S" None (fun w => (Normal (Plain tt), w))
           two_steps (Normal (Plain tt))
           (Step_start 2%nat (snd (Step_new "S" None None two_steps)))
           (mkStep "id" "S" None RUNNING (Some 2) None 0 None None [] [] ∅)).
  - repeat constructor.
  - reflexivity.
  - intros p. discriminate.
  - reflexivity.
  - reflexivity.
Defined.

(** A callback that throws [undefined]: the wrapper re-throws it, and the
    step is passed. *)
Example step_callback_throws_undefined :
  let '(c, w) := step (T := unit) "S" None
                   (fun w => (Throw (Bare JsUndefined), w))
                   (clearSteps two_steps) in
  c = Throw (Bare JsUndefined) /\
  status <$> heap w !! 2%nat = Some PASSED /\
  ends_of 2%nat (calls w) = [Some (Bare JsUndefined)].
Proof. repeat split; reflexivity. Qed.

(** A callback that throws a string: the step is failed, without a
    message. *)
Example step_callback_throws_string :
  let '(c, w) := step (T := unit) "S" None
                   (fun w => (Throw (Bare (JsString "boom")), w))
                   (clearSteps two_steps) in
  status <$> heap w !! 2%nat = Some FAILED /\
  (heap w !! 2%nat) ≫= error = None.
Proof. repeat split; reflexivity. Qed.

End StepMethodsFacts.

(** * Attachments *)

Module AttachmentFacts.
Import StepTracker StepMethods Attachments StepTrackerFacts StepMethodsFacts.

(** A call of the step tracker, made in the world of [attachments.ts]. *)
Definition on_steps (f : StepTracker.World -> StepTracker.World)
    (w : World) : World :=
  mkWorld (f (steps w)) (testAttachments w).

(** The attachment object that [attach] builds from host [h]. *)
Definition made (base64 : list ascii -> string) (data : Data) (nm : string)
    (type extension : option string) (h : Host.t) : Attachment :=
  mkAttachment (Host.ids h (Host.drawn h)) nm (default "text/plain"%string type)
    extension
    (match data with Text s => s | Binary bytes => base64 bytes end)
    (Data_length data) (Host.toISOString h (Host.clock h (Host.ticks h))).

Definition after_attach (h : Host.t) : Host.t :=
  snd (Host.newDate (snd (Host.uuidv4 h))).

Lemma attach_in_step base64 data nm type extension (w : World) (s : ref) :
  getCurrentStep (steps w) = Some s ->
  attach base64 data nm type extension w =
  (Host.ids (host (steps w)) (Host.drawn (host (steps w))),
   mkWorld
     (set_heap
        (alter (push_attachment
                  (made base64 data nm type extension (host (steps w)))) s)
        (set_host (after_attach (host (steps w))) (steps w)))
     (testAttachments w)).
Proof.
  intros Hs. unfold attach. cbn [Host.uuidv4 Host.newDate].
  unfold getCurrentStep in *. cbn [set_host currentSteps]. rewrite Hs.
  reflexivity.
Qed.

Lemma attach_outside_steps base64 data nm type extension (w : World) :
  getCurrentStep (steps w) = None ->
  attach base64 data nm type extension w =
  (Host.ids (host (steps w)) (Host.drawn (host (steps w))),
   mkWorld (set_host (after_attach (host (steps w))) (steps w))
     (testAttachments w
      ++ [made base64 data nm type extension (host (steps w))])).
Proof.
  intros Hs. unfold attach. cbn [Host.uuidv4 Host.newDate].
  unfold getCurrentStep in *. cbn [set_host currentSteps]. rewrite Hs.
  reflexivity.
Qed.

Lemma attachments_settled err o : attachments (settled err o) = attachments o.
Proof. unfold settled. by destruct (given err). Qed.

(** X12.  Where [attach] of [attachments.ts] puts an attachment.  With no
    step on the stack, a step is started, [attach] is called, the step is
    ended and [attach] is called again: the first attachment is appended to
    the step's own list and stays there when the step has ended, the
    test-level list being untouched; the second is appended to the
    test-level list and no step changes.  Each call returns the id of the
    attachment it stored, and the stored size is the length of the data. *)
Theorem attach_follows_current_step (base64 : list ascii -> string)
    (data : Data) (nm : string) (type extension : option string)
    (w : World) (s : ref) (o : Step) :
  currentSteps (steps w) = [] ->
  heap (steps w) !! s = Some o ->
  let w1 := on_steps (Step_start s) w in
  let r1 := attach base64 data nm type extension w1 in
  let w2 := on_steps (Step_end s None) (snd r1) in
  let r2 := attach base64 data nm type extension w2 in
  exists a1 a2 o1 o2,
    att_id a1 = fst r1 /\ att_id a2 = fst r2 /\
    att_size a1 = Data_length data /\ att_size a2 = Data_length data /\
    att_type a1 = default "text/plain"%string type /\
    getAttachments (snd r1) = getAttachments w /\
    heap (steps (snd r1)) !! s = Some o1 /\
    attachments o1 = attachments o ++ [a1] /\
    heap (steps w2) !! s = Some o2 /\
    attachments o2 = attachments o ++ [a1] /\
    heap (steps (snd r2)) = heap (steps w2) /\
    getAttachments (snd r2) = getAttachments w ++ [a2].
Proof.
  intros Hst Hs w1 r1 w2 r2.
  assert (Hcur1 : getCurrentStep (steps w1) = Some s).
  { unfold w1, on_steps, getCurrentStep. cbn [steps].
    by rewrite currentSteps_start, Hst. }
  assert (Hr1 : r1 = attach base64 data nm type extension w1) by done.
  rewrite (attach_in_step _ _ _ _ _ _ _ Hcur1) in Hr1.
  set (a1 := made base64 data nm type extension (host (steps w1))) in Hr1.
  set (d0 := Host.clock (host (steps w)) (Host.ticks (host (steps w)))).
  assert (Hs1 : heap (steps (snd r1)) !! s
                = Some (push_attachment a1 (started d0 o))).
  { rewrite Hr1. cbn [snd steps set_heap set_host heap].
    rewrite list_lookup_alter_eq. unfold w1, on_steps. cbn [steps].
    by rewrite heap_start, list_lookup_alter_eq, Hs. }
  assert (Hst1 : currentSteps (steps (snd r1)) = [s]).
  { rewrite Hr1. cbn [snd steps set_heap set_host currentSteps].
    unfold w1, on_steps. cbn [steps]. by rewrite currentSteps_start, Hst. }
  assert (Hwo : without s [s] = []).
  { apply (without_first s [] []), not_elem_of_nil. }
  assert (Hs2 : exists o2, heap (steps w2) !! s = Some o2 /\
                           attachments o2 = attachments o ++ [a1]).
  { unfold w2, on_steps. cbn [steps].
    rewrite (lookup_end_self _ s None _ Hs1).
    - eexists. split; [reflexivity|]. done.
    - by rewrite Hst1, Hwo. }
  destruct Hs2 as (o2 & Hs2 & Ha2).
  assert (Hcur2 : getCurrentStep (steps w2) = None).
  { unfold w2, on_steps, getCurrentStep. cbn [steps].
    by rewrite currentSteps_end, Hst1, Hwo. }
  assert (Hr2 : r2 = attach base64 data nm type extension w2) by done.
  rewrite (attach_outside_steps _ _ _ _ _ _ Hcur2) in Hr2.
  set (a2 := made base64 data nm type extension (host (steps w2))) in Hr2.
  exists a1, a2, (push_attachment a1 (started d0 o)), o2.
  rewrite Hr2. rewrite Hr1 at 1 2.
  repeat split; try done.
  unfold getAttachments. cbn [snd testAttachments].
  unfold w2, on_steps. cbn [testAttachments]. by rewrite Hr1.
Qed.

Lemma attach_follows_current_step_witness :
  exists a1 a2 o1 o2,
    let w := mkWorld (clearSteps two_steps) [] in
    let w1 := on_steps (Step_start 0%nat) w in
    let r1 := attach (fun _ => EmptyString) (Text "log") "out" None None w1 in
    let w2 := on_steps (Step_end 0%nat None) (snd r1) in
    let r2 := attach (fun _ => EmptyString) (Text "log") "out" None None w2 in
    att_id a1 = fst r1 /\ att_id a2 = fst r2 /\
    att_size a1 = 3 /\ att_size a2 = 3 /\
    att_type a1 = "text/plain"%string /\
    getAttachments (snd r1) = [] /\
    heap (steps (snd r1)) !! 0%nat = Some o1 /\
    attachments o1 = [a1] /\
    heap (steps w2) !! 0%nat = Some o2 /\
    attachments o2 = [a1] /\
    heap (steps (snd r2)) = heap (steps w2) /\
    getAttachments (snd r2) = [a2].
Proof.
  apply (attach_follows_current_step (fun _ => EmptyString) (Text "log") "out" None
           None (mkWorld (clearSteps two_steps) []) 0%nat
           (mkStep "id" "A" None RUNNING (Some 0) None 0 None None [] [] ∅)).
  - reflexivity.
  - reflexivity.
Defined.

End AttachmentFacts.

(** * Step results *)

Module StepResultFacts.
Import StepTracker StepMethods StepTrackerFacts StepMethodsFacts.

(** ** A step among its own children *)

Lemma toResult_self_child (hp : list Step) (s : ref) (o : Step) :
  hp !! s = Some o -> s ∈ children o ->
  forall fuel, toResult fuel hp s = None.
Proof.
  intros Hs Hin fuel. induction fuel as [|fuel IH]; [done|].
  simpl. rewrite Hs.
  assert (Hkids : mapM (toResult fuel hp) (children o) = None).
  { apply mapM_None_2, Exists_exists. by exists s. }
  by rewrite Hkids.
Qed.

(** X13.  A step that is started twice and ended once.  [end] takes the
    first of the two stack entries out and finds the step itself on top of
    what is left: the step is still the current step, it has become its own
    last child, and [toResult] on it does not return, whatever the depth
    allowed to the recursion. *)
Theorem second_start_makes_step_its_own_child (w : World) (s : ref)
    (err : option Thrown) (o : Step) :
  heap w !! s = Some o ->
  s ∉ currentSteps w ->
  let w' := Step_end s err (Step_start s (Step_start s w)) in
  currentSteps w' = currentSteps w ++ [s] /\
  getCurrentStep w' = Some s /\
  (exists o', heap w' !! s = Some o' /\
     children o' = children o ++ [s] /\
     status o' = match given err with Some _ => FAILED | None => PASSED end) /\
  forall fuel, toResult fuel (heap w') s = None.
Proof.
  intros Hs Hnot w'.
  set (w2 := Step_start s (Step_start s w)).
  assert (Hst2 : currentSteps w2 = currentSteps w ++ s :: [s]).
  { unfold w2. rewrite !currentSteps_start. by rewrite <- app_assoc. }
  assert (Hst : currentSteps w' = currentSteps w ++ [s]).
  { unfold w'. fold w2. rewrite currentSteps_end, Hst2.
    by apply without_first. }
  assert (Hs2 : exists o2, heap w2 !! s = Some o2 /\ children o2 = children o).
  { destruct (lookup_start s s w o Hs) as (o1 & H1 & _ & Hc1).
    destruct (lookup_start s s _ o1 H1) as (o2 & H2 & _ & Hc2).
    exists o2. split; [done|congruence]. }
  destruct Hs2 as (o2 & Hs2 & Hc2).
  assert (Hs' : exists o', heap w' !! s = Some o' /\
            children o' = children o ++ [s] /\
            status o' = match given err with
                        | Some _ => FAILED
                        | None => PASSED
                        end).
  { unfold w'. fold w2. rewrite heap_end, Hst2.
    rewrite (without_first s _ [s] Hnot), last_snoc. unfold attach_to.
    rewrite !list_lookup_alter_eq, Hs2. simpl.
    eexists. split; [reflexivity|].
    rewrite children_settled. simpl. rewrite Hc2.
    split; [done|]. unfold settled. by destruct (given err). }
  split; [done|]. split; [by unfold getCurrentStep; rewrite Hst, last_snoc|].
  split; [done|].
  destruct Hs' as (o' & Ho' & Hc' & _).
  apply (toResult_self_child _ s o' Ho'). rewrite Hc'.
  apply elem_of_app. right. apply list_elem_of_here.
Qed.

Lemma second_start_makes_step_its_own_child_witness :
  getCurrentStep
    (Step_end 0%nat None
       (Step_start 0%nat (Step_start 0%nat (clearSteps two_steps))))
  = Some 0%nat.
Proof.
  apply (second_start_makes_step_its_own_child (clearSteps two_steps) 0%nat
           None
           (mkStep "id" "A" None RUNNING (Some 0) None 0 None None [] [] ∅)).
  - reflexivity.
  - apply not_elem_of_nil.
Defined.

(** ** Steps allocated before their children *)

(** Every child was allocated after its parent, and every reference held by
    a step or by the stack is allocated. *)
Definition tree_shaped (w : World) : Prop :=
  (forall p o c, heap w !! p = Some o -> c ∈ children o ->
     (p < c < length (heap w))%nat) /\
  Forall (fun r => (r < length (heap w))%nat) (currentSteps w).

Lemma toResult_more_fuel (hp : list Step) (fuel : nat) :
  forall fuel' s r, (fuel <= fuel')%nat ->
    toResult fuel hp s = Some r -> toResult fuel' hp s = Some r.
Proof.
  induction fuel as [|fuel IH]; intros fuel' s r Hle; [done|].
  destruct fuel' as [|fuel']; [lia|]. simpl.
  destruct (hp !! s) as [o|]; [|done].
  destruct (mapM (toResult fuel hp) (children o)) as [kids|] eqn:Hk; [|done].
  intros Hr.
  assert (Hk' : mapM (toResult fuel' hp) (children o) = Some kids).
  { apply mapM_Some. apply mapM_Some in Hk.
    eapply Forall2_impl; [exact Hk|]. intros c k Hck.
    apply (IH fuel' c k); [lia|done]. }
  by rewrite Hk'.
Qed.

Lemma toResult_returns (hp : list Step) :
  (forall p o c, hp !! p = Some o -> c ∈ children o ->
     (p < c < length hp)%nat) ->
  forall fuel s, (s < length hp)%nat -> (length hp - s <= fuel)%nat ->
    is_Some (toResult fuel hp s).
Proof.
  intros Hfw fuel. induction fuel as [|fuel IH]; intros s Hs Hfuel; [lia|].
  simpl. destruct (lookup_lt_is_Some_2 hp s Hs) as [o Ho]. rewrite Ho.
  assert (Hk : is_Some (mapM (toResult fuel hp) (children o))).
  { apply mapM_is_Some, Forall_forall. intros c Hc.
    destruct (Hfw s o c Ho Hc). apply IH; lia. }
  destruct Hk as [kids ->]. done.
Qed.

(** X14.  [toResult] when every step was allocated before its children: the
    recursion returns for every allocated step, within a depth of the number
    of steps allocated from it on, with the same result for every greater
    depth; the result carries the step's id, name, status, times and error,
    and one child result for each child. *)
Theorem toResult_returns_on_ordered_steps (w : World) (s : ref) (o : Step) :
  tree_shaped w ->
  heap w !! s = Some o ->
  exists r,
    (forall fuel, (length (heap w) - s <= fuel)%nat ->
       toResult fuel (heap w) s = Some r) /\
    StepResult.id r = id o /\ StepResult.name r = name o /\
    StepResult.status r = status o /\
    StepResult.startTime r = startTime o /\
    StepResult.endTime r = endTime o /\
    StepResult.durationMs r = durationMs o /\
    StepResult.error r = error o /\
    StepResult.attachments r = attachments o /\
    length (StepResult.children r) = length (children o).
Proof.
  intros [Hfw _] Ho.
  pose proof (lookup_lt_Some _ _ _ Ho) as Hs.
  destruct (toResult_returns (heap w) Hfw (length (heap w) - s) s Hs
              ltac:(lia)) as [r Hr].
  exists r. split.
  - intros fuel Hfuel. by apply (toResult_more_fuel _ _ fuel s r Hfuel).
  - destruct (length (heap w) - s)%nat as [|fuel]; [done|].
    simpl in Hr. rewrite Ho in Hr.
    destruct (mapM (toResult fuel (heap w)) (children o)) as [kids|] eqn:Hk;
      [|done].
    injection Hr as <-. simpl. repeat split.
    symmetry. by apply (length_mapM _ _ _ Hk).
Qed.

Lemma two_steps_tree_shaped : tree_shaped two_steps.
Proof.
  split.
  - intros [|[|p]] o c Ho Hc; simpl in Ho; try discriminate Ho;
      injection Ho as <-; simpl in Hc; by apply not_elem_of_nil in Hc.
  - repeat constructor.
Qed.

Lemma toResult_returns_on_ordered_steps_witness :
  exists r, (forall fuel, (2 - 1 <= fuel)%nat ->
               toResult fuel (heap two_steps) 1%nat = Some r) /\
            StepResult.name r = "B"%string.
Proof.
  destruct (toResult_returns_on_ordered_steps two_steps 1%nat
              (mkStep "id" "B" None RUNNING (Some 1) None 0 None None [] [] ∅)
              two_steps_tree_shaped eq_refl)
    as (r & Hr & _ & Hn & _).
  exists r. split; [exact Hr|exact Hn].
Defined.

(** X15.  The [step] wrapper keeps every step allocated before its
    children.  The world in which the callback starts is [tree_shaped]; and
    when the callback returns a plain value or throws, leaves the stack as
    it found it and leaves a [tree_shaped] world, the world after the
    wrapper is [tree_shaped] again, so that [toResult] returns on each of
    its steps. *)
Theorem step_keeps_steps_ordered {T : Type} (nm : string) (descr : option string)
    (fn : Callback T) (w : World) (c : Completion (Returned T))
    (w2 : World) :
  tree_shaped w ->
  let s := length (heap w) in
  let w1 := Step_start s (snd (Step_new nm descr None w)) in
  tree_shaped w1 /\
  (fn w1 = (c, w2) ->
   (forall p, c <> Normal (Async p)) ->
   currentSteps w2 = currentSteps w1 ->
   tree_shaped w2 ->
   let w3 := snd (step nm descr fn w) in
   tree_shaped w3 /\
   forall q, (q < length (heap w3))%nat ->
     is_Some (toResult (length (heap w3)) (heap w3) q)).
Proof.
  intros [Hfw Hst] s w1.
  destruct (Step_new_spec nm descr None w) as (o & Hnew & _ & Hkids).
  assert (Hst1 : currentSteps w1 = currentSteps w ++ [s]).
  { unfold w1. rewrite currentSteps_start, Hnew. done. }
  assert (Hnot : s ∉ currentSteps w).
  { intros Hin. rewrite Forall_forall in Hst. specialize (Hst s Hin).
    unfold s in Hst. lia. }
  assert (Hhp1 : heap w1
                 = alter (started (Host.clock (host w) (Host.ticks (host w))))
                     s (heap w ++ [o])).
  { unfold w1. rewrite heap_start, Hnew. done. }
  assert (Hlen1 : length (heap w1) = S s).
  { rewrite Hhp1, length_alter, length_app. simpl. unfold s. lia. }
  assert (Htree1 : tree_shaped w1).
  { split.
    - intros p po c' Hp Hc. rewrite Hlen1. rewrite Hhp1 in Hp.
      rewrite list_lookup_alter in Hp.
      destruct (decide (s = p)) as [<-|Hne].
      + unfold s in Hp. rewrite lookup_app_r, Nat.sub_diag in Hp by lia.
        simpl in Hp. injection Hp as <-. simpl in Hc. rewrite Hkids in Hc.
        by apply not_elem_of_nil in Hc.
      + assert (Hlt : (p < length (heap w))%nat).
        { apply lookup_lt_Some in Hp. rewrite length_app in Hp. simpl in Hp.
          unfold s in Hne. lia. }
        rewrite lookup_app_l in Hp by done.
        destruct (Hfw p po c' Hp Hc). unfold s. lia.
    - rewrite Hst1, Hlen1. apply Forall_app. split.
      + eapply Forall_impl; [exact Hst|]. intros r Hr. simpl in Hr.
        unfold s. lia.
      + repeat constructor. }
  split; [done|].
  intros Hfn Hsync Hbal [Hfw2 Hst2] w3.
  assert (Hstep : exists err, step nm descr fn w = (c, Step_end s err w2)).
  { unfold step. unfold w1, s in Hfn. rewrite Hnew in *.
    cbv beta iota zeta. cbn [snd] in Hfn. rewrite Hfn.
    destruct c as [[v|p]|e]; [by eexists|by destruct (Hsync p)|by eexists]. }
  destruct Hstep as (err & Hstep).
  assert (Hw3 : w3 = Step_end s err w2) by (unfold w3; by rewrite Hstep).
  assert (Hst3 : currentSteps w3 = currentSteps w).
  { rewrite Hw3, currentSteps_end, Hbal, Hst1. by apply without_snoc. }
  assert (Hlen3 : length (heap w3) = length (heap w2)).
  { rewrite Hw3, heap_end, length_alter. unfold attach_to.
    destruct (last _); by rewrite !length_alter. }
  assert (Hs2 : (s < length (heap w2))%nat).
  { rewrite Forall_forall in Hst2. apply Hst2. rewrite Hbal, Hst1.
    apply elem_of_app. right. apply list_elem_of_here. }
  assert (Htree3 : tree_shaped w3).
  { split.
    - intros p po c' Hp Hc. rewrite Hlen3.
      assert (Hp2 : is_Some (heap w2 !! p)).
      { apply lookup_lt_is_Some_2. rewrite <- Hlen3.
        by apply lookup_lt_Some in Hp. }
      destruct Hp2 as [po2 Hp2].
      destruct (children_end w2 s err p po2 Hp2) as (po' & Hp' & _ & Hc').
      rewrite <- Hw3 in Hp', Hc'. rewrite Hp in Hp'. injection Hp' as <-.
      destruct (decide (getCurrentStep w3 = Some p)) as [Htop|_].
      + rewrite Hc' in Hc. apply elem_of_app in Hc as [Hc|Hc].
        * by apply (Hfw2 p po2 c').
        * apply list_elem_of_singleton in Hc as ->.
          split; [|done].
          unfold getCurrentStep in Htop. rewrite Hst3 in Htop.
          apply last_Some in Htop as (l' & Hl').
          rewrite Forall_forall in Hst. apply Hst. rewrite Hl'.
          apply elem_of_app. right. apply list_elem_of_here.
      + rewrite Hc' in Hc. by apply (Hfw2 p po2 c').
    - rewrite Hst3, Hlen3. eapply Forall_impl; [exact Hst|].
      intros r Hr. simpl in Hr. unfold s in Hs2. lia. }
  split; [done|].
  intros q Hq. apply toResult_returns; [apply Htree3|done|lia].
Qed.

Lemma step_keeps_steps_ordered_witness :
  tree_shaped (snd (step (T := unit) "S" None
                      (fun w => (Normal (Plain tt), w)) two_steps)).
Proof.
  destruct (step_keeps_steps_ordered "S" None (fun w => (Normal (Plain tt), w))
              two_steps (Normal (Plain tt))
              (Step_start 2%nat (snd (Step_new "S" None None two_steps)))
              two_steps_tree_shaped) as [Htree1 Hkeep].
  apply Hkeep.
  - reflexivity.
  - intros p. discriminate.
  - reflexivity.
  - exact Htree1.
Defined.

End StepResultFacts.

(** * Parsing statuses and severities *)

Module ParsingFacts.
Import Text StatusFns SeverityFns.

(** X16.  [parseStatus] against the values of the enum: the value of every
    status parses back to that status, except [pending], which parses to
    [SKIPPED]; no input at all parses to [PENDING]; printing what was parsed
    and parsing again gives the same status; and a parsed status is never
    both successful and a failure. *)
Theorem parseStatus_inverts_all_but_pending :
  (forall s, parseStatus (Status_value s)
             = match s with PENDING => SKIPPED | _ => s end) /\
  (forall v, parseStatus v <> PENDING) /\
  (forall v, parseStatus (Status_value (parseStatus v)) = parseStatus v) /\
  (forall v, isSuccessful (parseStatus v) && isFailure (parseStatus v)
             = false).
Proof.
  assert (Hrt : forall s, parseStatus (Status_value s)
                          = match s with PENDING => SKIPPED | _ => s end).
  { intros []; reflexivity. }
  assert (Hnp : forall v, parseStatus v <> PENDING).
  { intros v. unfold parseStatus.
    repeat match goal with |- context [one_of ?a ?b] =>
      destruct (one_of a b) end; discriminate. }
  split; [done|]. split; [done|]. split.
  - intros v. rewrite Hrt. specialize (Hnp v). by destruct (parseStatus v).
  - intros v. by destruct (parseStatus v).
Qed.

(** X17.  [parseSeverity] inverts the values of the enum, and an input whose
    lower-case form is not one of these values parses to [NORMAL]. *)
Theorem parseSeverity_inverts_values :
  (forall s, parseSeverity (Severity_value s) = s) /\
  (forall v, toLowerCase v = Severity_value (parseSeverity v) \/
             parseSeverity v = NORMAL) /\
  (forall v, parseSeverity (Severity_value (parseSeverity v))
             = parseSeverity v).
Proof.
  assert (Hone : forall a b, one_of a [b] = true -> a = b).
  { intros a b. unfold one_of. simpl. rewrite orb_false_r.
    apply String.eqb_eq. }
  assert (Hrt : forall s, parseSeverity (Severity_value s) = s).
  { intros []; reflexivity. }
  split; [done|]. split; [|done].
  intros v. unfold parseSeverity.
  repeat match goal with |- context [one_of ?a [?b]] =>
    let H := fresh in destruct (one_of a [b]) eqn:H;
      [left; exact (Hone _ _ H)|clear H] end.
  by right.
Qed.

End ParsingFacts.

(** * The adapters *)

Module JestAdapterFacts.
Import Reporter Reporter.QAgenticReporter OrchestratorFacts.
Import OrchestratorLifecycle JestAdapter.

Lemma jest_mapStatus_cases (s : string) :
  (mapStatus s = PASSED <-> s = "passed"%string) /\
  (mapStatus s = FAILED <-> s = "failed"%string) /\
  (mapStatus s = SKIPPED
   <-> s ∈ ["pending"; "skipped"; "todo"]%string) /\
  mapStatus s <> BROKEN.
Proof.
  unfold mapStatus, Text.one_of, existsb.
  rewrite !elem_of_cons, elem_of_nil.
  destruct (String.eqb_spec s "passed") as [E1|N1];
    destruct (String.eqb_spec s "failed") as [E2|N2];
    destruct (String.eqb_spec s "pending") as [E3|N3];
    destruct (String.eqb_spec s "skipped") as [E4|N4];
    destruct (String.eqb_spec s "todo") as [E5|N5];
    simpl; repeat split; try discriminate; try tauto; intros;
    try congruence; intuition congruence.
Qed.

Lemma filter_none {A : Type} (P : A -> Prop) `{forall x, Decision (P x)}
    (l : list A) :
  (forall x, ~ P x) -> filter P l = [].
Proof.
  intros Hno. induction l as [|x l IH]; [done|].
  by rewrite filter_cons_False.
Qed.

(** The tests that [onTestResult] builds, [n] ids having been drawn. *)
Fixpoint tests_from (tr : JestTestResult) (ids : nat -> string) (n : nat)
    (results : list AssertionResult) : list TestResult.t :=
  match results with
  | [] => []
  | r :: rest => test_of tr r (ids n) :: tests_from tr ids (S n) rest
  end.

Definition tally_all (ts : list TestResult.t) (run : TestRunResult.t)
  : TestRunResult.t :=
  fold_left (fun run t => tally t run) ts run.

Lemma count_cons s t ts :
  count s (t :: ts)
  = ((if decide (TestResult.status t = s) then 1 else 0) + count s ts)%nat.
Proof.
  unfold count. rewrite filter_cons.
  by destruct (decide (TestResult.status t = s)).
Qed.

Lemma tally_all_counts (ts : list TestResult.t) : forall run,
  let run' := tally_all ts run in
  TestRunResult.tests run' = TestRunResult.tests run ++ ts /\
  TestRunResult.total run' = (TestRunResult.total run + length ts)%nat /\
  TestRunResult.passed run'
  = (TestRunResult.passed run + count PASSED ts)%nat /\
  TestRunResult.failed run'
  = (TestRunResult.failed run + count FAILED ts)%nat /\
  TestRunResult.broken run'
  = (TestRunResult.broken run + count BROKEN ts)%nat /\
  TestRunResult.skipped run'
  = (TestRunResult.skipped run + count SKIPPED ts)%nat.
Proof.
  induction ts as [|t ts IH]; intros run; simpl.
  - rewrite app_nil_r. unfold count. simpl. repeat split; lia.
  - destruct (IH (tally t run)) as (Ht & Hn & Hp & Hf & Hb & Hs).
    fold (tally_all ts (tally t run)).
    rewrite Ht, Hn, Hp, Hf, Hb, Hs, !count_cons.
    unfold tally. destruct (TestResult.status t) eqn:Hst; simpl;
      repeat (destruct (decide _) as [Heq|Hne]; try discriminate Heq;
              try (exfalso; by apply Hne));
      rewrite <- ?app_assoc; repeat split; simpl; lia.
Qed.

Lemma count_tests_from (tr : JestTestResult) (ids : nat -> string)
    (st : Status) (results : list AssertionResult) : forall n,
  count st (tests_from tr ids n results)
  = length (filter (fun r => mapStatus (status r) = st) results).
Proof.
  induction results as [|r rest IH]; intros n; [done|].
  simpl. rewrite count_cons, filter_cons, (IH (S n)). simpl.
  by destruct (decide (mapStatus (status r) = st)).
Qed.

Lemma names_tests_from tr ids (results : list AssertionResult) : forall n,
  map TestResult.name (tests_from tr ids n results) = map title results /\
  map TestResult.id (tests_from tr ids n results)
  = map ids (seq n (length results)) /\
  Forall (fun t => TestResult.isFlaky t = false /\
                   TestResult.isRetry t = false /\
                   TestResult.steps t = []) (tests_from tr ids n results).
Proof.
  induction results as [|r rest IH]; intros n; [done|].
  destruct (IH (S n)) as (Hn & Hi & Hf). simpl.
  rewrite Hn, Hi. repeat split. by constructor.
Qed.

Section Any_sinks.
Context {W : Type}.
Implicit Types (o : t W) (run : TestRunResult.t).

Lemma for_results_spec (tr : JestTestResult)
    (results : list AssertionResult) : forall o run,
  sinks_return o -> currentRun o = Some run ->
  let o' := snd (for_results tr results o) in
  fst (for_results tr results o) = Normal tt /\
  currentRun o'
  = Some (tally_all
            (tests_from tr (Host.ids (host o)) (Host.drawn (host o)) results)
            run) /\
  Host.drawn (host o') = (Host.drawn (host o) + length results)%nat.
Proof.
  induction results as [|r rest IH]; intros o run Hok Hrun.
  - simpl. split; [done|]. split; [done|]. lia.
  - cbn [for_results Host.uuidv4 tests_from length].
    set (test := test_of tr r (Host.ids (host o) (Host.drawn (host o)))).
    set (o1 := set_host _ o).
    assert (Hok1 : sinks_return o1) by exact Hok.
    assert (Hrun1 : currentRun o1 = Some run) by exact Hrun.
    destruct (reportTest_all test o1 run Hok1 Hrun1) as (Hn & _).
    destruct (reportTest_frame test o1 run Hrun1) as (_ & Hrs & Hcur & Hh).
    destruct (reportTest test o1) as [c o2]. simpl in Hn, Hrs, Hcur, Hh.
    subst c.
    assert (Hok2 : sinks_return o2).
    { intros s Hin. apply Hok1. rewrite Hrs in Hin. exact Hin. }
    destruct (IH o2 (tally test run) Hok2 Hcur) as (Hn2 & Hcur2 & Hd2).
    rewrite Hh in Hcur2, Hd2. simpl in Hcur2, Hd2.
    split; [done|]. split; [done|]. rewrite Hd2. lia.
Qed.

(** X18.  The Jest adapter with an active run and sinks whose callbacks
    return.  [onTestResult] returns, and the run has gained one test for
    each result, in order, named by the result's title, with ids that are
    consecutive draws of [uuidv4()], never flagged flaky or retried and
    without steps; [total] has grown by the number of results, [passed] and
    [failed] by the number of results with that Jest status, [skipped] by
    the number of results that Jest calls pending, skipped or todo; and
    [broken] has not changed. *)
Theorem jest_results_reach_the_run (tr : JestTestResult) o run :
  sinks_return o ->
  currentRun o = Some run ->
  let results := testResults tr in
  let o' := snd (onTestResult tr o) in
  fst (onTestResult tr o) = Normal tt /\
  exists run' new,
    currentRun o' = Some run' /\
    TestRunResult.tests run' = TestRunResult.tests run ++ new /\
    map TestResult.name new = map title results /\
    map TestResult.id new
    = map (Host.ids (host o))
        (seq (Host.drawn (host o)) (length results)) /\
    Forall (fun t => TestResult.isFlaky t = false /\
                     TestResult.isRetry t = false /\
                     TestResult.steps t = []) new /\
    TestRunResult.total run'
    = (TestRunResult.total run + length results)%nat /\
    TestRunResult.passed run'
    = (TestRunResult.passed run
       + length (filter (fun r => status r = "passed"%string) results))%nat /\
    TestRunResult.failed run'
    = (TestRunResult.failed run
       + length (filter (fun r => status r = "failed"%string) results))%nat /\
    TestRunResult.skipped run'
    = (TestRunResult.skipped run
       + length (filter
                   (fun r => status r ∈ ["pending"; "skipped"; "todo"]%string)
                   results))%nat /\
    TestRunResult.broken run' = TestRunResult.broken run.
Proof.
  intros Hok Hrun results o'.
  destruct (for_results_spec tr results o run Hok Hrun) as (Hn & Hcur & _).
  split; [exact Hn|].
  set (new := tests_from tr (Host.ids (host o)) (Host.drawn (host o)) results)
    in Hcur.
  destruct (tally_all_counts new run) as (Ht & Htot & Hp & Hf & Hb & Hs).
  destruct (names_tests_from tr (Host.ids (host o)) results
              (Host.drawn (host o))) as (Hnames & Hids & Hflags).
  assert (Hlen : length new = length results).
  { unfold new. rewrite <- (length_map TestResult.name), Hnames.
    apply length_map. }
  exists (tally_all new run), new.
  split; [exact Hcur|]. split; [exact Ht|]. split; [exact Hnames|].
  split; [exact Hids|]. split; [exact Hflags|].
  split; [by rewrite Htot, Hlen|].
  subst new. rewrite count_tests_from in Hp, Hf, Hb, Hs.
  split; [|split; [|split]].
  - rewrite Hp. do 2 f_equal. apply list_filter_iff. intros r.
    apply (jest_mapStatus_cases (status r)).
  - rewrite Hf. do 2 f_equal. apply list_filter_iff. intros r.
    apply (jest_mapStatus_cases (status r)).
  - rewrite Hs. do 2 f_equal. apply list_filter_iff. intros r.
    apply (jest_mapStatus_cases (status r)).
  - rewrite Hb, filter_none; [simpl; lia|].
    intros r. apply (jest_mapStatus_cases (status r)).
Qed.

End Any_sinks.

Lemma jest_results_reach_the_run_witness :
  fst (onTestResult
         (mkJestTestResult "a.test.js"
            [mkAssertionResult "adds" "math adds" "passed" (Some 3) ["math"]
               [] 1;
             mkAssertionResult "later" "math later" "todo" None ["math"]
               [] 0]
            0 10)
         (snd (startRun Samples.no_options Samples.robust)))
  = Normal tt.
Proof.
  apply (jest_results_reach_the_run _
           (snd (startRun Samples.no_options Samples.robust))
           (fst (new_run Samples.no_options Samples.robust))).
  - intros r Hin run test w.
    apply elem_of_cons in Hin as [->|Hin]; [done|].
    apply list_elem_of_singleton in Hin as ->. done.
  - reflexivity.
Defined.

End JestAdapterFacts.

Module PlaywrightAdapterFacts.
Import Reporter Reporter.QAgenticReporter PlaywrightAdapter.

(** Induction on a step with the hypothesis for each of its sub-steps. *)
Lemma PlaywrightStep_forall_ind (P : PlaywrightStep -> Prop) :
  (forall t st d e, P (mkPlaywrightStep t st d e None)) ->
  (forall t st d e l, Forall P l -> P (mkPlaywrightStep t st d e (Some l))) ->
  forall s, P s.
Proof.
  intros Hleaf Hnode. fix IH 1. intros [t st d e [l|]]; [|apply Hleaf].
  apply Hnode. induction l as [|x l IHl]; constructor; [apply IH|exact IHl].
Qed.

(** The steps of a forest, and the results of a forest, parents first. *)
Fixpoint nodes (s : PlaywrightStep) : list PlaywrightStep :=
  match s with
  | mkPlaywrightStep _ _ _ _ ss =>
      s :: match ss with
           | Some l => flat_map nodes l
           | None => []
           end
  end.

Fixpoint result_nodes (r : StepResult.t) : list StepResult.t :=
  match r with
  | StepResult.Make _ _ _ _ _ _ _ _ _ kids _ =>
      r :: flat_map result_nodes kids
  end.

(** The host after [n] more calls of [uuidv4()]. *)
Definition after_draws (n : nat) (h : Host.t) : Host.t :=
  Host.Make (Host.clock h) (Host.ticks h) (Host.ids h) (Host.drawn h + n)
    (Host.toISOString h).

(** What a result holds of the step it was made from. *)
Definition mirrors (r : StepResult.t) (s : PlaywrightStep) : Prop :=
  StepResult.name r = title s /\
  StepResult.status r
  = match error s with Some _ => FAILED | None => PASSED end /\
  StepResult.startTime r = Some (startTime s) /\
  StepResult.endTime r = Some (startTime s + duration s) /\
  StepResult.durationMs r = duration s /\
  StepResult.error r = option_map message (error s) /\
  StepResult.attachments r = [] /\
  length (StepResult.children r) = length (default [] (steps s)).

Definition mapped (ins : list PlaywrightStep) (outs : list StepResult.t)
    (h h' : Host.t) : Prop :=
  h' = after_draws (length ins) h /\
  Forall2 mirrors outs ins /\
  map StepResult.id outs
  = map (Host.ids h) (seq (Host.drawn h) (length ins)).

Lemma mapStep_unfold t st d e ss (h : Host.t) :
  mapStep (mkPlaywrightStep t st d e ss) h =
  (StepResult.Make (Host.ids h (Host.drawn h)) t
     (match e with Some _ => FAILED | None => PASSED end)
     (Some st) (Some (st + d)) d (option_map message e)
     (match e with Some e => stack e | None => None end) []
     (fst (mapSteps (default [] ss) (snd (Host.uuidv4 h)))) ∅,
   snd (mapSteps (default [] ss) (snd (Host.uuidv4 h)))).
Proof.
  destruct ss as [l|]; [|reflexivity].
  transitivity
    (let '(children, h') := mapSteps l (snd (Host.uuidv4 h)) in
     (StepResult.Make (Host.ids h (Host.drawn h)) t
        (match e with Some _ => FAILED | None => PASSED end)
        (Some st) (Some (st + d)) d (option_map message e)
        (match e with Some e => stack e | None => None end) [] children ∅,
      h')); [reflexivity|].
  simpl. by destruct (mapSteps l _).
Qed.

Lemma mapped_nil (h : Host.t) : mapped [] [] h h.
Proof.
  unfold mapped, after_draws. simpl. rewrite Nat.add_0_r.
  destruct h. repeat split. constructor.
Qed.

Lemma mapped_app ins1 outs1 ins2 outs2 (h h1 h2 : Host.t) :
  mapped ins1 outs1 h h1 -> mapped ins2 outs2 h1 h2 ->
  mapped (ins1 ++ ins2) (outs1 ++ outs2) h h2.
Proof.
  intros (-> & Hm1 & Hi1) (-> & Hm2 & Hi2). unfold mapped.
  rewrite length_app, seq_app, !map_app, Hi1, Hi2. simpl.
  split; [unfold after_draws; simpl; f_equal; lia|].
  split; [by apply Forall2_app|done].
Qed.

Lemma mapSteps_of_mapped (l : list PlaywrightStep) :
  Forall (fun s => forall h,
            mapped (nodes s) (result_nodes (fst (mapStep s h))) h
              (snd (mapStep s h))) l ->
  forall h,
    length (fst (mapSteps l h)) = length l /\
    mapped (flat_map nodes l) (flat_map result_nodes (fst (mapSteps l h))) h
      (snd (mapSteps l h)).
Proof.
  induction 1 as [|s l Hs _ IH]; intros h.
  - split; [done|]. apply mapped_nil.
  - cbn [mapSteps flat_map]. specialize (Hs h).
    destruct (mapStep s h) as [r h1]. specialize (IH h1).
    destruct (mapSteps l h1) as [rs h2]. simpl in *.
    destruct IH as [Hlen IH]. split; [by rewrite Hlen|].
    by apply (mapped_app _ _ _ _ h h1 h2).
Qed.

Lemma mapStep_mapped (s : PlaywrightStep) : forall h,
  mapped (nodes s) (result_nodes (fst (mapStep s h))) h (snd (mapStep s h)).
Proof.
  induction s as [t st d e|t st d e l IH] using PlaywrightStep_forall_ind;
    intros h; rewrite mapStep_unfold.
  - simpl. unfold mapped, mirrors, after_draws. simpl.
    split; [f_equal; lia|]. split; [|done].
    repeat constructor.
  - change (default [] (Some l)) with l.
    destruct (mapSteps_of_mapped l IH (snd (Host.uuidv4 h)))
      as (Hlen & -> & Hm & Hi).
    cbn [fst snd nodes result_nodes].
    unfold mapped. cbn [length map seq].
    split; [unfold after_draws; simpl; f_equal; lia|]. split.
    + constructor; [|exact Hm]. unfold mirrors. simpl. repeat split.
      exact Hlen.
    + simpl. f_equal. exact Hi.
Qed.

(** X19.  [mapSteps] of the Playwright adapter mirrors the steps it is
    given.  The results are as many as the steps; read parents first, every
    result has the title, times, duration and error of the step in the same
    position, as many children as that step has sub-steps, an end time that
    is start time plus duration, and the status failed exactly when the step
    has an error; the ids are consecutive draws of [uuidv4()], one for each
    step, and nothing else of the host is used. *)
Theorem mapSteps_mirrors_steps (l : list PlaywrightStep) (h : Host.t) :
  let ins := flat_map nodes l in
  let outs := flat_map result_nodes (fst (mapSteps l h)) in
  length (fst (mapSteps l h)) = length l /\
  Forall2 mirrors outs ins /\
  map StepResult.id outs
  = map (Host.ids h) (seq (Host.drawn h) (length ins)) /\
  snd (mapSteps l h) = after_draws (length ins) h /\
  Forall (fun r => exists a b,
            StepResult.startTime r = Some a /\
            StepResult.endTime r = Some b /\
            b - a = StepResult.durationMs r) outs.
Proof.
  intros ins outs.
  destruct (mapSteps_of_mapped l) with (h := h) as (Hlen & Hh & Hm & Hi).
  { apply Forall_forall. intros s _. apply mapStep_mapped. }
  split; [exact Hlen|]. split; [exact Hm|]. split; [exact Hi|].
  split; [exact Hh|].
  fold ins outs in Hm. clearbody ins outs. clear -Hm.
  induction Hm as [|r s outs ins (_ & _ & Hs & He & Hd & _) _ IH];
    constructor; [|exact IH].
  exists (startTime s), (startTime s + duration s).
  rewrite Hs, He, Hd. repeat split. lia.
Qed.

Lemma playwright_mapStatus_cases (s : string) :
  (mapStatus s = PASSED <-> s = "passed"%string) /\
  (mapStatus s = FAILED <-> s = "failed"%string) /\
  (mapStatus s = BROKEN <-> s ∈ ["timedOut"; "interrupted"]%string) /\
  (mapStatus s = SKIPPED <-> s = "skipped"%string) /\
  (mapStatus s = UNKNOWN
   <-> s ∉ ["passed"; "failed"; "timedOut"; "skipped"; "interrupted"]%string)
  /\ mapStatus s <> PENDING /\ mapStatus s <> RUNNING.
Proof.
  unfold mapStatus, Text.one_of, existsb.
  rewrite !elem_of_cons, elem_of_nil.
  destruct (String.eqb_spec s "passed") as [E1|N1];
    destruct (String.eqb_spec s "failed") as [E2|N2];
    destruct (String.eqb_spec s "timedOut") as [E3|N3];
    destruct (String.eqb_spec s "skipped") as [E4|N4];
    destruct (String.eqb_spec s "interrupted") as [E5|N5];
    simpl; repeat split; try discriminate; try tauto; intros;
    try congruence; intuition congruence.
Qed.

(** X20.  A test whose status comes from [mapStatus] of the Playwright
    adapter, counted by [reportTest] of the orchestrator on an active run,
    whatever the sinks do: the test is appended to the run and [total] grows
    by one; [passed] grows by one exactly for Playwright's status passed,
    [failed] exactly for failed, [skipped] exactly for skipped, [broken]
    exactly for timedOut and interrupted, and each bucket is unchanged
    otherwise: one bucket grows by one for these five statuses, and none
    for any other status. *)
Theorem playwright_status_buckets {W : Type} (s : string)
    (test : TestResult.t) (o : t W) (run : TestRunResult.t) :
  TestResult.status test = mapStatus s ->
  currentRun o = Some run ->
  exists run',
    currentRun (snd (reportTest test o)) = Some run' /\
    TestRunResult.tests run' = TestRunResult.tests run ++ [test] /\
    TestRunResult.total run' = S (TestRunResult.total run) /\
    TestRunResult.passed run'
    = (TestRunResult.passed run
       + if decide (s = "passed"%string) then 1 else 0)%nat /\
    TestRunResult.failed run'
    = (TestRunResult.failed run
       + if decide (s = "failed"%string) then 1 else 0)%nat /\
    TestRunResult.broken run'
    = (TestRunResult.broken run
       + if decide (s ∈ ["timedOut"; "interrupted"]%string)
         then 1 else 0)%nat /\
    TestRunResult.skipped run'
    = (TestRunResult.skipped run
       + if decide (s = "skipped"%string) then 1 else 0)%nat.
Proof.
  intros Hst Hrun.
  destruct (OrchestratorFacts.reportTest_frame test o run Hrun)
    as (_ & _ & Hcur & _).
  exists (tally test run). split; [exact Hcur|].
  destruct (playwright_mapStatus_cases s)
    as (Hp & Hf & Hb & Hs & Hu & Hnp & Hnr).
  unfold tally. rewrite Hst.
  destruct (decide (s = "passed"%string)) as [E1|N1];
    destruct (decide (s = "failed"%string)) as [E2|N2];
    destruct (decide (s ∈ ["timedOut"; "interrupted"]%string)) as [E3|N3];
    destruct (decide (s = "skipped"%string)) as [E4|N4];
    rewrite <- ?Hp, <- ?Hf, <- ?Hb, <- ?Hs in *;
    destruct (mapStatus s) eqn:Hm; try discriminate; try congruence;
    simpl; repeat split; try lia; try done;
    try (by destruct Hnp); try (by destruct Hnr).
Qed.

Lemma playwright_status_buckets_witness :
  exists run',
    currentRun
      (snd (reportTest (Samples.a_test "t" BROKEN)
              (snd (startRun Samples.no_options Samples.robust))))
    = Some run' /\
    TestRunResult.broken run' = 1%nat.
Proof.
  destruct (playwright_status_buckets "timedOut" (Samples.a_test "t" BROKEN)
              (snd (startRun Samples.no_options Samples.robust))
              (fst (new_run Samples.no_options Samples.robust))
              eq_refl eq_refl)
    as (run' & Hcur & _ & _ & _ & _ & Hb & _).
  exists run'. split; [exact Hcur|exact Hb].
Defined.

End PlaywrightAdapterFacts.

(** * The global configuration *)

Module ConfigStoreFacts.
Import Reporter ConfigStore.

(** The configuration under construction still holds the API object of
    [defaultConfig], whose value is [a]. *)
Definition at_default (a : APIConfig) (s : Building) : Prop :=
  api (fst s) = 0%nat /\ apis (snd s) !! 0%nat = Some a.

(** The API object of [defaultConfig] has the value [a]. *)
Definition holds (a : APIConfig) (s : Building) : Prop :=
  apis (snd s) !! 0%nat = Some a.

Definition upd {A : Type} (x : option A) (g : A -> APIConfig -> APIConfig)
    (a : APIConfig) : APIConfig :=
  match x with
  | Some v => g v a
  | None => a
  end.

Lemma when_on_api {A : Type} (x : option A) g a s :
  at_default a s ->
  at_default (upd x g a) (when x (fun v => on_api (g v)) s).
Proof.
  intros [Hr Ha]. destruct x as [v|]; [|done]. destruct s as [c hp].
  unfold at_default. simpl in *. split; [done|].
  by rewrite Hr, list_lookup_alter_eq, Ha.
Qed.

Lemma when_set_projectName x a s :
  at_default a s -> at_default a (when x set_projectName s).
Proof. destruct x, s; done. Qed.

Lemma when_set_environment x a s :
  at_default a s -> at_default a (when x set_environment s).
Proof. destruct x, s; done. Qed.

Lemma when_on_local {A : Type} (x : option A) g a s :
  at_default a s -> at_default a (when x (fun v => on_local (g v)) s).
Proof. destruct x, s; done. Qed.

Lemma when_on_features {A : Type} (x : option A) g a s :
  at_default a s -> at_default a (when x (fun v => on_features (g v)) s).
Proof. destruct x, s; done. Qed.

Lemma when_on_labels {A : Type} (x : option A) g a s :
  at_default a s -> at_default a (when x (fun v => on_labels (g v)) s).
Proof. destruct x, s; done. Qed.

Ltac step_when :=
  first [ apply when_on_local | apply when_on_features | apply when_on_labels
        | apply when_set_projectName | apply when_set_environment
        | apply when_on_api ].

(** The API object after the assignments of [loadFromEnv], of
    [loadFromFile] and of [configure]. *)
Definition api_after_env (env : string -> option string) (a : APIConfig)
  : APIConfig :=
  upd (truthy (env "QAGENTIC_API_KEY"%string)) with_api_key
    (upd (truthy (env "QAGENTIC_API_URL"%string)) with_api_url
       (upd (env "QAGENTIC_API_ENABLED"%string)
          (fun v => with_api_enabled (is_true v)) a)).

Definition api_after_yaml (data : Yaml) (a : APIConfig) : APIConfig :=
  upd (truthy (reporting_api_key data)) with_api_key
    (upd (truthy (reporting_api_url data)) with_api_url
       (upd (reporting_api_enabled data) with_api_enabled a)).

Definition api_after_options (options : Options) (a : APIConfig)
  : APIConfig :=
  upd (truthy (opt_apiKey options)) with_api_key
    (upd (truthy (opt_apiUrl options)) with_api_url a).

Definition api_discovered (env : string -> option string)
    (file : option Yaml) (a : APIConfig) : APIConfig :=
  api_after_env env
    (match file with Some data => api_after_yaml data a | None => a end).

Lemma loadFromEnv_at_default env a s :
  at_default a s -> at_default (api_after_env env a) (loadFromEnv env s).
Proof.
  intros Hs. unfold loadFromEnv, api_after_env. cbv zeta.
  repeat step_when. exact Hs.
Qed.

Lemma apply_yaml_at_default data a s :
  at_default a s -> at_default (api_after_yaml data a) (apply_yaml data s).
Proof.
  intros Hs. unfold apply_yaml, api_after_yaml. cbv zeta.
  destruct (yaml_labels data) as [m|]; cbn [when].
  - apply (when_on_labels (Some tt) (fun _ => with_custom (fun old => m ∪ old))).
    repeat step_when. exact Hs.
  - repeat step_when. exact Hs.
Qed.

Lemma autoDiscover_at_default env file hp a :
  apis hp !! 0%nat = Some a ->
  at_default (api_discovered env file a) (autoDiscover env file hp).
Proof.
  intros Ha. unfold autoDiscover, api_discovered. cbv zeta.
  apply loadFromEnv_at_default. destruct file as [data|]; cbn [when].
  - by apply apply_yaml_at_default.
  - done.
Qed.

Lemma holds_merge_api x a s :
  at_default a s ->
  holds a (when x merge_api s) /\
  apis (snd (when x merge_api s)) !! api (fst (when x merge_api s))
  = Some (match x with Some b => spread_api a b | None => a end).
Proof.
  intros [Hr Ha]. destruct s as [c hp]. simpl in *.
  destruct x as [b|]; simpl; [|by rewrite Hr].
  rewrite Hr, Ha. unfold holds. simpl.
  pose proof (lookup_lt_Some _ _ _ Ha) as Hlt.
  split; [by rewrite lookup_app_l|].
  rewrite lookup_app_r, Nat.sub_diag by lia. done.
Qed.

Lemma keeps_apis_merge_local x s :
  apis (snd (when x merge_local s)) = apis (snd s) /\
  api (fst (when x merge_local s)) = api (fst s).
Proof. destruct x, s; done. Qed.

Lemma keeps_apis_merge_features x s :
  apis (snd (when x merge_features s)) = apis (snd s) /\
  api (fst (when x merge_features s)) = api (fst s).
Proof. destruct x, s; done. Qed.

Lemma keeps_apis_merge_labels x s :
  apis (snd (when x merge_labels s)) = apis (snd s) /\
  api (fst (when x merge_labels s)) = api (fst s).
Proof.
  destruct x as [b|], s as [c hp]; [|done]. simpl.
  by destruct (labelss hp !! labels c).
Qed.

(** The API object of [defaultConfig] and the API object of the new
    [globalConfig] after [configure]. *)
Lemma configure_api (options : Options) (env : string -> option string)
    (file : option Yaml) (w : World) (a0 : APIConfig) :
  apis (heap w) !! 0%nat = Some a0 ->
  let a := api_after_options options (api_discovered env file a0) in
  let w' := configure options env file w in
  apis (heap w') !! 0%nat = Some a /\
  api_of w'
  = Some (match opt_api options with Some b => spread_api a b | None => a end).
Proof.
  intros Ha a w'. unfold w', configure, api_of. cbv zeta.
  cbn [heap globalConfig].
  match goal with |- context [when (opt_api options) merge_api ?s] =>
    assert (Hs : at_default a s); [|set (s0 := s) in *] end.
  { unfold a, api_after_options. do 5 step_when.
    by apply autoDiscover_at_default. }
  destruct (holds_merge_api (opt_api options) a s0 Hs) as [Hh Hnew].
  set (s1 := when (opt_api options) merge_api s0) in *.
  destruct (keeps_apis_merge_local (opt_local options) s1) as [Hl1 Hl2].
  set (s2 := when (opt_local options) merge_local s1) in *.
  destruct (keeps_apis_merge_features (opt_features options) s2) as [Hf1 Hf2].
  set (s3 := when (opt_features options) merge_features s2) in *.
  destruct (keeps_apis_merge_labels (opt_labels options) s3) as [Hb1 Hb2].
  rewrite Hb1, Hb2, Hf1, Hf2, Hl1, Hl2. split; [exact Hh|exact Hnew].
Qed.

(** The first of the settings that is there. *)
Definition first_of {A : Type} (xs : list (option A)) (d : A) : A :=
  default d (foldr (fun x acc => match x with Some v => Some v | None => acc end)
               None xs).

Lemma api_url_after options env file a0 :
  api_url (api_after_options options (api_discovered env file a0))
  = first_of [truthy (opt_apiUrl options);
              truthy (env "QAGENTIC_API_URL"%string);
              file ≫= (fun data => truthy (reporting_api_url data))]
      (api_url a0).
Proof.
  unfold api_after_options, api_discovered, api_after_env, api_after_yaml,
    first_of, upd.
  destruct (truthy (opt_apiKey options)), (truthy (opt_apiUrl options)),
    (truthy (env "QAGENTIC_API_KEY"%string)),
    (truthy (env "QAGENTIC_API_URL"%string)),
    (env "QAGENTIC_API_ENABLED"%string); simpl; try done;
    destruct file as [data|]; simpl; try done;
    destruct (truthy (reporting_api_key data)),
      (truthy (reporting_api_url data)), (reporting_api_enabled data); done.
Qed.

Lemma api_key_after options env file a0 :
  api_key (api_after_options options (api_discovered env file a0))
  = first_of [Some <$> truthy (opt_apiKey options);
              Some <$> truthy (env "QAGENTIC_API_KEY"%string);
              file ≫= (fun data => Some <$> truthy (reporting_api_key data))]
      (api_key a0).
Proof.
  unfold api_after_options, api_discovered, api_after_env, api_after_yaml,
    first_of, upd.
  destruct (truthy (opt_apiKey options)), (truthy (opt_apiUrl options)),
    (truthy (env "QAGENTIC_API_KEY"%string)),
    (truthy (env "QAGENTIC_API_URL"%string)),
    (env "QAGENTIC_API_ENABLED"%string); simpl; try done;
    destruct file as [data|]; simpl; try done;
    destruct (truthy (reporting_api_key data)),
      (truthy (reporting_api_url data)), (reporting_api_enabled data); done.
Qed.

(** X21.  Where [configure] takes the API url and key from.  The url of the
    new configuration is that of [options.api] when it is given; otherwise
    it is the first non-empty one of [options.apiUrl], the environment
    variable, the YAML file, and the url that the shared API object of
    [defaultConfig] held before the call.  The key is found in the same
    order, with the key of [options.api] first when it has one. *)
Theorem configure_api_precedence (options : Options)
    (env : string -> option string) (file : option Yaml) (w : World)
    (a0 : APIConfig) :
  apis (heap w) !! 0%nat = Some a0 ->
  exists a,
    api_of (configure options env file w) = Some a /\
    api_url a
    = first_of [api_url <$> opt_api options;
                truthy (opt_apiUrl options);
                truthy (env "QAGENTIC_API_URL"%string);
                file ≫= (fun data => truthy (reporting_api_url data))]
        (api_url a0) /\
    api_key a
    = first_of [opt_api options ≫= (fun b => Some <$> api_key b);
                Some <$> truthy (opt_apiKey options);
                Some <$> truthy (env "QAGENTIC_API_KEY"%string);
                file ≫= (fun data => Some <$> truthy (reporting_api_key data))]
        (api_key a0).
Proof.
  intros Ha. destruct (configure_api options env file w a0 Ha) as [_ Hnew].
  eexists. split; [exact Hnew|].
  pose proof (api_url_after options env file a0) as Hu.
  pose proof (api_key_after options env file a0) as Hk.
  unfold first_of in *. cbn [foldr] in *.
  destruct (opt_api options) as [b|]; cbn [fmap option_fmap option_map mbind
                                            option_bind spread_api api_url
                                            api_key].
  - split; [done|]. destruct (api_key b); [done|]. exact Hk.
  - split; [exact Hu|exact Hk].
Qed.

Lemma configure_api_precedence_witness :
  exists a,
    api_of (configure
              (mkOptions None None (Some "http://qa:1") None None None None
                 None None)
              (fun _ => None) None loaded) = Some a /\
    api_url a = "http://qa:1"%string.
Proof.
  destruct (configure_api_precedence
              (mkOptions None None (Some "http://qa:1"%string) None None None
                 None None None)
              (fun _ => None) None loaded
              (mkAPI true "http://localhost:8080" None 30000 3 100) eq_refl)
    as (a & Ha & Hu & _).
  exists a. split; [exact Ha|exact Hu].
Defined.

(** X22.  [resetConfig] does not undo what [configure] wrote into the
    nested objects.  After [configure] and [resetConfig], the project name
    and the environment are the defaults again, but the API object is the
    one [configure] wrote to: its url and key are those that
    [options.apiUrl], [options.apiKey], the environment variables or the
    YAML file set, and a later [configure] without any setting still
    returns them. *)
Theorem resetConfig_keeps_nested_settings (options : Options)
    (env : string -> option string) (file : option Yaml) (w : World)
    (a0 : APIConfig) :
  apis (heap w) !! 0%nat = Some a0 ->
  let w' := resetConfig (configure options env file w) in
  let nothing := mkOptions None None None None None None None None None in
  projectName (getConfig w') = "default"%string /\
  environment (getConfig w') = "local"%string /\
  exists a,
    api_of w' = Some a /\
    api_of (configure nothing (fun _ => None) None w') = Some a /\
    api_url a
    = first_of [truthy (opt_apiUrl options);
                truthy (env "QAGENTIC_API_URL"%string);
                file ≫= (fun data => truthy (reporting_api_url data))]
        (api_url a0) /\
    api_key a
    = first_of [Some <$> truthy (opt_apiKey options);
                Some <$> truthy (env "QAGENTIC_API_KEY"%string);
                file ≫= (fun data => Some <$> truthy (reporting_api_key data))]
        (api_key a0).
Proof.
  intros Ha w' nothing.
  destruct (configure_api options env file w a0 Ha) as [H0 _].
  split; [done|]. split; [done|].
  eexists. split; [exact H0|]. split.
  - destruct (configure_api nothing (fun _ => None) None w' _ H0) as [_ Hn].
    exact Hn.
  - split; [apply api_url_after|apply api_key_after].
Qed.

Lemma resetConfig_keeps_nested_settings_witness :
  exists a,
    api_of (resetConfig
              (configure
                 (mkOptions None None None (Some "secret") None None None
                    None None)
                 (fun _ => None) None loaded)) = Some a /\
    api_key a = Some "secret"%string.
Proof.
  destruct (resetConfig_keeps_nested_settings
              (mkOptions None None None (Some "secret"%string) None None None
                 None None)
              (fun _ => None) None loaded
              (mkAPI true "http://localhost:8080" None 30000 3 100) eq_refl)
    as (_ & _ & a & Ha & _ & _ & Hk).
  exists a. split; [exact Ha|exact Hk].
Defined.

End ConfigStoreFacts.
